(** * PhotonEmmitingSimulation: a shallow embedding of [main.py]

    The simulation core of [main.py] (geometry, photons, circles, photon
    sources, the object registries and the input policy) is embedded as
    state-passing definitions and checked against the properties of the
    natural-language specification.

    Numbers.  Python [float]s are idealised as the real numbers of the
    Standard Library: [math.cos], [math.sin], [math.atan2] and
    [math.dist] become their real counterparts, arithmetic is exact.
    Python [int]s are [Z] (radius, ticks, canvas size, key codes) or
    [nat] (the reflection counter, which starts at 0 and is only ever
    incremented).

    Randomness.  [random.random()] reads the next draw of an explicit
    stream; [random.uniform(a, b)] is [a + (b - a) * random()], as in
    CPython.

    Objects.  Figures live in an object heap and the registries
    ([Figure.__objects__], [Circle.__objects__],
    [PhotonSource.__objects__]) are lists of references into it.  Lists
    of photons are heap objects too, so that the class attribute
    [PhotonSource.photons] and the instance attributes bound to it can
    alias.  An exception that escapes a function is modelled by [None]. *)

From Stdlib Require Import Reals Lra Lia ZArith List String.
From stdpp Require Import base option list gmap.

Local Open Scope R_scope.

(** ** Numbers and randomness *)

#[global] Instance Rle_decision (x y : R) : Decision (x <= y) := Rle_dec x y.
#[global] Instance Rlt_decision (x y : R) : Decision (x < y) := Rlt_dec x y.

Definition sqr (a : R) : R := a * a.

(** [math.atan2(y, x)]. *)
Definition atan2 (y x : R) : R :=
  if decide (0 < x) then atan (y / x)
  else if decide (x < 0) then
         (if decide (0 <= y) then atan (y / x) + PI else atan (y / x) - PI)
       else if decide (0 < y) then PI / 2
            else if decide (y < 0) then - (PI / 2) else 0.

(** The random source: a stream of draws of [random.random()] and the
    number of draws consumed so far. *)
Record Rng := mkRng { draws : nat -> R; cursor : nat }.

Definition random_random (g : Rng) : R * Rng :=
  (draws g (cursor g), mkRng (draws g) (S (cursor g))).

Definition random_uniform (a b : R) (g : Rng) : R * Rng :=
  let '(u, g') := random_random g in (a + (b - a) * u, g').

(** Every draw of the stream lies in [[0, 1)], as [random.random()] promises. *)
Definition unit_draws (g : Rng) : Prop := forall k, 0 <= draws g k < 1.

(** [a % b] of Python on integers: [ZeroDivisionError] for [b = 0],
    otherwise the remainder with the sign of [b]. *)
Definition py_mod (a b : Z) : option Z :=
  if decide (b = 0%Z) then None else Some (a mod b)%Z.

(** [len(range(start, stop, step))] as CPython computes it. *)
Definition range_len (start stop step : Z) : Z :=
  if decide (0 < step)%Z then
    (if decide (start < stop)%Z then (stop - start - 1) / step + 1 else 0)%Z
  else
    (if decide (stop < start)%Z then (start - stop - 1) / (- step) + 1 else 0)%Z.

(** [range(start, stop, step)]: [ValueError] for a zero step. *)
Definition py_range (start stop step : Z) : option (list Z) :=
  if decide (step = 0%Z) then None
  else Some (map (fun i : nat => (start + Z.of_nat i * step)%Z)
                 (seq 0 (Z.to_nat (range_len start stop step)))).

(** The module and class level settings that [VarsRegistry.accept_all]
    writes, and the canvas size read from the display. *)
Record Config := mkConfig {
  axis_value : R;
  ate_probability : R;
  frequency : Z;
  rays_step : Z;
  p_size : Z;
  d_w : Z;
  d_h : Z
}.

(** [axis = lambda: random.uniform(-axis_value, axis_value)]. *)
Definition axis (c : Config) (g : Rng) : R * Rng :=
  random_uniform (- axis_value c) (axis_value c) g.

(** ** Geometry *)

Module Point.
Record t := mk { x : R; y : R }.

(** [math.dist((self.x, self.y), (other.x, other.y))]. *)
Definition distance (a b : t) : R :=
  sqrt (sqr (x a - x b) + sqr (y a - y b)).
End Point.

Module Vector2.
Record t := mk { x : R; y : R }.

Definition dot (u v : t) : R := x u * x v + y u * y v.

Definition scale (k : R) (v : t) : t := mk (k * x v) (k * y v).

(** Modelled from the spec: [pygame.math.Vector2.reflect] is library
    code outside the repository; section 4.1 of the specification gives
    it as [v' = v - 2(v.n)n/|n|^2]. *)
Definition reflect (v n : t) : t :=
  mk (x v - 2 * dot v n * x n / dot n n)
     (y v - 2 * dot v n * y n / dot n n).

(** The axis scaled to unit length. *)
Definition normalize (n : t) : t := scale (/ sqrt (dot n n)) n.
End Vector2.

(** ** Photons and figures: the data *)

(** Python objects compare by identity ([Photon] and [Circle] define no
    [__eq__]); [pid] and the heap address stand for that identity. *)
Module PhotonData.
Record t := mk {
  pid : nat;
  coord : Point.t;
  angle : R;
  n_reflections : nat
}.
End PhotonData.

Inductive Class := Circle_cls | PhotonSource_cls.

#[global] Instance Class_eq_dec : EqDecision Class.
Proof. solve_decision. Defined.

(** An instance of [Circle] or of its subclass [PhotonSource].  [ticks]
    and [enabled] shadow the class defaults [0] and [True] on first
    assignment; [photons_attr] is the instance attribute [photons], unset
    until [generate_photons] binds it. *)
Record Fig := mkFig {
  cls : Class;
  mid : Point.t;
  radius : Z;
  activated_movement : bool;
  color : string;
  ticks : Z;
  enabled : bool;
  photons_attr : option nat
}.

(** Attribute assignments on a figure. *)
Definition set_mid (f : Fig) (m : Point.t) : Fig :=
  mkFig (cls f) m (radius f) (activated_movement f) (color f)
        (ticks f) (enabled f) (photons_attr f).

Definition set_radius (f : Fig) (r : Z) : Fig :=
  mkFig (cls f) (mid f) r (activated_movement f) (color f)
        (ticks f) (enabled f) (photons_attr f).

Definition set_activated_movement (f : Fig) (b : bool) : Fig :=
  mkFig (cls f) (mid f) (radius f) b (color f)
        (ticks f) (enabled f) (photons_attr f).

Definition set_ticks (f : Fig) (t : Z) : Fig :=
  mkFig (cls f) (mid f) (radius f) (activated_movement f) (color f)
        t (enabled f) (photons_attr f).

Definition set_enabled (f : Fig) (b : bool) : Fig :=
  mkFig (cls f) (mid f) (radius f) (activated_movement f) (color f)
        (ticks f) b (photons_attr f).

Definition set_photons_attr (f : Fig) (l : nat) : Fig :=
  mkFig (cls f) (mid f) (radius f) (activated_movement f) (color f)
        (ticks f) (enabled f) (Some l).

(** ** Input events *)

Definition K_r : Z := 114.
Definition K_c : Z := 99.
Definition K_ESCAPE : Z := 27.

Inductive Event :=
| MOUSEMOTION (pos : Point.t)
| MOUSEBUTTONDOWN (pos : Point.t) (button : Z)
| MOUSEBUTTONUP (pos : Point.t) (button : Z)
| MOUSEWHEEL (wheel_y : Z)
| KEYDOWN (key : Z)
| OTHER_EVENT.

(** ** The program state *)

(** [objects] is the object heap of figures, [lists] the heap of the list
    objects that hold photons; [mouse] is what [pygame.mouse.get_pos()]
    returns during the current frame. *)
Record State := mkState {
  config : Config;
  objects : gmap nat Fig;
  Figure_objects : list nat;
  Circle_objects : list nat;
  PhotonSource_objects : list nat;
  lists : gmap nat (list PhotonData.t);
  next_id : nat;
  rng : Rng;
  mouse : Point.t
}.

(** The list object created by the class body
    [photons: list[Photon] = []] of [PhotonSource]. *)
Definition PhotonSource_photons : nat := 0%nat.

Definition set_objects (s : State) (o : gmap nat Fig) : State :=
  mkState (config s) o (Figure_objects s) (Circle_objects s)
          (PhotonSource_objects s) (lists s) (next_id s) (rng s) (mouse s).

Definition set_lists (s : State) (l : gmap nat (list PhotonData.t)) : State :=
  mkState (config s) (objects s) (Figure_objects s) (Circle_objects s)
          (PhotonSource_objects s) l (next_id s) (rng s) (mouse s).

Definition set_rng (s : State) (g : Rng) : State :=
  mkState (config s) (objects s) (Figure_objects s) (Circle_objects s)
          (PhotonSource_objects s) (lists s) (next_id s) g (mouse s).

Definition set_next_id (s : State) (n : nat) : State :=
  mkState (config s) (objects s) (Figure_objects s) (Circle_objects s)
          (PhotonSource_objects s) (lists s) n (rng s) (mouse s).

(** [cls.__objects__] for the class of an instance. *)
Definition class_objects (s : State) (c : Class) : list nat :=
  match c with
  | Circle_cls => Circle_objects s
  | PhotonSource_cls => PhotonSource_objects s
  end.

Definition set_registries (s : State) (c : Class) (own all : list nat) : State :=
  match c with
  | Circle_cls =>
      mkState (config s) (objects s) all own (PhotonSource_objects s)
              (lists s) (next_id s) (rng s) (mouse s)
  | PhotonSource_cls =>
      mkState (config s) (objects s) all (Circle_objects s) own
              (lists s) (next_id s) (rng s) (mouse s)
  end.

(** The figures that [for fig in Figure.__objects__] visits. *)
Definition registry_figs (s : State) : list Fig :=
  omap (fun i => objects s !! i) (Figure_objects s).

(** [list.remove(x)] on a list of references: drops the first occurrence,
    [ValueError] when there is none. *)
Fixpoint list_remove (i : nat) (l : list nat) : option (list nat) :=
  match l with
  | [] => None
  | j :: l' => if decide (i = j) then Some l' else cons j <$> list_remove i l'
  end.

(** [list.remove(p)] on a list of photons, by identity. *)
Fixpoint photons_remove (i : nat) (l : list PhotonData.t) : option (list PhotonData.t) :=
  match l with
  | [] => None
  | q :: l' =>
      if decide (i = PhotonData.pid q) then Some l'
      else cons q <$> photons_remove i l'
  end.

(** ** Circle *)

Module Circle.
(** [Circle.collide]: [self.mid.distance(p) <= self.radius]. *)
Definition collide (f : Fig) (p : Point.t) : bool :=
  bool_decide (Point.distance (mid f) p <= IZR (radius f)).

Definition set_angle (p : PhotonData.t) (a : R) : PhotonData.t :=
  PhotonData.mk (PhotonData.pid p) (PhotonData.coord p) a
                (PhotonData.n_reflections p).

(** [Circle.compute_photon]: [None] is Python's [None] (the photon is
    absorbed), [Some p'] the photon with its new heading.  The [or]
    short-circuits: no draw is made inside the inner zone. *)
Definition compute_photon (c : Config) (f : Fig) (p : PhotonData.t) (g : Rng)
  : option PhotonData.t * Rng :=
  if bool_decide (Point.distance (mid f) (PhotonData.coord p) <= IZR (radius f - 1))
  then (None, g)
  else
    let '(u, g1) := random_random g in
    if bool_decide (u < ate_probability c) then (None, g1)
    else
      let r_vec := Vector2.mk (Point.x (PhotonData.coord p) - Point.x (mid f))
                              (Point.y (PhotonData.coord p) - Point.y (mid f)) in
      let p_vec := Vector2.mk (cos (PhotonData.angle p)) (sin (PhotonData.angle p)) in
      let reflection := Vector2.reflect p_vec r_vec in
      let '(j, g2) := axis c g1 in
      (Some (set_angle p (atan2 (Vector2.y reflection) (Vector2.x reflection) + j)), g2).

(** The heading that [compute_photon] assigns when it reflects, as a
    function of its inputs. *)
Definition reflected_heading (c : Config) (f : Fig) (p : PhotonData.t) (g : Rng) : R :=
  let r_vec := Vector2.mk (Point.x (PhotonData.coord p) - Point.x (mid f))
                          (Point.y (PhotonData.coord p) - Point.y (mid f)) in
  let p_vec := Vector2.mk (cos (PhotonData.angle p)) (sin (PhotonData.angle p)) in
  let reflection := Vector2.reflect p_vec r_vec in
  atan2 (Vector2.y reflection) (Vector2.x reflection)
  + fst (axis c (snd (random_random g))).

(** The first four [if]s of the loop body of [Circle.listen]: what one
    event does to the attributes of the circle.  An event has one type,
    so at most one of them fires. *)
Definition handle (mouse : Point.t) (f : Fig) (e : Event) : Fig :=
  match e with
  | MOUSEMOTION pos =>
      if activated_movement f then set_mid f pos else f
  | MOUSEBUTTONDOWN pos button =>
      if collide f pos && bool_decide (button = 1%Z)
      then set_activated_movement f true else f
  | MOUSEBUTTONUP pos button =>
      if activated_movement f && bool_decide (button = 1%Z)
      then set_activated_movement f false else f
  | MOUSEWHEEL wheel_y =>
      if collide f mouse
      then set_radius f (Z.max 5 (radius f + 5 * wheel_y)) else f
  | KEYDOWN _ | OTHER_EVENT => f
  end.

(** The guard of the fifth [if]: a press of R with the pointer on the
    circle. *)
Definition is_delete (mouse : Point.t) (f : Fig) (e : Event) : bool :=
  match e with
  | KEYDOWN key => bool_decide (key = K_r) && collide f mouse
  | _ => false
  end.

(** [Circle.listen] on the object at address [self]: for each event the
    first four [if]s, then the fifth, which removes the object from the
    registry of its class and from [Figure.__objects__] and returns. *)
Fixpoint listen (s : State) (self : nat) (events : list Event) : option State :=
  match events with
  | [] => Some s
  | e :: rest =>
      f ← objects s !! self;
      let f1 := handle (mouse s) f e in
      let s1 := set_objects s (<[self := f1]> (objects s)) in
      if is_delete (mouse s1) f1 e then
        own ← list_remove self (class_objects s1 (cls f1));
        all ← list_remove self (Figure_objects s1);
        Some (set_registries s1 (cls f1) own all)
      else listen s1 self rest
  end.
End Circle.

(** ** Photon *)

Module Photon.
Definition colors : list string :=
  ["white"; "purple"; "blue"; "aqua"; "green"; "yellow"; "orange"; "red"]%string.

(** [Photon.__init__]. *)
Definition init (i : nat) (coord : Point.t) (angle : R) : PhotonData.t :=
  PhotonData.mk i coord angle 0.

Definition set_coord (p : PhotonData.t) (c : Point.t) : PhotonData.t :=
  PhotonData.mk (PhotonData.pid p) c (PhotonData.angle p)
                (PhotonData.n_reflections p).

Definition incr_reflections (p : PhotonData.t) : PhotonData.t :=
  PhotonData.mk (PhotonData.pid p) (PhotonData.coord p) (PhotonData.angle p)
                (S (PhotonData.n_reflections p)).

(** What [blit] returns: [-1], or [None] after filling one pixel with
    the given colour. *)
Inductive result := Destroyed | Painted (pixel_color : string).

(** The bounds test [0 <= x <= d_w and 0 <= y <= d_h]. *)
Definition in_bounds (c : Config) (p : Point.t) : bool :=
  bool_decide (0 <= Point.x p) && bool_decide (Point.x p <= IZR (d_w c))
  && bool_decide (0 <= Point.y p) && bool_decide (Point.y p <= IZR (d_h c)).

(** The loop [for fig in Figure.__objects__] of [blit]; the boolean
    tells whether the loop left by [return -1]. *)
Fixpoint collisions (c : Config) (figs : list Fig) (p : PhotonData.t) (g : Rng)
  : bool * PhotonData.t * Rng :=
  match figs with
  | [] => (false, p, g)
  | fig :: rest =>
      if Circle.collide fig (PhotonData.coord p) then
        match Circle.compute_photon c fig p g with
        | (None, g1) => (true, p, g1)
        | (Some p1, g1) =>
            let p2 := incr_reflections p1 in
            if bool_decide (length colors <= PhotonData.n_reflections p2)%nat
            then (true, p2, g1)
            else collisions c rest p2 g1
        end
      else collisions c rest p g
  end.

(** [Photon.blit].  The outer [None] is the [IndexError] of
    [self.colors[self.n_reflections]]. *)
Definition blit (c : Config) (figs : list Fig) (p : PhotonData.t) (g : Rng)
  : option (result * PhotonData.t * Rng) :=
  let '(j1, g1) := axis c g in
  let '(j2, g2) := axis c g1 in
  let p1 := set_coord p
              (Point.mk (Point.x (PhotonData.coord p) + cos (PhotonData.angle p) + j1 / 2)
                        (Point.y (PhotonData.coord p) + sin (PhotonData.angle p) + j2 / 2)) in
  if negb (in_bounds c (PhotonData.coord p1)) then Some (Destroyed, p1, g2)
  else
    let '(dead, p2, g3) := collisions c figs p1 g2 in
    if dead then Some (Destroyed, p2, g3)
    else col ← colors !! PhotonData.n_reflections p2;
         Some (Painted col, p2, g3).
End Photon.

(** ** Creating figures: [Figure.__new__] and [Circle.__init__] *)

Definition new_figure (s : State) (c : Class) (m : Point.t) (r : Z) (col : string)
  : nat * State :=
  let i := next_id s in
  let f := mkFig c m r false col 0 true None in
  let s1 := set_objects s (<[i := f]> (objects s)) in
  let s2 := set_registries s1 c (class_objects s1 c ++ [i]) (Figure_objects s1 ++ [i]) in
  (i, set_next_id s2 (S i)).


(** ** PhotonSource *)

Module PhotonSource.
(** The attribute lookup [self.photons]: the instance attribute when it
    is bound, the class attribute otherwise. *)
Definition photons_ref (f : Fig) : nat :=
  default PhotonSource_photons (photons_attr f).

(** The photons that [self.photons] shows for the object at [self]. *)
Definition photons (s : State) (self : nat) : option (list PhotonData.t) :=
  f ← objects s !! self; lists s !! photons_ref f.

(** The list comprehension of [generate_photons]: one photon per angle
    of the range, each with one draw of [axis()]. *)
Fixpoint spawn (c : Config) (f : Fig) (degrees : list Z) (next : nat) (g : Rng)
  : list PhotonData.t * nat * Rng :=
  match degrees with
  | [] => ([], next, g)
  | d :: rest =>
      let '(j, g1) := axis c g in
      let a := PI * IZR d / 180 + j in
      let p := Photon.init next
                 (Point.mk (Point.x (mid f) + IZR (radius f + 1) * cos a)
                           (Point.y (mid f) + IZR (radius f + 1) * sin a + 1))
                 a in
      let '(ps, next', g') := spawn c f rest (S next) g1 in
      (p :: ps, next', g')
  end.

(** [PhotonSource.generate_photons]: [self.photons += [...]] extends the
    list object in place and binds the instance attribute to it. *)
Definition generate_photons (s : State) (self : nat) : option State :=
  f ← objects s !! self;
  old ← lists s !! photons_ref f;
  degrees ← py_range 0 360 (rays_step (config s));
  let '(ps, next, g) := spawn (config s) f degrees (next_id s) (rng s) in
  let s1 := set_rng (set_next_id s next) g in
  let s2 := set_lists s1 (<[photons_ref f := old ++ ps]> (lists s1)) in
  Some (set_objects s2 (<[self := set_photons_attr f (photons_ref f)]> (objects s2))).

(** The loop of [move_photons]: the list iterator reads index [i] of the
    list as it is now, and the body may remove from that list. *)
Fixpoint move_loop (fuel : nat) (s : State) (l : nat) (i : nat) : option State :=
  match fuel with
  | O => Some s
  | S fuel' =>
      ps ← lists s !! l;
      match ps !! i with
      | None => Some s
      | Some p =>
          '(r, p', g) ← Photon.blit (config s) (registry_figs s) p (rng s);
          ps' ← match r with
                | Photon.Destroyed => photons_remove (PhotonData.pid p') ps
                | Photon.Painted _ => Some (<[i := p']> ps)
                end;
          move_loop fuel' (set_lists (set_rng s g) (<[l := ps']> (lists s))) l (S i)
      end
  end.

(** [PhotonSource.move_photons].  The list never grows in the loop, so
    its length at entry bounds the number of iterations. *)
Definition move_photons (s : State) (self : nat) : option State :=
  f ← objects s !! self;
  ps ← lists s !! photons_ref f;
  move_loop (length ps) s (photons_ref f) 0.

(** The first five lines of [emit]: the tick counter and the spawn. *)
Definition emit_spawn (s : State) (self : nat) : option State :=
  f ← objects s !! self;
  guard (cls f = PhotonSource_cls);;
  let f1 := set_ticks f (ticks f + 1) in
  let s1 := set_objects s (<[self := f1]> (objects s)) in
  m ← py_mod (ticks f1) (frequency (config s1));
  if decide (m = 0%Z) then
    s2 ← (if enabled f1 then generate_photons s1 self else Some s1);
    f2 ← objects s2 !! self;
    Some (set_objects s2 (<[self := set_ticks f2 0]> (objects s2)))
  else Some s1.

(** [PhotonSource.emit]. *)
Definition emit (s : State) (self : nat) : option State :=
  s1 ← emit_spawn s self; move_photons s1 self.

(** The loop of [PhotonSource.listen]; the boolean tells whether it left
    by [return] on a press of R. *)
Fixpoint listen_loop (s : State) (self : nat) (events : list Event)
  : option (bool * State) :=
  match events with
  | [] => Some (false, s)
  | e :: rest =>
      f ← objects s !! self;
      match e with
      | MOUSEBUTTONDOWN pos button =>
          if bool_decide (button = 3%Z) && Circle.collide f pos then
            listen_loop
              (set_objects s (<[self := set_enabled f (negb (enabled f))]> (objects s)))
              self rest
          else listen_loop s self rest
      | KEYDOWN key =>
          s1 ← (if bool_decide (key = K_c) then
                  _ ← lists s !! photons_ref f;
                  Some (set_lists s (<[photons_ref f := []]> (lists s)))
                else Some s);
          if bool_decide (key = K_r) then Some (true, s1)
          else listen_loop s1 self rest
      | _ => listen_loop s self rest
      end
  end.

(** [PhotonSource.listen]: [super().listen(events)] runs only when the
    loop ends without [return]. *)
Definition listen (s : State) (self : nat) (events : list Event) : option State :=
  '(returned, s1) ← listen_loop s self events;
  if returned : bool then Some s1 else Circle.listen s1 self events.
End PhotonSource.

(** [obj.listen(event_list)] by the class of the object. *)
Definition listen (s : State) (self : nat) (events : list Event) : option State :=
  f ← objects s !! self;
  match cls f with
  | Circle_cls => Circle.listen s self events
  | PhotonSource_cls => PhotonSource.listen s self events
  end.

(** The state after the class bodies have run: no figure yet, and the one
    list object of [PhotonSource.photons], empty. *)
Definition initial_state (c : Config) (g : Rng) (m : Point.t) : State :=
  mkState c ∅ [] [] [] {[PhotonSource_photons := []]} 0 g m.

(** ** Concrete scenes

    The inputs at which the properties below are exercised. *)

Definition origin : Point.t := Point.mk 0 0.

(** A random source whose every draw is [u]. *)
Definition constant_rng (u : R) : Rng := mkRng (fun _ => u) 0.

(** The settings with no jitter and no absorption on an 800 x 600
    canvas, spawning every [period] ticks with an angular step of [step]. *)
Definition quiet_config (period step : Z) : Config :=
  mkConfig 0 0 period step 1 800 600.

Definition circle_at (m : Point.t) (r : Z) : Fig :=
  mkFig Circle_cls m r false "dimgray" 0 true None.

Definition photon_at (i : nat) (m : Point.t) (a : R) (n : nat) : PhotonData.t :=
  PhotonData.mk i m a n.

(** Two circles of radius 5 whose rims overlap around [(9/2, 0)], and a
    photon that flies to the right into the overlap. *)
Definition left_circle : Fig := circle_at origin 5.
Definition right_circle : Fig := circle_at (Point.mk 9 0) 5.
Definition bouncer : PhotonData.t := photon_at 0 (Point.mk (7 / 2) 0) 0 0.

(** ** Vocabulary of the properties *)

(** The three registries hold the same references in the same order. *)
Definition same_registries (s s' : State) : Prop :=
  Figure_objects s' = Figure_objects s /\
  Circle_objects s' = Circle_objects s /\
  PhotonSource_objects s' = PhotonSource_objects s.

(** The attributes that the inherited [Circle.listen] may assign. *)
Definition same_shape (f f' : Fig) : Prop :=
  cls f' = cls f /\ mid f' = mid f /\ radius f' = radius f /\
  activated_movement f' = activated_movement f /\
  photons_attr f' = photons_attr f.

(** [l'] is [l] with one occurrence of [i], the first, taken out. *)
Definition removed_from (i : nat) (l l' : list nat) : Prop :=
  exists pre post, l = pre ++ i :: post /\ l' = pre ++ post /\ i ∉ pre.

(** The guard of the first [if] of [PhotonSource.listen]: a press of the
    right button on the source. *)
Definition is_toggle (f : Fig) (e : Event) : bool :=
  match e with
  | MOUSEBUTTONDOWN pos button => bool_decide (button = 3%Z) && Circle.collide f pos
  | _ => false
  end.

(** The guard of the second [if]: a press of C. *)
Definition is_clear (e : Event) : bool :=
  match e with
  | KEYDOWN key => bool_decide (key = K_c)
  | _ => false
  end.

(** A scene with the photon source of the program, a circle of radius 10
    at [(100, 100)], and the pointer resting on that circle. *)
Definition yard : State :=
  let s0 := initial_state (quiet_config 20 2) (constant_rng (1 / 2)) (Point.mk 100 100) in
  let s1 := snd (new_figure s0 PhotonSource_cls (Point.mk 400 300) 5 "lightyellow") in
  snd (new_figure s1 Circle_cls (Point.mk 100 100) 10 "dimgray").

Definition yard_source : Fig :=
  mkFig PhotonSource_cls (Point.mk 400 300) 5 false "lightyellow" 0 true None.

Definition yard_circle : Fig :=
  mkFig Circle_cls (Point.mk 100 100) 10 false "dimgray" 0 true None.


(** A bench: an 800 x 600 canvas without jitter or absorption and with a
    spawn period of 1 tick, holding one photon source of radius 5. *)
Definition bench (m : Point.t) (step : Z) : State :=
  snd (new_figure (initial_state (quiet_config 1 step) (constant_rng (1 / 2)) origin)
                  PhotonSource_cls m 5 "lightyellow").

Definition source_at (m : Point.t) (attr : option nat) : Fig :=
  mkFig PhotonSource_cls m 5 false "lightyellow" 0 true attr.

(** The bench once its source has bound [self.photons]: the photon list
    holds [ps], [next] is the next free identity and [used] draws have
    been consumed. *)
Definition bench_with (m : Point.t) (step : Z) (ps : list PhotonData.t)
    (next used : nat) : State :=
  mkState (quiet_config 1 step) (<[0%nat := source_at m (Some 0%nat)]> ∅)
          [0%nat] [] [0%nat] (<[PhotonSource_photons := ps]> ∅) next
          (mkRng (fun _ => 1 / 2) used) origin.

(** The scenario of the specification: one photon source at [(400, 300)]
    and an angular step of 90 degrees. *)
Definition lab : State := bench (Point.mk 400 300) 90.

(** A source close to the right edge of the canvas, with an angular step
    of 180 degrees. *)
Definition edge : State := bench (Point.mk 795 300) 180.

(** The photon that [generate_photons] creates for the angle of [d]
    degrees when there is no jitter. *)
Definition spawned (m : Point.t) (r : Z) (i : nat) (d : Z) : PhotonData.t :=
  Photon.init i
    (Point.mk (Point.x m + IZR (r + 1) * cos (PI * IZR d / 180))
              (Point.y m + IZR (r + 1) * sin (PI * IZR d / 180) + 1))
    (PI * IZR d / 180).

(** The four photons of the scenario as [generate_photons] places them,
    and as they are after the advance of the same tick. *)
Definition lab_ring : list PhotonData.t :=
  [photon_at 1 (Point.mk 406 301) 0 0;
   photon_at 2 (Point.mk 400 307) (PI / 2) 0;
   photon_at 3 (Point.mk 394 301) PI 0;
   photon_at 4 (Point.mk 400 295) (3 * (PI / 2)) 0].

Definition lab_ring_moved : list PhotonData.t :=
  [photon_at 1 (Point.mk 407 301) 0 0;
   photon_at 2 (Point.mk 400 308) (PI / 2) 0;
   photon_at 3 (Point.mk 393 301) PI 0;
   photon_at 4 (Point.mk 400 294) (3 * (PI / 2)) 0].

(** Two photon sources on one canvas, created one after the other. *)
Definition twin : State :=
  let s0 := initial_state (quiet_config 1 90) (constant_rng (1 / 2)) origin in
  let s1 := snd (new_figure s0 PhotonSource_cls (Point.mk 200 300) 5 "lightyellow") in
  snd (new_figure s1 PhotonSource_cls (Point.mk 600 300) 5 "lightyellow").

(** The amended reading of C3, in its own words: the interactions of the
    obstacles of [hits] are applied to the photon one after the other, in
    the order of the list, each to the photon as the one before left it,
    for as long as the photon is not destroyed (absorbed, or out of
    reflections).  The boolean tells whether the photon was destroyed. *)
Fixpoint interactions (c : Config) (hits : list Fig) (p : PhotonData.t) (g : Rng)
  : bool * PhotonData.t * Rng :=
  match hits with
  | [] => (false, p, g)
  | fig :: rest =>
      match Circle.compute_photon c fig p g with
      | (None, g1) => (true, p, g1)
      | (Some p1, g1) =>
          let p2 := Photon.incr_reflections p1 in
          if bool_decide (length Photon.colors <= PhotonData.n_reflections p2)%nat
          then (true, p2, g1)
          else interactions c rest p2 g1
      end
  end.

(** ** The frame loop *)

(** A [for obj in registry: body(obj)] loop whose body may remove from
    the registry it iterates: the list iterator reads index [i] of the
    registry as it is now. *)
Fixpoint for_each (fuel : nat) (registry : State -> list nat)
    (body : State -> nat -> option State) (s : State) (i : nat) : option State :=
  match fuel with
  | O => Some s
  | S fuel' =>
      match registry s !! i with
      | None => Some s
      | Some obj => s1 ← body s obj; for_each fuel' registry body s1 (S i)
      end
  end.

(** [for obj in Figure.__objects__: obj.listen(event_list)].  No [listen]
    adds to the registry, so its length at entry bounds the iterations. *)
Definition listen_all (s : State) (events : list Event) : option State :=
  for_each (length (Figure_objects s)) Figure_objects
           (fun s1 obj => listen s1 obj events) s 0.

(** [for obj in PhotonSource.__objects__: obj.emit()]. *)
Definition emit_all (s : State) : option State :=
  for_each (length (PhotonSource_objects s)) PhotonSource_objects
           PhotonSource.emit s 0.

(** One pass of the body of [while running], without the drawing. *)
Definition frame (s : State) (events : list Event) : option State :=
  s1 ← listen_all s events; emit_all s1.

(** ** Vocabulary of the further properties *)

(** The photons of a list are distinct objects with a reflection count
    below the number of colours, created before [next]. *)
Definition photons_ok (next : nat) (ps : list PhotonData.t) : Prop :=
  NoDup (PhotonData.pid <$> ps) /\
  Forall (fun p => (PhotonData.pid p < next)%nat /\
                   (PhotonData.n_reflections p < length Photon.colors)%nat) ps.

(** What [move_photons] comes to on a list of distinct photons: the
    photons are advanced in order, and the photon that follows a
    destroyed one is kept as it is, without being advanced. *)
Fixpoint sweep (c : Config) (figs : list Fig) (ps : list PhotonData.t) (g : Rng)
  : option (list PhotonData.t * Rng) :=
  match ps with
  | [] => Some ([], g)
  | p :: rest =>
      '(r, p', g1) ← Photon.blit c figs p g;
      match r with
      | Photon.Painted _ =>
          '(out, g2) ← sweep c figs rest g1; Some (p' :: out, g2)
      | Photon.Destroyed =>
          match rest with
          | [] => Some ([], g1)
          | q :: rest' => '(out, g2) ← sweep c figs rest' g1; Some (q :: out, g2)
          end
      end
  end.

(** The registries name distinct live objects of the right class, every
    registered object is in [Figure.__objects__] and in the registry of
    its class only, identities are below the counter, and [self.photons]
    names the list object of the class for every figure. *)
Definition registry_ok (s : State) : Prop :=
  NoDup (Figure_objects s) /\
  NoDup (Circle_objects s) /\
  NoDup (PhotonSource_objects s) /\
  (forall i, i ∈ Figure_objects s <->
             i ∈ Circle_objects s \/ i ∈ PhotonSource_objects s) /\
  (forall i, i ∈ Circle_objects s ->
             exists f, objects s !! i = Some f /\ cls f = Circle_cls) /\
  (forall i, i ∈ PhotonSource_objects s ->
             exists f, objects s !! i = Some f /\ cls f = PhotonSource_cls) /\
  (forall i f, objects s !! i = Some f -> (i < next_id s)%nat) /\
  (forall i f, objects s !! i = Some f ->
               PhotonSource.photons_ref f = PhotonSource_photons) /\
  is_Some (lists s !! PhotonSource_photons).

(** Settings under which every collision absorbs: absorption probability
    1, jitter [1/5]. *)
Definition opaque_config : Config := mkConfig (1 / 5) 1 20 2 1 800 600.

(** What a figure keeps through [listen]: its class, its counter, its
    switch, its photon list and its colour. *)
Definition same_core (f f' : Fig) : Prop :=
  cls f' = cls f /\ ticks f' = ticks f /\ enabled f' = enabled f /\
  photons_attr f' = photons_attr f /\ color f' = color f /\
  (5 <= radius f -> 5 <= radius f')%Z.

(** Apart from the object [self] and the registries, nothing of the state
    differs. *)
Definition same_outside (self : nat) (s s' : State) : Prop :=
  (forall j, j <> self -> objects s' !! j = objects s !! j) /\
  config s' = config s /\ rng s' = rng s /\ next_id s' = next_id s /\
  mouse s' = mouse s.

(** Either the registries are as before, or [self] has been taken out of
    [Figure.__objects__] and of the registry of its class [c], the other
    class registry staying as it is. *)
Definition registries_step (self : nat) (c : Class) (s s' : State) : Prop :=
  same_registries s s' \/
  (removed_from self (Figure_objects s) (Figure_objects s') /\
   removed_from self (class_objects s c) (class_objects s' c) /\
   forall c', c' <> c -> class_objects s' c' = class_objects s c').

(** The events on which neither guard of the loop of
    [PhotonSource.listen] can fire: no press of the right button and no
    key. *)
Definition source_ignores (e : Event) : bool :=
  match e with
  | MOUSEBUTTONDOWN _ button => negb (bool_decide (button = 3%Z))
  | KEYDOWN _ => false
  | _ => true
  end.

(** A drag gesture: the left button goes down at [p], the pointer moves
    through [qs], the left button goes up at [p']. *)
Definition drag_gesture (p : Point.t) (qs : list Point.t) (p' : Point.t) : list Event :=
  MOUSEBUTTONDOWN p 1 :: (MOUSEMOTION <$> qs) ++ [MOUSEBUTTONUP p' 1].

(** Every list of photons on the heap is in order. *)
Definition photon_lists_ok (s : State) : Prop :=
  forall l ps, lists s !! l = Some ps -> photons_ok (next_id s) ps.

(** The source at the edge after its first spawn. *)
Definition edge_photons : list PhotonData.t :=
  [photon_at 1 (Point.mk 801 301) 0 0; photon_at 2 (Point.mk 789 301) PI 0].

Definition edge_spawned : State :=
  bench_with (Point.mk 795 300) 180 edge_photons 3 2.

(** Where [generate_photons] puts the photon of the angle of [d] degrees:
    the heading is within the jitter of the angle, the count is 0 and the
    position is on the ring of radius [radius + 1] around the point one
    unit below the centre. *)
Definition spawned_for (c : Config) (f : Fig) (d : Z) (p : PhotonData.t) : Prop :=
  PhotonData.n_reflections p = 0%nat /\
  Rabs (PhotonData.angle p - PI * IZR d / 180) <= Rabs (axis_value c) /\
  PhotonData.coord p =
    Point.mk (Point.x (mid f) + IZR (radius f + 1) * cos (PhotonData.angle p))
             (Point.y (mid f) + IZR (radius f + 1) * sin (PhotonData.angle p) + 1).

(** Floats are idealised as reals, which covers the code only while its
    float computations stay finite and its drawing calls can be made.
    [random.uniform(-a, a)] computes [a - -a], which overflows to
    infinity from [|a| = 2^1023] on; the jitter is then infinite and
    [math.cos] raises [ValueError] on the heading.  Below that bound
    every jitter is finite.  The side [p_size] of the pixel is kept in
    the range of a C [int], as the [Rect] of the drawing takes it. *)
Definition settings_in_range (c : Config) : Prop :=
  Rabs (axis_value c) < IZR (2 ^ 1023) /\ (Z.abs (p_size c) < 2 ^ 31)%Z.

(** Every figure has a radius of at least 5, as the creation calls of the
    program give it and [listen] keeps it: a photon at the very centre of
    a figure is then absorbed before [reflect] could be asked to reflect
    about a zero vector. *)
Definition well_sized (s : State) : Prop :=
  forall i f, objects s !! i = Some f -> (5 <= radius f)%Z.

(** What every frame finds and leaves: registries and photon lists in
    order, figures of radius 5 at least, draws in [[0, 1)], a spawn
    period and an angular step with which neither the [%] of [emit] nor
    the [range] of [generate_photons] raises, and settings in range. *)
Definition frame_ok (s : State) : Prop :=
  registry_ok s /\ photon_lists_ok s /\ unit_draws (rng s) /\
  frequency (config s) <> 0%Z /\ rays_step (config s) <> 0%Z /\
  settings_in_range (config s) /\ well_sized s.

(** A canvas with the photon source of the program and the given spawn
    period and angular step. *)
Definition workshop (period step : Z) : State :=
  snd (new_figure (initial_state (quiet_config period step) (constant_rng (1 / 2)) origin)
                  PhotonSource_cls (Point.mk 400 300) 5 "lightyellow").

(** The yard with a second circle of radius 10, at [(104, 100)], created
    last: the pointer rests on both circles. *)
Definition crowd : State :=
  snd (new_figure yard Circle_cls (Point.mk 104 100) 10 "dimgray").

Definition crowd_circle : Fig :=
  mkFig Circle_cls (Point.mk 104 100) 10 false "dimgray" 0 true None.

(** ** Vocabulary of the spawn cadence *)





(** ** Arithmetic of distances *)

Lemma sqr_nonneg a : 0 <= sqr a.
Proof. unfold sqr. nra. Qed.

Lemma distance_nonneg a b : 0 <= Point.distance a b.
Proof. apply sqrt_pos. Qed.

Lemma distance_le_iff a b r :
  0 <= r ->
  Point.distance a b <= r <->
  sqr (Point.x a - Point.x b) + sqr (Point.y a - Point.y b) <= r * r.
Proof.
  intros Hr. unfold Point.distance.
  set (q := sqr (Point.x a - Point.x b) + sqr (Point.y a - Point.y b)).
  assert (Hq : 0 <= q).
  { unfold q. pose proof (sqr_nonneg (Point.x a - Point.x b)).
    pose proof (sqr_nonneg (Point.y a - Point.y b)). lra. }
  split; intros H.
  - rewrite <- (sqrt_sqrt q Hq). pose proof (sqrt_pos q). nra.
  - rewrite <- (sqrt_square r Hr). apply sqrt_le_1; nra.
Qed.



(** ** The photon interaction of a circle *)



Lemma compute_photon_inner c f p g :
  Point.distance (mid f) (PhotonData.coord p) <= IZR (radius f - 1) ->
  Circle.compute_photon c f p g = (None, g).
Proof.
  intros H. unfold Circle.compute_photon. by rewrite bool_decide_eq_true_2.
Qed.

Lemma compute_photon_draw c f p g :
  ~ Point.distance (mid f) (PhotonData.coord p) <= IZR (radius f - 1) ->
  draws g (cursor g) < ate_probability c ->
  Circle.compute_photon c f p g = (None, snd (random_random g)).
Proof.
  intros H Hu. unfold Circle.compute_photon.
  rewrite bool_decide_eq_false_2 by done. cbn.
  by rewrite bool_decide_eq_true_2.
Qed.

Lemma compute_photon_reflect c f p g :
  ~ Point.distance (mid f) (PhotonData.coord p) <= IZR (radius f - 1) ->
  ~ draws g (cursor g) < ate_probability c ->
  Circle.compute_photon c f p g =
    (Some (Circle.set_angle p (Circle.reflected_heading c f p g)),
     snd (axis c (snd (random_random g)))).
Proof.
  intros H Hu. unfold Circle.compute_photon.
  rewrite bool_decide_eq_false_2 by done. cbn.
  by rewrite bool_decide_eq_false_2.
Qed.




(** ** The reflection *)

Lemma dot_self_pos n : Vector2.dot n n <> 0 -> 0 < Vector2.dot n n.
Proof. unfold Vector2.dot. intros H. nra. Qed.

Lemma reflect_scale v n k :
  k <> 0 -> Vector2.dot n n <> 0 ->
  Vector2.reflect v (Vector2.scale k n) = Vector2.reflect v n.
Proof.
  intros Hk Hn. unfold Vector2.reflect, Vector2.scale, Vector2.dot in *.
  cbn [Vector2.x Vector2.y].
  assert (Hs : k * Vector2.x n * (k * Vector2.x n)
               + k * Vector2.y n * (k * Vector2.y n) <> 0).
  { replace (k * Vector2.x n * (k * Vector2.x n) + k * Vector2.y n * (k * Vector2.y n))
      with (k * k * (Vector2.x n * Vector2.x n + Vector2.y n * Vector2.y n)) by ring.
    repeat apply Rmult_integral_contrapositive_currified; assumption. }
  f_equal; field; split; assumption.
Qed.

Lemma reflect_normalize v n :
  Vector2.dot n n <> 0 ->
  Vector2.reflect v (Vector2.normalize n) = Vector2.reflect v n.
Proof.
  intros Hn. unfold Vector2.normalize. apply reflect_scale; [|done].
  apply Rinv_neq_0_compat. apply Rgt_not_eq, sqrt_lt_R0, dot_self_pos, Hn.
Qed.

(** C7, counterexample to the property as stated: there is no heading vector and
    no non-zero axis for which reflecting about the raw axis differs from
    reflecting about the axis scaled to unit length. *)
Lemma reflect_raw_axis_never_differs :
  ~ exists v n : Vector2.t,
      Vector2.dot n n <> 0 /\
      Vector2.reflect v n <> Vector2.reflect v (Vector2.normalize n).
Proof.
  intros (v & n & Hn & Hdiff). apply Hdiff. symmetry. by apply reflect_normalize.
Qed.

(** C7, as amended: on a surviving collision the new heading is [atan2] of
    [v - 2(v.n)n/|n|^2] plus jitter, for [v] the unit heading vector and
    [n] the raw vector from the centre to the photon; that reflection is
    unchanged when [n] is scaled by any non-zero factor, so it equals the
    reflection about the normalized axis, and the heading assigned does not
    depend on the radius of the obstacle. *)
Theorem reflection_about_raw_axis (c : Config) (f : Fig) (p : PhotonData.t) (g : Rng)
    (k : R) :
  let n := Vector2.mk (Point.x (PhotonData.coord p) - Point.x (mid f))
                      (Point.y (PhotonData.coord p) - Point.y (mid f)) in
  let v := Vector2.mk (cos (PhotonData.angle p)) (sin (PhotonData.angle p)) in
  k <> 0 -> Vector2.dot n n <> 0 ->
  (forall p', fst (Circle.compute_photon c f p g) = Some p' ->
     PhotonData.angle p' =
       atan2 (Vector2.y v - 2 * Vector2.dot v n * Vector2.y n / Vector2.dot n n)
             (Vector2.x v - 2 * Vector2.dot v n * Vector2.x n / Vector2.dot n n)
       + fst (axis c (snd (random_random g)))) /\
  Vector2.reflect v (Vector2.scale k n) = Vector2.reflect v n /\
  Vector2.reflect v (Vector2.normalize n) = Vector2.reflect v n /\
  (forall r, Circle.reflected_heading c (set_radius f r) p g =
             Circle.reflected_heading c f p g).
Proof.
  intros n v Hk Hn. repeat split.
  - intros p' Hp'.
    destruct (decide (Point.distance (mid f) (PhotonData.coord p) <= IZR (radius f - 1)))
      as [Hd|Hd].
    { rewrite compute_photon_inner in Hp' by done. discriminate. }
    destruct (decide (draws g (cursor g) < ate_probability c)) as [Hu|Hu].
    { rewrite compute_photon_draw in Hp' by done. discriminate. }
    rewrite compute_photon_reflect in Hp' by done.
    cbn in Hp'. injection Hp' as <-. reflexivity.
  - by apply reflect_scale.
  - by apply reflect_normalize.
Qed.

Lemma reflection_about_raw_axis_witness :
  Vector2.reflect (Vector2.mk (cos 0) (sin 0))
                  (Vector2.scale 2 (Vector2.mk (9 / 2 - 0) (0 - 0))) =
  Vector2.reflect (Vector2.mk (cos 0) (sin 0)) (Vector2.mk (9 / 2 - 0) (0 - 0)).
Proof.
  assert (H2 : (2 : R) <> 0) by lra.
  assert (Hn : Vector2.dot (Vector2.mk (9 / 2 - 0) (0 - 0))
                           (Vector2.mk (9 / 2 - 0) (0 - 0)) <> 0).
  { unfold Vector2.dot. cbn [Vector2.x Vector2.y]. lra. }
  exact (proj1 (proj2 (reflection_about_raw_axis (quiet_config 20 2)
                         (circle_at origin 5)
                         (photon_at 0 (Point.mk (9 / 2) 0) 0 0)
                         (constant_rng (1 / 2)) 2 H2 Hn))).
Defined.

(** ** One advance of a photon *)


(** [compute_photon] changes nothing of a photon but its heading. *)
Lemma compute_photon_frame c f p g p1 g1 :
  Circle.compute_photon c f p g = (Some p1, g1) ->
  PhotonData.pid p1 = PhotonData.pid p /\
  PhotonData.coord p1 = PhotonData.coord p /\
  PhotonData.n_reflections p1 = PhotonData.n_reflections p.
Proof.
  destruct (decide (Point.distance (mid f) (PhotonData.coord p) <= IZR (radius f - 1)))
    as [Hd|Hd].
  { rewrite compute_photon_inner by done. discriminate. }
  destruct (decide (draws g (cursor g) < ate_probability c)) as [Hu|Hu].
  { rewrite compute_photon_draw by done. discriminate. }
  rewrite compute_photon_reflect by done. intros [= <- _]. done.
Qed.

Lemma collisions_miss c fig rest p g :
  Circle.collide fig (PhotonData.coord p) = false ->
  Photon.collisions c (fig :: rest) p g = Photon.collisions c rest p g.
Proof. intros H. cbn [Photon.collisions]. by rewrite H. Qed.

Lemma collisions_absorb c fig rest p g g1 :
  Circle.collide fig (PhotonData.coord p) = true ->
  Circle.compute_photon c fig p g = (None, g1) ->
  Photon.collisions c (fig :: rest) p g = (true, p, g1).
Proof. intros H1 H2. cbn [Photon.collisions]. by rewrite H1, H2. Qed.

Lemma collisions_reflect c fig rest p g p1 g1 :
  Circle.collide fig (PhotonData.coord p) = true ->
  Circle.compute_photon c fig p g = (Some p1, g1) ->
  (S (PhotonData.n_reflections p) < length Photon.colors)%nat ->
  Photon.collisions c (fig :: rest) p g =
    Photon.collisions c rest (Photon.incr_reflections p1) g1.
Proof.
  intros H1 H2 Hn. cbn [Photon.collisions]. rewrite H1, H2.
  destruct (compute_photon_frame _ _ _ _ _ _ H2) as (_ & _ & Hc).
  rewrite bool_decide_eq_false_2; [done|].
  cbn [Photon.incr_reflections PhotonData.n_reflections]. rewrite Hc. lia.
Qed.

Lemma collisions_exhaust c fig rest p g p1 g1 :
  Circle.collide fig (PhotonData.coord p) = true ->
  Circle.compute_photon c fig p g = (Some p1, g1) ->
  (length Photon.colors <= S (PhotonData.n_reflections p))%nat ->
  Photon.collisions c (fig :: rest) p g = (true, Photon.incr_reflections p1, g1).
Proof.
  intros H1 H2 Hn. cbn [Photon.collisions]. rewrite H1, H2.
  destruct (compute_photon_frame _ _ _ _ _ _ H2) as (_ & _ & Hc).
  rewrite bool_decide_eq_true_2; [done|].
  cbn [Photon.incr_reflections PhotonData.n_reflections]. rewrite Hc. lia.
Qed.

(** The collision loop keeps the identity and the position of the photon,
    never lowers the reflection count, and leaves a photon that it does
    not destroy with a count below the number of colours. *)
Lemma collisions_invariant c figs : forall p g dead p' g',
  Photon.collisions c figs p g = (dead, p', g') ->
  PhotonData.pid p' = PhotonData.pid p /\
  PhotonData.coord p' = PhotonData.coord p /\
  (PhotonData.n_reflections p <= PhotonData.n_reflections p')%nat /\
  (PhotonData.n_reflections p' <= PhotonData.n_reflections p + length figs)%nat /\
  ((PhotonData.n_reflections p < length Photon.colors)%nat -> dead = false ->
   (PhotonData.n_reflections p' < length Photon.colors)%nat) /\
  ((PhotonData.n_reflections p < length Photon.colors)%nat ->
   (length Photon.colors <= PhotonData.n_reflections p')%nat -> dead = true).
Proof.
  induction figs as [|fig rest IH]; intros p g dead p' g' H.
  - cbn in H. injection H as <- <- <-.
    repeat split; intros; first [lia | done].
  - cbn [Photon.collisions] in H.
    destruct (Circle.collide fig (PhotonData.coord p)) eqn:Hc.
    + destruct (Circle.compute_photon c fig p g) as [[p1|] g1] eqn:Hcp.
      * destruct (compute_photon_frame _ _ _ _ _ _ Hcp) as (Hi & Hco & Hn).
        cbn [Photon.incr_reflections PhotonData.n_reflections] in H.
        case_bool_decide as Hlen.
        -- injection H as <- <- <-. cbn. rewrite Hi, Hco, Hn.
           repeat split; intros; first [lia | done].
        -- apply IH in H. cbn in H. rewrite Hi, Hco, Hn in H.
           destruct H as (? & ? & ? & ? & H5 & H6).
           cbn [length]. cbn in Hlen.
           repeat split; intros; first [lia | done | apply H5; [lia|done]
                                        | apply H6; [lia|done] ].
      * injection H as <- <- <-. cbn [length].
        repeat split; intros; first [lia | done].
    + apply IH in H. destruct H as (? & ? & ? & ? & H5 & H6).
      cbn [length].
      repeat split; intros; first [lia | done | by apply H5 | by apply H6].
Qed.

(** [blit] with the two draws of the move made explicit. *)
Lemma blit_unfold c figs p g :
  Photon.blit c figs p g =
    let j1 := fst (axis c g) in
    let j2 := fst (axis c (snd (axis c g))) in
    let g2 := snd (axis c (snd (axis c g))) in
    let p1 := Photon.set_coord p
                (Point.mk (Point.x (PhotonData.coord p) + cos (PhotonData.angle p) + j1 / 2)
                          (Point.y (PhotonData.coord p) + sin (PhotonData.angle p) + j2 / 2)) in
    if negb (Photon.in_bounds c (PhotonData.coord p1)) then Some (Photon.Destroyed, p1, g2)
    else
      let '(dead, p2, g3) := Photon.collisions c figs p1 g2 in
      if dead then Some (Photon.Destroyed, p2, g3)
      else col ← Photon.colors !! PhotonData.n_reflections p2;
           Some (Photon.Painted col, p2, g3).
Proof. reflexivity. Qed.

(** What one advance does to the reflection count of a photon whose
    count is below the number of colours. *)
Lemma blit_outcome c figs p g :
  (PhotonData.n_reflections p < length Photon.colors)%nat ->
  exists r p' g',
    Photon.blit c figs p g = Some (r, p', g') /\
    PhotonData.pid p' = PhotonData.pid p /\
    (PhotonData.n_reflections p <= PhotonData.n_reflections p')%nat /\
    ((7 < PhotonData.n_reflections p')%nat -> r = Photon.Destroyed) /\
    (forall col, r = Photon.Painted col ->
       (PhotonData.n_reflections p' <= 7)%nat /\
       Photon.colors !! PhotonData.n_reflections p' = Some col).
Proof.
  intros Hn. rewrite blit_unfold. cbn zeta.
  set (p1 := Photon.set_coord p _). set (g2 := snd (axis c (snd (axis c g)))).
  destruct (negb (Photon.in_bounds c (PhotonData.coord p1))).
  { exists Photon.Destroyed, p1, g2. split; [done|]. split; [done|]. split; [done|].
    split; [done|]. intros col [=]. }
  destruct (Photon.collisions c figs p1 g2) as [[dead p2] g3] eqn:Hcol.
  apply collisions_invariant in Hcol.
  change (PhotonData.n_reflections p1) with (PhotonData.n_reflections p) in Hcol.
  change (PhotonData.pid p1) with (PhotonData.pid p) in Hcol.
  destruct Hcol as (Hid & _ & Hle & _ & Hlt & Hge).
  destruct dead.
  { exists Photon.Destroyed, p2, g3. split; [done|]. split; [done|]. split; [done|].
    split; [done|]. intros col [=]. }
  specialize (Hlt Hn eq_refl).
  destruct (lookup_lt_is_Some_2 Photon.colors _ Hlt) as [col Hcol].
  rewrite Hcol. exists (Photon.Painted col), p2, g3.
  split; [done|]. split; [done|]. split; [done|]. cbn in Hlt. split.
  + intros H7. lia.
  + intros col' [= <-]. split; [lia|done].
Qed.

(** C5: the reflection count of a new photon is 0; one advance never
    lowers it; a collision that the photon survives raises it by exactly
    one, and the photon is destroyed at that collision exactly when the
    raised count reaches 8, the number of colours; a photon that is
    painted has a count below 8, its colour being the palette entry at
    that index, so the lookup never fails. *)
Theorem reflection_count_bounded (c : Config) (figs : list Fig) (p : PhotonData.t)
    (g : Rng) :
  (PhotonData.n_reflections p < length Photon.colors)%nat ->
  length Photon.colors = 8%nat /\
  (forall i m a, PhotonData.n_reflections (Photon.init i m a) = 0%nat) /\
  (forall fig rest p1 g1,
     Circle.collide fig (PhotonData.coord p) = true ->
     Circle.compute_photon c fig p g = (Some p1, g1) ->
     PhotonData.n_reflections (Photon.incr_reflections p1)
       = S (PhotonData.n_reflections p) /\
     Photon.collisions c (fig :: rest) p g =
       if bool_decide (7 < S (PhotonData.n_reflections p))%nat
       then (true, Photon.incr_reflections p1, g1)
       else Photon.collisions c rest (Photon.incr_reflections p1) g1) /\
  (exists r p' g',
     Photon.blit c figs p g = Some (r, p', g') /\
     (PhotonData.n_reflections p <= PhotonData.n_reflections p')%nat /\
     ((7 < PhotonData.n_reflections p')%nat -> r = Photon.Destroyed) /\
     (forall col, r = Photon.Painted col ->
        (PhotonData.n_reflections p' <= 7)%nat /\
        Photon.colors !! PhotonData.n_reflections p' = Some col)).
Proof.
  intros Hn. split; [done|]. split; [done|]. split.
  - intros fig rest p1 g1 Hc Hcp.
    destruct (compute_photon_frame _ _ _ _ _ _ Hcp) as (_ & _ & Hn1).
    split; [cbn; by rewrite Hn1|].
    case_bool_decide as H7.
    + apply collisions_exhaust; [done..|]. cbn. lia.
    + apply collisions_reflect; [done..|]. cbn. lia.
  - destruct (blit_outcome c figs p g Hn) as (r & p' & g' & H1 & _ & H3 & H4 & H5).
    by exists r, p', g'.
Qed.

(** ** Evaluation without jitter and without absorption *)

Lemma axis_quiet_pair c g :
  axis_value c = 0 -> axis c g = (0, mkRng (draws g) (S (cursor g))).
Proof.
  intros H. unfold axis, random_uniform, random_random. rewrite H.
  f_equal. ring.
Qed.

Lemma atan2_x_axis_pos x : 0 < x -> atan2 0 x = 0.
Proof.
  intros Hx. unfold atan2. rewrite decide_True by done.
  replace (0 / x) with 0 by (field; lra). apply atan_0.
Qed.

Lemma atan2_x_axis_neg x : x < 0 -> atan2 0 x = PI.
Proof.
  intros Hx. unfold atan2. rewrite decide_False by lra.
  rewrite decide_True by done. rewrite decide_True by lra.
  replace (0 / x) with 0 by (field; lra). rewrite atan_0. ring.
Qed.

Lemma blit_quiet c figs p g :
  axis_value c = 0 ->
  Photon.blit c figs p g =
    let g2 := mkRng (draws g) (S (S (cursor g))) in
    let p1 := Photon.set_coord p
                (Point.mk (Point.x (PhotonData.coord p) + cos (PhotonData.angle p))
                          (Point.y (PhotonData.coord p) + sin (PhotonData.angle p))) in
    if negb (Photon.in_bounds c (PhotonData.coord p1)) then Some (Photon.Destroyed, p1, g2)
    else
      let '(dead, p2, g3) := Photon.collisions c figs p1 g2 in
      if dead then Some (Photon.Destroyed, p2, g3)
      else col ← Photon.colors !! PhotonData.n_reflections p2;
           Some (Photon.Painted col, p2, g3).
Proof.
  intros H. rewrite blit_unfold. rewrite !axis_quiet_pair by done.
  cbn [fst snd draws cursor].
  replace (0 / 2) with 0 by field. by rewrite !Rplus_0_r.
Qed.

Lemma compute_photon_quiet c f p g :
  axis_value c = 0 -> ate_probability c = 0 -> 0 <= draws g (cursor g) ->
  ~ Point.distance (mid f) (PhotonData.coord p) <= IZR (radius f - 1) ->
  Circle.compute_photon c f p g =
    (Some (Circle.set_angle p
             (let w := Vector2.reflect
                         (Vector2.mk (cos (PhotonData.angle p)) (sin (PhotonData.angle p)))
                         (Vector2.mk (Point.x (PhotonData.coord p) - Point.x (mid f))
                                     (Point.y (PhotonData.coord p) - Point.y (mid f))) in
              atan2 (Vector2.y w) (Vector2.x w))),
     mkRng (draws g) (S (S (cursor g)))).
Proof.
  intros Ha Hp Hu Hd. rewrite compute_photon_reflect; [|done|lra].
  unfold Circle.reflected_heading. rewrite axis_quiet_pair by done.
  cbn [fst snd random_random draws cursor]. by rewrite Rplus_0_r.
Qed.

Lemma in_bounds_true c p :
  0 <= Point.x p <= IZR (d_w c) -> 0 <= Point.y p <= IZR (d_h c) ->
  Photon.in_bounds c p = true.
Proof.
  intros [? ?] [? ?]. unfold Photon.in_bounds.
  by rewrite !bool_decide_eq_true_2 by done.
Qed.

Lemma collide_true f p :
  0 <= IZR (radius f) ->
  sqr (Point.x (mid f) - Point.x p) + sqr (Point.y (mid f) - Point.y p)
    <= IZR (radius f) * IZR (radius f) ->
  Circle.collide f p = true.
Proof.
  intros Hr H. apply bool_decide_eq_true_2. by apply distance_le_iff.
Qed.

Lemma collide_false f p :
  0 <= IZR (radius f) ->
  IZR (radius f) * IZR (radius f)
    < sqr (Point.x (mid f) - Point.x p) + sqr (Point.y (mid f) - Point.y p) ->
  Circle.collide f p = false.
Proof.
  intros Hr H. apply bool_decide_eq_false_2. intros Hd.
  apply distance_le_iff in Hd; [lra|done].
Qed.

Lemma outside_inner_zone f p :
  0 <= IZR (radius f - 1) ->
  IZR (radius f - 1) * IZR (radius f - 1)
    < sqr (Point.x (mid f) - Point.x p) + sqr (Point.y (mid f) - Point.y p) ->
  ~ Point.distance (mid f) p <= IZR (radius f - 1).
Proof.
  intros Hr H Hd. apply distance_le_iff in Hd; [lra|done].
Qed.

(** The overlap scene, step by step. *)
Lemma bouncer_moved :
  Photon.set_coord bouncer
    (Point.mk (Point.x (PhotonData.coord bouncer) + cos (PhotonData.angle bouncer))
              (Point.y (PhotonData.coord bouncer) + sin (PhotonData.angle bouncer)))
  = photon_at 0 (Point.mk (9 / 2) 0) 0 0.
Proof.
  unfold bouncer, photon_at, Photon.set_coord.
  cbn [PhotonData.coord PhotonData.angle PhotonData.pid PhotonData.n_reflections
       Point.x Point.y].
  rewrite cos_0, sin_0. do 2 f_equal; lra.
Qed.

Lemma left_circle_bounce n g :
  0 <= draws g (cursor g) ->
  Circle.compute_photon (quiet_config 20 2) left_circle
    (photon_at 0 (Point.mk (9 / 2) 0) 0 n) g
  = (Some (photon_at 0 (Point.mk (9 / 2) 0) PI n), mkRng (draws g) (S (S (cursor g)))).
Proof.
  intros Hu. rewrite compute_photon_quiet; [|done|done|done|].
  - f_equal. f_equal. unfold Circle.set_angle, photon_at, left_circle, circle_at, origin.
    cbn [PhotonData.coord PhotonData.angle PhotonData.pid PhotonData.n_reflections
         mid Point.x Point.y]. f_equal.
    rewrite cos_0, sin_0. unfold Vector2.reflect, Vector2.dot.
    cbn [Vector2.x Vector2.y].
    replace (0 - 2 * (1 * (9 / 2 - 0) + 0 * (0 - 0)) * (0 - 0)
               / ((9 / 2 - 0) * (9 / 2 - 0) + (0 - 0) * (0 - 0))) with 0 by (field; lra).
    apply atan2_x_axis_neg.
    replace (1 - 2 * (1 * (9 / 2 - 0) + 0 * (0 - 0)) * (9 / 2 - 0)
               / ((9 / 2 - 0) * (9 / 2 - 0) + (0 - 0) * (0 - 0))) with (-1) by (field; lra).
    lra.
  - apply outside_inner_zone; unfold left_circle, circle_at, origin, photon_at, sqr;
      cbn [radius mid Point.x Point.y PhotonData.coord]; change (5 - 1)%Z with 4%Z; lra.
Qed.

Lemma right_circle_bounce n g :
  0 <= draws g (cursor g) ->
  Circle.compute_photon (quiet_config 20 2) right_circle
    (photon_at 0 (Point.mk (9 / 2) 0) PI n) g
  = (Some (photon_at 0 (Point.mk (9 / 2) 0) 0 n), mkRng (draws g) (S (S (cursor g)))).
Proof.
  intros Hu. rewrite compute_photon_quiet; [|done|done|done|].
  - f_equal. f_equal. unfold Circle.set_angle, photon_at, right_circle, circle_at.
    cbn [PhotonData.coord PhotonData.angle PhotonData.pid PhotonData.n_reflections
         mid Point.x Point.y]. f_equal.
    rewrite cos_PI, sin_PI. unfold Vector2.reflect, Vector2.dot.
    cbn [Vector2.x Vector2.y].
    replace (0 - 2 * (-1 * (9 / 2 - 9) + 0 * (0 - 0)) * (0 - 0)
               / ((9 / 2 - 9) * (9 / 2 - 9) + (0 - 0) * (0 - 0))) with 0 by (field; lra).
    apply atan2_x_axis_pos.
    replace (-1 - 2 * (-1 * (9 / 2 - 9) + 0 * (0 - 0)) * (9 / 2 - 9)
               / ((9 / 2 - 9) * (9 / 2 - 9) + (0 - 0) * (0 - 0))) with 1 by (field; lra).
    lra.
  - apply outside_inner_zone; unfold right_circle, circle_at, photon_at, sqr;
      cbn [radius mid Point.x Point.y PhotonData.coord]; change (5 - 1)%Z with 4%Z; lra.
Qed.

Lemma overlap_collides f :
  f = left_circle \/ f = right_circle ->
  Circle.collide f (Point.mk (9 / 2) 0) = true.
Proof.
  intros [-> | ->]; apply collide_true;
    unfold left_circle, right_circle, circle_at, origin, sqr;
    cbn [radius mid Point.x Point.y]; lra.
Qed.

(** ** Several obstacles in one advance *)

(** A photon that the collision loop leaves alive was reflected once by
    every figure of the registry that contains its position. *)
Lemma collisions_alive_count c figs : forall p g p' g',
  Photon.collisions c figs p g = (false, p', g') ->
  PhotonData.n_reflections p' =
    (PhotonData.n_reflections p
     + length (filter (fun f => Circle.collide f (PhotonData.coord p) = true) figs))%nat.
Proof.
  induction figs as [|fig rest IH]; intros p g p' g' H.
  - cbn in H. injection H as <- <-. cbn. lia.
  - cbn [Photon.collisions] in H.
    destruct (Circle.collide fig (PhotonData.coord p)) eqn:Hc.
    + rewrite filter_cons_True by done. cbn [length].
      destruct (Circle.compute_photon c fig p g) as [[p1|] g1] eqn:Hcp; [|discriminate].
      destruct (compute_photon_frame _ _ _ _ _ _ Hcp) as (_ & Hco & Hn).
      case_bool_decide; [discriminate|].
      apply IH in H. cbn in H. rewrite Hco, Hn in H. lia.
    + rewrite filter_cons_False by (rewrite Hc; discriminate).
      by apply IH in H.
Qed.

Lemma overlap_blit_left :
  Photon.blit (quiet_config 20 2) [left_circle] bouncer (constant_rng (1 / 2))
  = Some (Photon.Painted "purple", photon_at 0 (Point.mk (9 / 2) 0) PI 1,
          mkRng (fun _ => 1 / 2) 4).
Proof.
  rewrite blit_quiet by done. cbn zeta. rewrite bouncer_moved.
  rewrite in_bounds_true; cycle 1.
  { cbn. lra. }
  { cbn. lra. }
  cbn [negb].
  erewrite collisions_reflect; cycle 1.
  { by apply overlap_collides; left. }
  { apply left_circle_bounce. cbn. lra. }
  { cbn. lia. }
  reflexivity.
Qed.

Lemma overlap_blit_both :
  Photon.blit (quiet_config 20 2) [left_circle; right_circle] bouncer
    (constant_rng (1 / 2))
  = Some (Photon.Painted "blue", photon_at 0 (Point.mk (9 / 2) 0) 0 2,
          mkRng (fun _ => 1 / 2) 6).
Proof.
  rewrite blit_quiet by done. cbn zeta. rewrite bouncer_moved.
  rewrite in_bounds_true; cycle 1.
  { cbn. lra. }
  { cbn. lra. }
  cbn [negb].
  erewrite collisions_reflect; cycle 1.
  { by apply overlap_collides; left. }
  { apply left_circle_bounce. cbn. lra. }
  { cbn. lia. }
  change (Photon.incr_reflections (photon_at 0 (Point.mk (9 / 2) 0) PI 0))
    with (photon_at 0 (Point.mk (9 / 2) 0) PI 1).
  erewrite collisions_reflect; cycle 1.
  { by apply overlap_collides; right. }
  { apply right_circle_bounce. cbn. lra. }
  { cbn. lia. }
  reflexivity.
Qed.

(** C3, counterexample to the property as stated: the new position [(9/2, 0)] of
    the photon lies in both circles.  With the left circle alone the
    advance leaves the heading [PI] and the count 1; with the right
    circle after it in the registry the same advance leaves the heading
    0 and the count 2: the second obstacle was applied in the same
    frame. *)
Lemma blit_applies_second_obstacle :
  Circle.collide left_circle (Point.mk (9 / 2) 0) = true /\
  Circle.collide right_circle (Point.mk (9 / 2) 0) = true /\
  Photon.blit (quiet_config 20 2) [left_circle] bouncer (constant_rng (1 / 2))
    = Some (Photon.Painted "purple", photon_at 0 (Point.mk (9 / 2) 0) PI 1,
            mkRng (fun _ => 1 / 2) 4) /\
  Photon.blit (quiet_config 20 2) [left_circle; right_circle] bouncer
      (constant_rng (1 / 2))
    = Some (Photon.Painted "blue", photon_at 0 (Point.mk (9 / 2) 0) 0 2,
            mkRng (fun _ => 1 / 2) 6) /\
  PhotonData.n_reflections bouncer = 0%nat /\
  PI <> 0.
Proof.
  split; [by apply overlap_collides; left|].
  split; [by apply overlap_collides; right|].
  split; [exact overlap_blit_left|].
  split; [exact overlap_blit_both|].
  split; [done|]. apply PI_neq0.
Qed.

(** The loop of [blit] tests every figure against the same position, so
    it comes to the interactions of the figures that contain the
    position, in registry order. *)
Lemma collisions_interactions c figs : forall p g,
  Photon.collisions c figs p g =
    interactions c (filter (fun f => Circle.collide f (PhotonData.coord p) = true) figs)
                 p g.
Proof.
  induction figs as [|fig rest IH]; intros p g; [done|].
  cbn [Photon.collisions].
  destruct (Circle.collide fig (PhotonData.coord p)) eqn:Hc.
  - rewrite filter_cons_True by done. cbn [interactions].
    destruct (Circle.compute_photon c fig p g) as [[p1|] g1] eqn:Hcp; [|done].
    destruct (compute_photon_frame _ _ _ _ _ _ Hcp) as (_ & Hco & _).
    case_bool_decide; [done|]. rewrite IH. cbn. by rewrite Hco.
  - rewrite filter_cons_False by (rewrite Hc; discriminate). apply IH.
Qed.

Lemma interactions_app c pre : forall post p g pa ga,
  interactions c pre p g = (false, pa, ga) ->
  interactions c (pre ++ post) p g = interactions c post pa ga.
Proof.
  induction pre as [|fig rest IH]; intros post p g pa ga H.
  - cbn in H. by injection H as <- <-.
  - cbn [interactions app] in *.
    destruct (Circle.compute_photon c fig p g) as [[p1|] g1]; [|discriminate].
    case_bool_decide; [discriminate|]. by apply IH.
Qed.

(** C3, as amended: an advance that lands on the canvas applies the
    interaction of every obstacle of the registry that contains the new
    position, in registry order, each to the photon as the obstacles
    before it left it, for as long as the photon is not destroyed:
    [blit] returns what [interactions] gives on exactly those obstacles.
    So an obstacle met after another one absorbs the photon when its own
    [compute_photon] says so, destroys it when its reflection is one too
    many, and otherwise hands the photon, with the heading it has just
    given it and the count raised by 1, to the obstacles after it; a
    photon that is painted has had its count raised once for each
    obstacle that contains the new position. *)
Theorem blit_applies_every_collision (c : Config) (figs : list Fig)
    (p p' : PhotonData.t) (g g' : Rng) (r : Photon.result) :
  Photon.blit c figs p g = Some (r, p', g') ->
  Photon.in_bounds c (PhotonData.coord p') = true ->
  interactions c
      (filter (fun f => Circle.collide f (PhotonData.coord p') = true) figs)
      (Photon.set_coord p (PhotonData.coord p')) (snd (axis c (snd (axis c g))))
    = (match r with Photon.Destroyed => true | Photon.Painted _ => false end, p', g') /\
  (forall col, r = Photon.Painted col ->
     PhotonData.n_reflections p' =
       (PhotonData.n_reflections p
        + length (filter (fun f => Circle.collide f (PhotonData.coord p') = true)
                         figs))%nat) /\
  (forall pre fig post pa ga,
     filter (fun f => Circle.collide f (PhotonData.coord p') = true) figs
       = pre ++ fig :: post ->
     interactions c pre (Photon.set_coord p (PhotonData.coord p'))
                  (snd (axis c (snd (axis c g)))) = (false, pa, ga) ->
     Circle.collide fig (PhotonData.coord pa) = true /\
     match Circle.compute_photon c fig pa ga with
     | (None, gb) => r = Photon.Destroyed /\ p' = pa /\ g' = gb
     | (Some pb, gb) =>
         if bool_decide (length Photon.colors
                         <= PhotonData.n_reflections (Photon.incr_reflections pb))%nat
         then r = Photon.Destroyed /\ p' = Photon.incr_reflections pb /\ g' = gb
         else interactions c post (Photon.incr_reflections pb) gb
              = (match r with Photon.Destroyed => true | Photon.Painted _ => false end,
                 p', g')
     end).
Proof.
  rewrite blit_unfold. cbn zeta.
  set (p1 := Photon.set_coord p _). set (g2 := snd (axis c (snd (axis c g)))).
  intros H Hin.
  assert (Hco : PhotonData.coord p' = PhotonData.coord p1 /\
                Photon.collisions c figs p1 g2
                = (match r with Photon.Destroyed => true | Photon.Painted _ => false end,
                   p', g')).
  { destruct (Photon.in_bounds c (PhotonData.coord p1)) eqn:Hb; cbn [negb] in H.
    2:{ injection H as <- <- <-. rewrite Hb in Hin. discriminate. }
    destruct (Photon.collisions c figs p1 g2) as [[dead p2] g3] eqn:Hcol.
    destruct (collisions_invariant _ _ _ _ _ _ _ Hcol) as (_ & Hc2 & _).
    destruct dead; [by injection H as <- <- <-|].
    destruct (Photon.colors !! PhotonData.n_reflections p2) as [col'|]; [|discriminate].
    cbn in H. by injection H as <- <- <-. }
  destruct Hco as [Hco Hcol].
  assert (Hp1 : Photon.set_coord p (PhotonData.coord p') = p1) by (by rewrite Hco).
  rewrite Hp1.
  assert (Hint : interactions c
                   (filter (fun f => Circle.collide f (PhotonData.coord p') = true) figs)
                   p1 g2
                 = (match r with Photon.Destroyed => true | Photon.Painted _ => false end,
                    p', g')).
  { rewrite Hco. by rewrite <- collisions_interactions. }
  split; [exact Hint|]. split.
  { intros col ->. apply collisions_alive_count in Hcol. by rewrite Hco. }
  intros pre fig post pa ga Hhits Hpre.
  assert (Hfig : Circle.collide fig (PhotonData.coord p') = true).
  { assert (Hel : fig ∈ filter (fun f => Circle.collide f (PhotonData.coord p') = true)
                             figs).
    { rewrite Hhits. apply elem_of_app. right. apply elem_of_cons. by left. }
    by apply list_elem_of_filter in Hel as [Hel _]. }
  assert (Hpa : PhotonData.coord pa = PhotonData.coord p').
  { assert (Hpre' : Photon.collisions c pre p1 g2 = (false, pa, ga)).
    { rewrite collisions_interactions.
      assert (Hall : filter (fun f => Circle.collide f (PhotonData.coord p1) = true) pre
                     = pre).
      { assert (Hsub : Forall (fun f => Circle.collide f (PhotonData.coord p1) = true)
                         pre).
        { apply Forall_forall. intros f Hf. rewrite <- Hco.
          assert (Hel : f ∈ filter (fun f => Circle.collide f (PhotonData.coord p') = true)
                                 figs).
          { rewrite Hhits. apply elem_of_app. by left. }
          by apply list_elem_of_filter in Hel as [Hel _]. }
        clear -Hsub. induction Hsub as [|f l Hf Hl IH]; [done|].
        rewrite filter_cons_True by done. by rewrite IH. }
      by rewrite Hall. }
    destruct (collisions_invariant _ _ _ _ _ _ _ Hpre') as (_ & -> & _). done. }
  split; [by rewrite Hpa|].
  rewrite Hhits in Hint. rewrite (interactions_app _ _ _ _ _ _ _ Hpre) in Hint.
  cbn [interactions] in Hint.
  destruct (Circle.compute_photon c fig pa ga) as [[pb|] gb].
  - case_bool_decide.
    + injection Hint as Hr <- <-. by destruct r.
    + exact Hint.
  - injection Hint as Hr <- <-. by destruct r.
Qed.

Lemma blit_applies_every_collision_witness :
  PhotonData.n_reflections (photon_at 0 (Point.mk (9 / 2) 0) 0 2) =
    (PhotonData.n_reflections bouncer
     + length (filter (fun f => Circle.collide f
                                  (PhotonData.coord (photon_at 0 (Point.mk (9 / 2) 0) 0 2))
                                = true)
                      [left_circle; right_circle]))%nat.
Proof.
  assert (Hin : Photon.in_bounds (quiet_config 20 2)
                  (PhotonData.coord (photon_at 0 (Point.mk (9 / 2) 0) 0 2)) = true).
  { apply in_bounds_true; cbn; lra. }
  exact (proj1 (proj2 (blit_applies_every_collision (quiet_config 20 2)
                         [left_circle; right_circle] bouncer _ (constant_rng (1 / 2)) _ _
                         overlap_blit_both Hin)) "blue"%string eq_refl).
Defined.

Lemma reflection_count_bounded_witness :
  exists r p' g',
    Photon.blit (quiet_config 20 2) [left_circle; right_circle] bouncer
      (constant_rng (1 / 2)) = Some (r, p', g') /\
    (PhotonData.n_reflections bouncer <= PhotonData.n_reflections p')%nat /\
    ((7 < PhotonData.n_reflections p')%nat -> r = Photon.Destroyed) /\
    (forall col, r = Photon.Painted col ->
       (PhotonData.n_reflections p' <= 7)%nat /\
       Photon.colors !! PhotonData.n_reflections p' = Some col).
Proof.
  assert (H : (PhotonData.n_reflections bouncer < length Photon.colors)%nat)
    by (cbn; lia).
  exact (proj2 (proj2 (proj2 (reflection_count_bounded (quiet_config 20 2)
                                [left_circle; right_circle] bouncer
                                (constant_rng (1 / 2)) H)))).
Defined.

(** ** Input handling *)

Lemma list_remove_spec i l :
  i ∈ l -> exists l', list_remove i l = Some l' /\ removed_from i l l'.
Proof.
  induction l as [|j l IH]; intros Hin.
  - by apply elem_of_nil in Hin.
  - cbn [list_remove]. destruct (decide (i = j)) as [->|Hne].
    + exists l. split; [done|]. exists [], l. split; [done|]. split; [done|].
      apply not_elem_of_nil.
    + apply elem_of_cons in Hin as [?|Hin]; [done|].
      destruct (IH Hin) as (l' & -> & pre & post & -> & -> & Hpre).
      exists (j :: pre ++ post). split; [done|].
      exists (j :: pre), post. split; [done|]. split; [done|].
      apply not_elem_of_cons. done.
Qed.

Lemma removed_from_length i l l' : removed_from i l l' -> length l = S (length l').
Proof. intros (pre & post & -> & -> & _). rewrite !length_app. cbn. lia. Qed.

Lemma removed_from_others i l l' j :
  removed_from i l l' -> j <> i -> j ∈ l' <-> j ∈ l.
Proof.
  intros (pre & post & -> & -> & _) Hne.
  rewrite !elem_of_app, elem_of_cons. tauto.
Qed.

Lemma removed_from_gone i l l' : removed_from i l l' -> NoDup l -> i ∉ l'.
Proof.
  intros (pre & post & -> & -> & Hpre) Hnd.
  apply NoDup_app in Hnd as (_ & _ & Hpost).
  apply NoDup_cons in Hpost as [Hpost _].
  rewrite elem_of_app. tauto.
Qed.


Lemma same_registries_set_objects s o : same_registries s (set_objects s o).
Proof. done. Qed.


Lemma same_registries_trans s1 s2 s3 :
  same_registries s1 s2 -> same_registries s2 s3 -> same_registries s1 s3.
Proof. unfold same_registries. intros (?&?&?) (?&?&?). repeat split; congruence. Qed.

(** Without a press of R in the event list [Circle.listen] deletes nothing. *)
Lemma Circle_listen_keeps_registries events : forall s self s',
  KEYDOWN K_r ∉ events ->
  Circle.listen s self events = Some s' -> same_registries s s'.
Proof.
  induction events as [|e rest IH]; intros s self s' Hno H.
  - cbn in H. injection H as <-. done.
  - cbn [Circle.listen] in H.
    destruct (objects s !! self) as [f|]; [|discriminate]. cbn in H.
    apply not_elem_of_cons in Hno as [Hne Hno].
    assert (Hd : forall m f', Circle.is_delete m f' e = false).
    { intros m f'. destruct e; try done. cbn. case_bool_decide; [|done]. congruence. }
    rewrite Hd in H. apply IH in H; [|done].
    eapply same_registries_trans; [apply same_registries_set_objects|exact H].
Qed.

(** The loop of [PhotonSource.listen] keeps the registries and the shape
    of the source, and it ends without [return] only when no event is a
    press of R. *)
Lemma listen_loop_frame events : forall s self f b s1,
  objects s !! self = Some f ->
  PhotonSource.listen_loop s self events = Some (b, s1) ->
  same_registries s s1 /\
  (exists f1, objects s1 !! self = Some f1 /\ same_shape f f1) /\
  mouse s1 = mouse s /\
  (b = false -> KEYDOWN K_r ∉ events) /\
  (b = true -> KEYDOWN K_r ∈ events).
Proof.
  induction events as [|e rest IH]; intros s self f b s1 Hf H.
  - cbn in H. injection H as <- <-. split; [done|]. split; [by exists f|].
    split; [done|]. split; [intros _; apply not_elem_of_nil|done].
  - cbn [PhotonSource.listen_loop] in H. rewrite Hf in H. cbn [mbind option_bind] in H.
    assert (Hskip : forall s2 f2,
              e <> KEYDOWN K_r ->
              objects s2 !! self = Some f2 -> same_shape f f2 ->
              same_registries s s2 -> mouse s2 = mouse s ->
              PhotonSource.listen_loop s2 self rest = Some (b, s1) ->
              same_registries s s1 /\
              (exists f1, objects s1 !! self = Some f1 /\ same_shape f f1) /\
              mouse s1 = mouse s /\
              (b = false -> KEYDOWN K_r ∉ e :: rest) /\
              (b = true -> KEYDOWN K_r ∈ e :: rest)).
    { intros s2 f2 Hne Hf2 Hsh Hreg Hm H2.
      destruct (IH _ _ _ _ _ Hf2 H2) as (Hr & (f1 & Hf1 & Hsh1) & Hm1 & Hb & Hb').
      split; [by eapply same_registries_trans|].
      split.
      { exists f1. split; [done|].
        destruct Hsh as (?&?&?&?&?), Hsh1 as (?&?&?&?&?).
        repeat split; congruence. }
      split; [congruence|].
      split.
      - intros Hbf. apply not_elem_of_cons. split; [congruence|by apply Hb].
      - intros Hbt. apply elem_of_cons. right. by apply Hb'. }
    destruct e as [pos|pos button|pos button|wy|key|].
    + by apply (Hskip s f).
    + destruct (bool_decide (button = 3%Z) && Circle.collide f pos).
      * eapply Hskip; [ | | | | | exact H];
          [done | apply lookup_insert_eq | done | done | done].
      * by apply (Hskip s f).
    + by apply (Hskip s f).
    + by apply (Hskip s f).
    + destruct (bool_decide (key = K_c)) eqn:Hc.
      * apply bool_decide_eq_true_1 in Hc. subst key.
        destruct (lists s !! PhotonSource.photons_ref f); [|discriminate].
        cbn in H. eapply Hskip; [ | | | | | exact H]; done.
      * cbn in H. case_bool_decide as Hr.
        -- subst key. injection H as <- <-. split; [done|]. split; [by exists f|].
           split; [done|]. split; [done|]. intros _. apply elem_of_cons. by left.
        -- apply (Hskip s f); try done. congruence.
    + by apply (Hskip s f).
Qed.

Lemma listen_loop_app pre : forall s self rest,
  PhotonSource.listen_loop s self (pre ++ rest) =
    '(b, s1) ← PhotonSource.listen_loop s self pre;
    if b : bool then Some (true, s1) else PhotonSource.listen_loop s1 self rest.
Proof.
  induction pre as [|e pre IH]; intros s self rest; [done|].
  cbn [app PhotonSource.listen_loop].
  destruct (objects s !! self) as [f|]; [|done]. cbn [mbind option_bind].
  destruct e as [pos|pos button|pos button|wy|key|]; try apply IH.
  - destruct (bool_decide (button = 3%Z) && Circle.collide f pos); apply IH.
  - destruct (if bool_decide (key = K_c) then _ else _) as [s1|]; [|done].
    cbn [mbind option_bind]. destruct (bool_decide (key = K_r)); [done|apply IH].
Qed.

Lemma is_toggle_same_shape f f' e : same_shape f f' -> is_toggle f' e = is_toggle f e.
Proof.
  intros (_ & Hm & Hr & _). destruct e; try done. cbn.
  unfold Circle.collide. by rewrite Hm, Hr.
Qed.

(** What the loop of [PhotonSource.listen] does over events that hold no
    press of R: one toggle for each right click on the source, and the
    photon list emptied if C was pressed. *)
Lemma listen_loop_effect pre : forall s self f,
  objects s !! self = Some f ->
  KEYDOWN K_r ∉ pre ->
  is_Some (lists s !! PhotonSource.photons_ref f) ->
  exists s1,
    PhotonSource.listen_loop s self pre = Some (false, s1) /\
    objects s1 =
      <[self := set_enabled f
                  (Nat.iter (length (filter (fun e => is_toggle f e = true) pre))
                            negb (enabled f))]> (objects s) /\
    lists s1 = (if existsb is_clear pre
                then <[PhotonSource.photons_ref f := []]> (lists s) else lists s) /\
    same_registries s s1 /\
    config s1 = config s /\ rng s1 = rng s /\ next_id s1 = next_id s /\
    mouse s1 = mouse s.
Proof.
  induction pre as [|e pre IH]; intros s self f Hf Hno Hl.
  - exists s. split; [done|]. cbn. split; [|done].
    symmetry. apply insert_id. rewrite Hf. by destruct f.
  - apply not_elem_of_cons in Hno as [Hne Hno].
    cbn [PhotonSource.listen_loop]. rewrite Hf. cbn [mbind option_bind].
    destruct (is_toggle f e) eqn:Ht.
    + destruct e as [pos|pos button|pos button|wy|key|]; try discriminate.
      cbn in Ht. rewrite Ht.
      set (f2 := set_enabled f (negb (enabled f))).
      set (s2 := set_objects s (<[self := f2]> (objects s))).
      assert (Hf2 : objects s2 !! self = Some f2) by apply lookup_insert_eq.
      destruct (IH s2 self f2 Hf2 Hno Hl) as (s1 & H1 & H2 & H3 & H4 & H5).
      exists s1. split; [done|].
      rewrite filter_cons_True by (cbn; by rewrite Ht). cbn [length].
      split.
      { rewrite H2. cbn [s2 set_objects objects]. rewrite insert_insert_eq.
        f_equal. rewrite Nat.iter_succ_r.
        rewrite (list_filter_iff _ (fun e => is_toggle f e = true)); [done|].
        intros e. by rewrite (is_toggle_same_shape f f2). }
      split; [done|]. split; [|done].
      eapply same_registries_trans; [|exact H4]. done.
    + destruct (is_clear e) eqn:Hc.
      * destruct e as [pos|pos button|pos button|wy|key|]; try discriminate.
        cbn in Hc. rewrite Hc. apply bool_decide_eq_true_1 in Hc. subst key.
        destruct Hl as [old Hold]. rewrite Hold. cbn [mbind option_bind].
        rewrite bool_decide_eq_false_2 by done.
        set (s2 := set_lists s (<[PhotonSource.photons_ref f := []]> (lists s))).
        assert (Hl2 : is_Some (lists s2 !! PhotonSource.photons_ref f)).
        { exists []. apply lookup_insert_eq. }
        destruct (IH s2 self f Hf Hno Hl2) as (s1 & H1 & H2 & H3 & H4 & H5).
        exists s1. split; [done|].
        rewrite filter_cons_False by (rewrite Ht; discriminate).
        split; [done|]. split.
        { rewrite H3. cbn [existsb is_clear]. rewrite bool_decide_eq_true_2 by done.
          cbn [orb s2 set_lists lists]. destruct (existsb is_clear pre); [|done].
          apply insert_insert_eq. }
        split; [|done]. eapply same_registries_trans; [|exact H4]. done.
      * assert (Heq : match e with
                      | MOUSEBUTTONDOWN pos button =>
                          if bool_decide (button = 3%Z) && Circle.collide f pos
                          then PhotonSource.listen_loop
                                 (set_objects s (<[self:=set_enabled f (negb (enabled f))]>
                                                   (objects s))) self pre
                          else PhotonSource.listen_loop s self pre
                      | KEYDOWN key =>
                          (if bool_decide (key = K_c)
                           then lists s !! PhotonSource.photons_ref f
                                ≫= (fun _ => Some (set_lists s
                                        (<[PhotonSource.photons_ref f:=[]]> (lists s))))
                           else Some s)
                          ≫= (fun s1 => if bool_decide (key = K_r) then Some (true, s1)
                                        else PhotonSource.listen_loop s1 self pre)
                      | _ => PhotonSource.listen_loop s self pre
                      end = PhotonSource.listen_loop s self pre).
        { destruct e as [pos|pos button|pos button|wy|key|]; try done.
          - cbn in Ht. by rewrite Ht.
          - cbn in Hc. rewrite Hc. cbn [mbind option_bind].
            rewrite bool_decide_eq_false_2; [done|]. congruence. }
        rewrite Heq.
        destruct (IH s self f Hf Hno Hl) as (s1 & H1 & H2 & H3 & H4 & H5).
        exists s1. split; [done|].
        rewrite filter_cons_False by (rewrite Ht; discriminate).
        split; [done|]. split; [|done].
        cbn [existsb]. by rewrite Hc.
Qed.

Lemma yard_state :
  yard = mkState (quiet_config 20 2)
                 (<[1%nat := yard_circle]> (<[0%nat := yard_source]> ∅))
                 [0%nat; 1%nat] [1%nat] [0%nat]
                 {[PhotonSource_photons := []]} 2
                 (constant_rng (1 / 2)) (Point.mk 100 100).
Proof. reflexivity. Qed.

Lemma yard_lookup_source : objects yard !! 0%nat = Some yard_source.
Proof. rewrite yard_state. cbn [objects]. by rewrite lookup_insert_ne, lookup_insert_eq. Qed.

Lemma yard_lookup_circle : objects yard !! 1%nat = Some yard_circle.
Proof. rewrite yard_state. cbn [objects]. by rewrite lookup_insert_eq. Qed.

Lemma yard_lookup_photons : lists yard !! PhotonSource_photons = Some [].
Proof. rewrite yard_state. cbn [lists]. by rewrite lookup_singleton_eq. Qed.

(** C8: a press of R delivered to a photon source leaves the state, and
    with it the registries, as they are, and no event list makes a source
    leave the registries; delivered to a circle under the pointer it takes
    exactly that circle out of [Figure.__objects__] and
    [Circle.__objects__], every other entry staying in place. *)
Theorem delete_request (s : State) (self : nat) (f : Fig) :
  objects s !! self = Some f ->
  self ∈ Figure_objects s ->
  self ∈ class_objects s (cls f) ->
  (cls f = PhotonSource_cls ->
     listen s self [KEYDOWN K_r] = Some s /\
     (forall events s', listen s self events = Some s' -> same_registries s s')) /\
  (cls f = Circle_cls -> Circle.collide f (mouse s) = true ->
     exists s',
       listen s self [KEYDOWN K_r] = Some s' /\
       removed_from self (Figure_objects s) (Figure_objects s') /\
       removed_from self (Circle_objects s) (Circle_objects s') /\
       PhotonSource_objects s' = PhotonSource_objects s /\
       objects s' = objects s /\
       length (Figure_objects s) = S (length (Figure_objects s')) /\
       (forall j, j <> self -> j ∈ Figure_objects s' <-> j ∈ Figure_objects s) /\
       (NoDup (Figure_objects s) -> self ∉ Figure_objects s')).
Proof.
  intros Hf Hall Hown. split.
  - intros Hcls. split.
    + unfold listen. rewrite Hf. cbn [mbind option_bind]. rewrite Hcls.
      unfold PhotonSource.listen. cbn [PhotonSource.listen_loop].
      rewrite Hf. cbn [mbind option_bind].
      rewrite (bool_decide_eq_false_2 (K_r = K_c)) by done. cbn [mbind option_bind].
      by rewrite bool_decide_eq_true_2.
    + intros events s'. unfold listen. rewrite Hf. cbn [mbind option_bind].
      rewrite Hcls. unfold PhotonSource.listen.
      destruct (PhotonSource.listen_loop s self events) as [[b s1]|] eqn:Hloop;
        [|discriminate].
      cbn [mbind option_bind].
      destruct (listen_loop_frame _ _ _ _ _ _ Hf Hloop) as (Hreg & _ & _ & Hb & _).
      destruct b.
      * by intros [= <-].
      * intros Hc. eapply same_registries_trans; [exact Hreg|].
        eapply Circle_listen_keeps_registries; [|exact Hc]. by apply Hb.
  - intros Hcls Hcol. rewrite Hcls in Hown. cbn [class_objects] in Hown.
    destruct (list_remove_spec _ _ Hown) as (own & Hown' & Hrown).
    destruct (list_remove_spec _ _ Hall) as (all & Hall' & Hrall).
    exists (set_registries s Circle_cls own all). split.
    { unfold listen. rewrite Hf. cbn [mbind option_bind]. rewrite Hcls.
      cbn [Circle.listen]. rewrite Hf. cbn [mbind option_bind Circle.handle].
      rewrite (insert_id (objects s) self f Hf).
      replace (set_objects s (objects s)) with s by (by destruct s).
      unfold Circle.is_delete. rewrite bool_decide_eq_true_2 by done.
      rewrite Hcol. cbn [andb]. rewrite Hcls. cbn [class_objects].
      rewrite Hown'. cbn [mbind option_bind]. by rewrite Hall'. }
    cbn [set_registries Figure_objects Circle_objects PhotonSource_objects objects].
    split; [done|]. split; [done|]. split; [done|]. split; [done|].
    split; [by eapply removed_from_length|].
    split; [intros j Hj; by eapply removed_from_others|].
    intros Hnd. by eapply removed_from_gone.
Qed.

Lemma delete_request_witness :
  exists s',
    listen yard 1 [KEYDOWN K_r] = Some s' /\
    removed_from 1 (Figure_objects yard) (Figure_objects s') /\
    removed_from 1 (Circle_objects yard) (Circle_objects s') /\
    PhotonSource_objects s' = PhotonSource_objects yard /\
    objects s' = objects yard /\
    length (Figure_objects yard) = S (length (Figure_objects s')) /\
    (forall j, j <> 1%nat -> j ∈ Figure_objects s' <-> j ∈ Figure_objects yard) /\
    (NoDup (Figure_objects yard) -> 1%nat ∉ Figure_objects s').
Proof.
  assert (Hall : 1%nat ∈ Figure_objects yard).
  { rewrite yard_state. cbn [Figure_objects]. apply elem_of_cons. right.
    apply elem_of_cons. by left. }
  assert (Hown : 1%nat ∈ class_objects yard (cls yard_circle)).
  { rewrite yard_state. cbn [class_objects cls yard_circle Circle_objects].
    apply elem_of_cons. by left. }
  assert (Hcol : Circle.collide yard_circle (mouse yard) = true).
  { apply collide_true; rewrite ?yard_state; unfold yard_circle, sqr;
      cbn [radius mid mouse Point.x Point.y]; lra. }
  exact (proj2 (delete_request yard 1 yard_circle yard_lookup_circle Hall Hown)
           eq_refl Hcol).
Defined.

Lemma first_press_of_r events :
  KEYDOWN K_r ∈ events ->
  exists pre post, events = pre ++ KEYDOWN K_r :: post /\ (KEYDOWN K_r ∉ pre).
Proof.
  induction events as [|e rest IH]; intros Hin.
  - by apply elem_of_nil in Hin.
  - assert (Hdec : e = KEYDOWN K_r \/ e <> KEYDOWN K_r).
    { destruct e as [| | | |key|]; try (right; discriminate).
      destruct (decide (key = K_r)) as [->|Hne]; [by left|right; congruence]. }
    destruct Hdec as [->|Hne].
    + exists [], rest. split; [done|]. apply not_elem_of_nil.
    + apply elem_of_cons in Hin as [Heq|Hin]; [congruence|].
      destruct (IH Hin) as (pre & post & -> & Hpre).
      exists (e :: pre), post. split; [done|].
      apply not_elem_of_cons. split; [congruence|done].
Qed.

(** C10: when the event list delivered to a photon source holds a press
    of R, [listen] returns the state that its own loop reaches over the
    events before the first such press: the events after it are not
    looked at and the inherited [Circle.listen] does not run.  The
    centre, the radius and the drag flag of the source are as before;
    [enabled] has been flipped once for each right click on the source
    among the earlier events and the photon list emptied if C was pressed
    among them. *)
Theorem source_listen_returns_on_r (s : State) (self : nat) (f : Fig)
    (events : list Event) :
  objects s !! self = Some f ->
  cls f = PhotonSource_cls ->
  is_Some (lists s !! PhotonSource.photons_ref f) ->
  KEYDOWN K_r ∈ events ->
  exists pre post s' f',
    events = pre ++ KEYDOWN K_r :: post /\
    (KEYDOWN K_r ∉ pre) /\
    listen s self events = Some s' /\
    PhotonSource.listen_loop s self pre = Some (false, s') /\
    objects s' !! self = Some f' /\
    mid f' = mid f /\ radius f' = radius f /\
    activated_movement f' = activated_movement f /\
    enabled f' = Nat.iter (length (filter (fun e => is_toggle f e = true) pre))
                          negb (enabled f) /\
    lists s' = (if existsb is_clear pre
                then <[PhotonSource.photons_ref f := []]> (lists s) else lists s) /\
    (forall j, j <> self -> objects s' !! j = objects s !! j) /\
    same_registries s s'.
Proof.
  intros Hf Hcls Hl Hin.
  destruct (first_press_of_r events Hin) as (pre & post & -> & Hno).
  destruct (listen_loop_effect pre s self f Hf Hno Hl)
    as (s' & Hloop & Hobj & Hlists & Hreg & _).
  exists pre, post, s',
    (set_enabled f (Nat.iter (length (filter (fun e => is_toggle f e = true) pre))
                             negb (enabled f))).
  assert (Hf' : objects s' !! self =
                Some (set_enabled f (Nat.iter
                        (length (filter (fun e => is_toggle f e = true) pre))
                        negb (enabled f)))).
  { rewrite Hobj. apply lookup_insert_eq. }
  split; [done|]. split; [done|]. split.
  { unfold listen. rewrite Hf. cbn [mbind option_bind]. rewrite Hcls.
    unfold PhotonSource.listen. rewrite listen_loop_app, Hloop.
    cbn [mbind option_bind PhotonSource.listen_loop]. rewrite Hf'.
    cbn [mbind option_bind]. rewrite (bool_decide_eq_false_2 (K_r = K_c)) by done.
    cbn [mbind option_bind]. by rewrite bool_decide_eq_true_2. }
  split; [done|]. split; [done|].
  split; [done|]. split; [done|]. split; [done|]. split; [done|].
  split; [done|]. split; [|done].
  intros j Hj. rewrite Hobj. by rewrite lookup_insert_ne.
Qed.

Lemma source_listen_returns_on_r_witness :
  exists s' f',
    listen yard 0
      [MOUSEBUTTONDOWN (Point.mk 400 300) 3; MOUSEBUTTONDOWN (Point.mk 400 300) 1;
       KEYDOWN K_c; KEYDOWN K_r; MOUSEMOTION (Point.mk 7 7); MOUSEWHEEL 1] = Some s' /\
    objects s' !! 0%nat = Some f' /\
    mid f' = mid yard_source /\ radius f' = radius yard_source /\
    activated_movement f' = activated_movement yard_source /\
    same_registries yard s'.
Proof.
  assert (Hin : KEYDOWN K_r ∈ [MOUSEBUTTONDOWN (Point.mk 400 300) 3;
                               MOUSEBUTTONDOWN (Point.mk 400 300) 1; KEYDOWN K_c;
                               KEYDOWN K_r; MOUSEMOTION (Point.mk 7 7); MOUSEWHEEL 1]).
  { do 3 (apply elem_of_cons; right). apply elem_of_cons. by left. }
  assert (Hl : is_Some (lists yard !! PhotonSource.photons_ref yard_source)).
  { exists []. exact yard_lookup_photons. }
  destruct (source_listen_returns_on_r yard 0 yard_source _
              yard_lookup_source eq_refl Hl Hin)
    as (pre & post & s' & f' & _ & _ & H1 & _ & H3 & H4 & H5 & H6 & _ & _ & _ & H10).
  exists s', f'. exact (conj H1 (conj H3 (conj H4 (conj H5 (conj H6 H10))))).
Defined.

(** ** Spawning *)

Lemma spawn_shape c f degrees : forall next g ps next' g',
  PhotonSource.spawn c f degrees next g = (ps, next', g') ->
  length ps = length degrees /\
  next' = (next + length degrees)%nat /\
  draws g' = draws g /\ cursor g' = (cursor g + length degrees)%nat /\
  Forall (fun p => PhotonData.n_reflections p = 0%nat) ps.
Proof.
  induction degrees as [|d rest IH]; intros next g ps next' g' H.
  - cbn in H. injection H as <- <- <-. cbn. repeat split; try lia. done.
  - cbn [PhotonSource.spawn] in H.
    destruct (axis c g) as [j g1] eqn:Hax.
    destruct (PhotonSource.spawn c f rest (S next) g1) as [[ps1 n1] g2] eqn:Hsp.
    injection H as <- <- <-.
    apply IH in Hsp as (Hlen & Hn & Hd & Hc & Hall).
    assert (Hg1 : draws g1 = draws g /\ cursor g1 = S (cursor g)).
    { unfold axis, random_uniform, random_random in Hax. by injection Hax as _ <-. }
    destruct Hg1 as [Hd1 Hc1]. cbn [length].
    repeat split; try lia; try congruence.
    apply Forall_cons. done.
Qed.

Lemma py_range_spawn_angles st :
  (0 < st)%Z ->
  exists degrees,
    py_range 0 360 st = Some degrees /\
    (let n := Z.of_nat (length degrees) in ((n - 1) * st < 360 <= n * st)%Z).
Proof.
  intros Hst. unfold py_range. rewrite decide_False by lia.
  eexists. split; [done|]. cbn zeta. rewrite length_map, length_seq.
  unfold range_len. rewrite decide_True by done. rewrite decide_True by lia.
  replace (360 - 0 - 1)%Z with 359%Z by lia.
  assert (0 <= 359 / st)%Z by (apply Z.div_pos; lia).
  rewrite Z2Nat.id by lia.
  pose proof (Z.div_mod 359 st ltac:(lia)) as Hdm.
  pose proof (Z.mod_pos_bound 359 st Hst) as Hmb.
  nia.
Qed.

(** [generate_photons] appends the spawned photons to the list object
    that [self.photons] names and touches no registry. *)
Lemma generate_photons_spec s self f old :
  objects s !! self = Some f ->
  lists s !! PhotonSource.photons_ref f = Some old ->
  (0 < rays_step (config s))%Z ->
  exists s' new,
    PhotonSource.generate_photons s self = Some s' /\
    lists s' = <[PhotonSource.photons_ref f := old ++ new]> (lists s) /\
    objects s' = <[self := set_photons_attr f (PhotonSource.photons_ref f)]> (objects s) /\
    config s' = config s /\ same_registries s s' /\ mouse s' = mouse s /\
    Forall (fun p => PhotonData.n_reflections p = 0%nat) new /\
    (let n := Z.of_nat (length new) in
     ((n - 1) * rays_step (config s) < 360 <= n * rays_step (config s))%Z).
Proof.
  intros Hf Hl Hst. unfold PhotonSource.generate_photons.
  rewrite Hf. cbn [mbind option_bind]. rewrite Hl. cbn [mbind option_bind].
  destruct (py_range_spawn_angles _ Hst) as (degrees & -> & Hn).
  cbn [mbind option_bind].
  destruct (PhotonSource.spawn (config s) f degrees (next_id s) (rng s))
    as [[ps next] g] eqn:Hsp.
  apply spawn_shape in Hsp as (Hlen & _ & _ & _ & Hall).
  eexists _, ps. split; [done|]. cbn.
  split; [done|]. split; [done|]. split; [done|]. split; [done|]. split; [done|].
  split; [done|]. by rewrite Hlen.
Qed.

(** ** Moving the photons: what stays *)

Lemma move_loop_frame fuel : forall s l i s',
  PhotonSource.move_loop fuel s l i = Some s' ->
  objects s' = objects s /\ config s' = config s /\ same_registries s s' /\
  next_id s' = next_id s /\ mouse s' = mouse s /\
  (forall l', l' <> l -> lists s' !! l' = lists s !! l') /\
  (is_Some (lists s !! l) -> is_Some (lists s' !! l)).
Proof.
  induction fuel as [|fuel IH]; intros s l i s' H.
  - cbn in H. injection H as <-. done.
  - cbn [PhotonSource.move_loop] in H.
    destruct (lists s !! l) as [ps|] eqn:Hl; [|discriminate].
    cbn [mbind option_bind] in H.
    destruct (ps !! i) as [p|]; [|by injection H as <-].
    destruct (Photon.blit (config s) (registry_figs s) p (rng s)) as [[[r p'] g]|];
      [|discriminate].
    cbn [mbind option_bind] in H.
    destruct (match r with
              | Photon.Destroyed => photons_remove (PhotonData.pid p') ps
              | Photon.Painted _ => Some (<[i:=p']> ps)
              end) as [ps'|]; [|discriminate].
    cbn [mbind option_bind] in H.
    apply IH in H as (H1 & H2 & H3 & H4 & H5 & H6 & H7).
    cbn in H1, H2, H3, H4, H5, H6, H7.
    split; [done|]. split; [done|]. split; [done|]. split; [done|]. split; [done|].
    split.
    + intros l' Hl'. rewrite H6 by done. by rewrite lookup_insert_ne.
    + intros _. apply H7. rewrite lookup_insert_eq. done.
Qed.

Lemma move_photons_frame s self s' :
  PhotonSource.move_photons s self = Some s' ->
  objects s' = objects s /\ config s' = config s /\ same_registries s s' /\
  (forall f, objects s !! self = Some f ->
     is_Some (lists s' !! PhotonSource.photons_ref f)).
Proof.
  unfold PhotonSource.move_photons.
  destruct (objects s !! self) as [f|] eqn:Hf; [|discriminate].
  cbn [mbind option_bind].
  destruct (lists s !! PhotonSource.photons_ref f) as [ps|] eqn:Hl; [|discriminate].
  cbn [mbind option_bind]. intros H.
  apply move_loop_frame in H as (H1 & H2 & H3 & _ & _ & _ & H7).
  split; [done|]. split; [done|]. split; [done|].
  intros f' [= <-]. apply H7. by rewrite Hl.
Qed.

Lemma photons_remove_length i ps : forall ps',
  photons_remove i ps = Some ps' -> length ps = S (length ps').
Proof.
  induction ps as [|q ps IH]; intros ps' H; [discriminate|].
  cbn [photons_remove] in H. destruct (decide (i = PhotonData.pid q)).
  - by injection H as <-.
  - destruct (photons_remove i ps) as [ps1|]; [|discriminate].
    injection H as <-. cbn. f_equal. by apply IH.
Qed.

Lemma photons_remove_present ps : forall i p,
  ps !! i = Some p -> is_Some (photons_remove (PhotonData.pid p) ps).
Proof.
  induction ps as [|q ps IH]; intros i p H; [discriminate|].
  cbn [photons_remove]. destruct (decide (PhotonData.pid p = PhotonData.pid q)); [done|].
  destruct i as [|i]; [cbn in H; congruence|].
  destruct (IH i p H) as [ps' ->]. done.
Qed.

Lemma photons_remove_Forall (P : PhotonData.t -> Prop) i ps : forall ps',
  photons_remove i ps = Some ps' -> Forall P ps -> Forall P ps'.
Proof.
  induction ps as [|q ps IH]; intros ps' H Hall; [discriminate|].
  apply Forall_cons in Hall as [Hq Hall].
  cbn [photons_remove] in H. destruct (decide (i = PhotonData.pid q)).
  - by injection H as <-.
  - destruct (photons_remove i ps) as [ps1|]; [|discriminate].
    injection H as <-. apply Forall_cons. split; [done|]. by apply IH.
Qed.

(** The fuel of [move_photons] is enough: once the fuel covers what is
    left of the list, more fuel changes nothing. *)
Lemma move_loop_fuel_enough fuel : forall s l i ps extra,
  lists s !! l = Some ps ->
  (length ps <= i + fuel)%nat ->
  PhotonSource.move_loop (fuel + extra) s l i = PhotonSource.move_loop fuel s l i.
Proof.
  induction fuel as [|fuel IH]; intros s l i ps extra Hl Hlen.
  - cbn [PhotonSource.move_loop Nat.add]. destruct extra; [done|].
    cbn [PhotonSource.move_loop]. rewrite Hl. cbn [mbind option_bind].
    rewrite lookup_ge_None_2 by lia. done.
  - cbn [PhotonSource.move_loop Nat.add]. rewrite Hl. cbn [mbind option_bind].
    destruct (ps !! i) as [p|]; [|done].
    destruct (Photon.blit (config s) (registry_figs s) p (rng s)) as [[[r p'] g]|];
      [|done].
    cbn [mbind option_bind].
    destruct r as [|col].
    + destruct (photons_remove (PhotonData.pid p') ps) as [ps'|] eqn:Hrm; [|done].
      cbn [mbind option_bind]. apply photons_remove_length in Hrm.
      apply (IH _ _ _ ps'); [apply lookup_insert_eq|lia].
    + cbn [mbind option_bind].
      apply (IH _ _ _ (<[i:=p']> ps)); [apply lookup_insert_eq|].
      rewrite length_insert. lia.
Qed.

(** [move_photons] raises nothing as long as every photon of the list has
    a reflection count below the number of colours. *)
Lemma move_loop_total fuel : forall s l i ps,
  lists s !! l = Some ps ->
  Forall (fun p => (PhotonData.n_reflections p < length Photon.colors)%nat) ps ->
  is_Some (PhotonSource.move_loop fuel s l i).
Proof.
  induction fuel as [|fuel IH]; intros s l i ps Hl Hall; [done|].
  cbn [PhotonSource.move_loop]. rewrite Hl. cbn [mbind option_bind].
  destruct (ps !! i) as [p|] eqn:Hi; [|done].
  assert (Hp : (PhotonData.n_reflections p < length Photon.colors)%nat).
  { by apply (Forall_lookup_1 _ _ _ _ Hall Hi). }
  destruct (blit_outcome (config s) (registry_figs s) p (rng s) Hp)
    as (r & p' & g' & -> & Hid & _ & _ & Hcol).
  cbn [mbind option_bind]. destruct r as [|col].
  - destruct (photons_remove_present ps i p Hi) as [ps' Hrm].
    rewrite Hid, Hrm. cbn [mbind option_bind].
    apply (IH _ _ _ ps'); [apply lookup_insert_eq|].
    by eapply photons_remove_Forall.
  - cbn [mbind option_bind].
    apply (IH _ _ _ (<[i:=p']> ps)); [apply lookup_insert_eq|].
    apply Forall_insert; [done|]. destruct (Hcol col eq_refl) as [H7 _]. cbn. lia.
Qed.

(** ** The spawn cadence *)

(** One tick of the counter: what the first part of [emit] does. *)
Lemma emit_spawn_spec s self f old :
  objects s !! self = Some f ->
  cls f = PhotonSource_cls ->
  lists s !! PhotonSource.photons_ref f = Some old ->
  (0 < frequency (config s))%Z ->
  (0 < rays_step (config s))%Z ->
  (0 <= ticks f < frequency (config s))%Z ->
  exists s1 f1 new,
    PhotonSource.emit_spawn s self = Some s1 /\
    objects s1 !! self = Some f1 /\
    (forall j, j <> self -> objects s1 !! j = objects s !! j) /\
    config s1 = config s /\ same_registries s s1 /\
    cls f1 = cls f /\ enabled f1 = enabled f /\
    PhotonSource.photons_ref f1 = PhotonSource.photons_ref f /\
    ticks f1 = ((ticks f + 1) mod frequency (config s))%Z /\
    lists s1 !! PhotonSource.photons_ref f = Some (old ++ new) /\
    Forall (fun p => PhotonData.n_reflections p = 0%nat) new /\
    (enabled f = true -> (ticks f + 1)%Z = frequency (config s) ->
     let n := Z.of_nat (length new) in
     ((n - 1) * rays_step (config s) < 360 <= n * rays_step (config s))%Z) /\
    ((ticks f + 1 < frequency (config s))%Z -> new = []) /\
    (enabled f = false -> new = []).
Proof.
  intros Hf Hcls Hl HN Hst Ht. unfold PhotonSource.emit_spawn.
  rewrite Hf. cbn [mbind option_bind]. rewrite option_guard_True by done.
  unfold py_mod. rewrite decide_False by (cbn; lia). cbn [mbind option_bind].
  cbn [set_objects config ticks set_ticks].
  set (f1 := set_ticks f (ticks f + 1)).
  set (s1 := set_objects s (<[self := f1]> (objects s))).
  assert (Hf1 : objects s1 !! self = Some f1) by apply lookup_insert_eq.
  destruct (decide (((ticks f + 1) mod frequency (config s))%Z = 0%Z)) as [Hm|Hm].
  - assert (Hfull : (ticks f + 1)%Z = frequency (config s)).
    { destruct (decide ((ticks f + 1)%Z = frequency (config s))) as [|Hne]; [done|].
      rewrite Z.mod_small in Hm by lia. lia. }
    destruct (enabled f) eqn:Hen.
    + destruct (generate_photons_spec s1 self f1 old Hf1 Hl Hst)
        as (s2 & new & Hgen & Hl2 & Ho2 & Hc2 & Hr2 & _ & Hall & Hn).
      change (enabled f1) with (enabled f). rewrite Hen.
      fold f1 s1. rewrite Hgen. cbn [mbind option_bind].
      rewrite Ho2, lookup_insert_eq. cbn [mbind option_bind].
      eexists _, _, new. split; [done|].
      split; [cbn; apply lookup_insert_eq|].
      split.
      { intros j Hj. cbn. by rewrite !lookup_insert_ne by done. }
      split; [cbn; by rewrite Hc2|].
      split.
      { destruct Hr2 as (Hr1 & Hr2 & Hr3). cbn in Hr1, Hr2, Hr3. by repeat split. }
      split; [done|]. split; [done|]. split; [done|].
      split; [cbn; by rewrite Hm|].
      split; [cbn; rewrite Hl2; apply lookup_insert_eq|]. split; [done|].
      split; [intros _ _; exact Hn|]. split; [lia|discriminate].
    + change (enabled f1) with (enabled f). rewrite Hen. cbn [mbind option_bind].
      fold f1 s1. rewrite Hf1. cbn [mbind option_bind].
      eexists _, _, []. split; [done|].
      cbn [set_objects objects config lists s1].
      split; [apply lookup_insert_eq|].
      split.
      { intros j Hj. by rewrite !lookup_insert_ne by done. }
      split; [done|]. split; [done|].
      split; [done|]. split; [done|]. split; [done|].
      split; [cbn; by rewrite Hm|].
      split; [by rewrite app_nil_r|]. split; [done|].
      split; [discriminate|]. done.
  - exists s1, f1, []. split; [done|].
    split; [done|].
    split.
    { intros j Hj. cbn. by rewrite lookup_insert_ne. }
    split; [done|]. split; [done|].
    split; [done|]. split; [done|]. split; [done|].
    assert (Hlt : (ticks f + 1 < frequency (config s))%Z).
    { destruct (decide ((ticks f + 1)%Z = frequency (config s))) as [He|]; [|lia].
      rewrite He, Z.mod_same in Hm by lia. done. }
    split; [cbn; by rewrite Z.mod_small by lia|].
    split; [by rewrite app_nil_r|]. split; [done|].
    split; [intros; lia|]. done.
Qed.

Lemma bench_state m step :
  bench m step =
    mkState (quiet_config 1 step) (<[0%nat := source_at m None]> ∅) [0%nat] [] [0%nat]
            {[PhotonSource_photons := []]} 1 (constant_rng (1 / 2)) origin.
Proof. reflexivity. Qed.

Lemma bench_lookup_source m step : objects (bench m step) !! 0%nat = Some (source_at m None).
Proof. rewrite bench_state. cbn [objects]. by rewrite lookup_insert_eq. Qed.

Lemma bench_lookup_photons m step : lists (bench m step) !! PhotonSource_photons = Some [].
Proof. rewrite bench_state. cbn [lists]. by rewrite lookup_singleton_eq. Qed.

(** ** Evaluation on the bench *)

Lemma spawn_quiet c f degrees : forall next g,
  axis_value c = 0 ->
  PhotonSource.spawn c f degrees next g =
    (imap (fun k d => spawned (mid f) (radius f) (next + k) d) degrees,
     (next + length degrees)%nat,
     mkRng (draws g) (cursor g + length degrees)).
Proof.
  induction degrees as [|d rest IH]; intros next g Hq.
  - cbn. rewrite !Nat.add_0_r. by destruct g.
  - cbn [PhotonSource.spawn]. rewrite axis_quiet_pair by done.
    rewrite IH by done. cbn [imap length draws cursor].
    f_equal; [f_equal|].
    + f_equal.
      * unfold spawned. rewrite Nat.add_0_r. by rewrite Rplus_0_r.
      * apply imap_ext. intros k d' _. cbn. f_equal. lia.
    + lia.
    + f_equal. lia.
Qed.

Lemma bench_emit_spawn m step degrees :
  py_range 0 360 step = Some degrees ->
  PhotonSource.emit_spawn (bench m step) 0 =
    Some (bench_with m step (imap (fun k d => spawned m 5 (1 + k) d) degrees)
            (1 + length degrees) (length degrees)).
Proof.
  intros Hr. unfold PhotonSource.emit_spawn.
  rewrite bench_lookup_source. cbn [mbind option_bind].
  rewrite option_guard_True by done.
  change (py_mod _ _) with (Some 0%Z). cbn [mbind option_bind].
  rewrite decide_True by done.
  change (enabled _) with true. cbv iota.
  unfold PhotonSource.generate_photons.
  cbn [set_objects objects]. rewrite lookup_insert_eq. cbn [mbind option_bind].
  change (lists _ !! _) with (lists (bench m step) !! PhotonSource_photons).
  rewrite bench_lookup_photons. cbn [mbind option_bind].
  change (rays_step _) with step. rewrite Hr. cbn [mbind option_bind].
  rewrite spawn_quiet by done.
  cbn -[imap]. rewrite !insert_insert_eq, lookup_insert_eq.
  cbn -[imap]. rewrite !insert_insert_eq. reflexivity.
Qed.

Lemma bench_registry m step ps next used :
  registry_figs (bench_with m step ps next used) = [source_at m (Some 0%nat)].
Proof.
  unfold registry_figs, bench_with. cbn [Figure_objects objects omap list_omap].
  by rewrite lookup_insert_eq.
Qed.

Lemma bench_photons m step ps next used :
  PhotonSource.photons (bench_with m step ps next used) 0 = Some ps.
Proof.
  unfold PhotonSource.photons, bench_with. cbn [objects lists].
  rewrite lookup_insert_eq. cbn [mbind option_bind].
  apply lookup_insert_eq.
Qed.

Lemma bench_move_photons m step ps next used :
  PhotonSource.move_photons (bench_with m step ps next used) 0 =
    PhotonSource.move_loop (length ps) (bench_with m step ps next used)
                           PhotonSource_photons 0.
Proof.
  unfold PhotonSource.move_photons, bench_with. cbn [objects lists].
  rewrite lookup_insert_eq. cbn [mbind option_bind].
  change (PhotonSource.photons_ref _) with PhotonSource_photons.
  by rewrite lookup_insert_eq.
Qed.

Lemma bench_lists m step ps next used :
  lists (bench_with m step ps next used) !! PhotonSource_photons = Some ps.
Proof. unfold bench_with. cbn [lists]. apply lookup_insert_eq. Qed.

Lemma bench_update m step ps next used ps' used' :
  set_lists (set_rng (bench_with m step ps next used) (mkRng (fun _ => 1 / 2) used'))
            (<[PhotonSource_photons := ps']> (lists (bench_with m step ps next used)))
  = bench_with m step ps' next used'.
Proof.
  unfold bench_with, set_lists, set_rng. cbn -[insert]. by rewrite insert_insert_eq.
Qed.

Lemma bench_move_stop fuel m step ps next used i :
  ps !! i = None ->
  PhotonSource.move_loop fuel (bench_with m step ps next used) PhotonSource_photons i
  = Some (bench_with m step ps next used).
Proof.
  intros Hi. destruct fuel; [done|]. cbn [PhotonSource.move_loop].
  rewrite bench_lists. cbn [mbind option_bind]. by rewrite Hi.
Qed.

Lemma bench_move_alive fuel m step ps next used i p col p' used' :
  ps !! i = Some p ->
  Photon.blit (quiet_config 1 step) [source_at m (Some 0%nat)] p
              (mkRng (fun _ => 1 / 2) used)
    = Some (Photon.Painted col, p', mkRng (fun _ => 1 / 2) used') ->
  PhotonSource.move_loop (S fuel) (bench_with m step ps next used) PhotonSource_photons i
  = PhotonSource.move_loop fuel (bench_with m step (<[i := p']> ps) next used')
                           PhotonSource_photons (S i).
Proof.
  intros Hi Hb. cbn [PhotonSource.move_loop].
  rewrite bench_registry, bench_lists. cbn [mbind option_bind]. rewrite Hi.
  change (config (bench_with m step ps next used)) with (quiet_config 1 step).
  change (rng (bench_with m step ps next used)) with (mkRng (fun _ => 1 / 2) used).
  rewrite Hb. cbn [mbind option_bind]. by rewrite bench_update.
Qed.

Lemma bench_move_destroyed fuel m step ps next used i p p' used' ps' :
  ps !! i = Some p ->
  Photon.blit (quiet_config 1 step) [source_at m (Some 0%nat)] p
              (mkRng (fun _ => 1 / 2) used)
    = Some (Photon.Destroyed, p', mkRng (fun _ => 1 / 2) used') ->
  photons_remove (PhotonData.pid p') ps = Some ps' ->
  PhotonSource.move_loop (S fuel) (bench_with m step ps next used) PhotonSource_photons i
  = PhotonSource.move_loop fuel (bench_with m step ps' next used')
                           PhotonSource_photons (S i).
Proof.
  intros Hi Hb Hrm. cbn [PhotonSource.move_loop].
  rewrite bench_registry, bench_lists. cbn [mbind option_bind]. rewrite Hi.
  change (config (bench_with m step ps next used)) with (quiet_config 1 step).
  change (rng (bench_with m step ps next used)) with (mkRng (fun _ => 1 / 2) used).
  rewrite Hb. cbn [mbind option_bind]. rewrite Hrm. cbn [mbind option_bind].
  by rewrite bench_update.
Qed.

(** An advance that meets no figure and stays on the canvas. *)
Lemma blit_free_flight c f i x y a n x' y' col g :
  axis_value c = 0 -> x' = x + cos a -> y' = y + sin a ->
  0 <= x' <= IZR (d_w c) -> 0 <= y' <= IZR (d_h c) ->
  Circle.collide f (Point.mk x' y') = false ->
  Photon.colors !! n = Some col ->
  Photon.blit c [f] (photon_at i (Point.mk x y) a n) g =
    Some (Photon.Painted col, photon_at i (Point.mk x' y') a n,
          mkRng (draws g) (S (S (cursor g)))).
Proof.
  intros Hq -> -> Hx Hy Hc Hcol. rewrite blit_quiet by done. cbn zeta.
  unfold photon_at, Photon.set_coord.
  cbn [PhotonData.coord PhotonData.angle PhotonData.pid PhotonData.n_reflections
       Point.x Point.y].
  rewrite in_bounds_true by done. cbn [negb].
  rewrite collisions_miss by done. cbn [Photon.collisions PhotonData.n_reflections].
  by rewrite Hcol.
Qed.

(** An advance that leaves the canvas. *)
Lemma blit_leaves c figs i x y a n x' y' g :
  axis_value c = 0 -> x' = x + cos a -> y' = y + sin a ->
  x' < 0 \/ IZR (d_w c) < x' \/ y' < 0 \/ IZR (d_h c) < y' ->
  Photon.blit c figs (photon_at i (Point.mk x y) a n) g =
    Some (Photon.Destroyed, photon_at i (Point.mk x' y') a n,
          mkRng (draws g) (S (S (cursor g)))).
Proof.
  intros Hq -> -> Hout. rewrite blit_quiet by done. cbn zeta.
  unfold photon_at, Photon.set_coord.
  cbn [PhotonData.coord PhotonData.angle PhotonData.pid PhotonData.n_reflections
       Point.x Point.y].
  assert (Hb : Photon.in_bounds c (Point.mk (x + cos a) (y + sin a)) = false).
  { unfold Photon.in_bounds. cbn [Point.x Point.y].
    destruct Hout as [H|[H|[H|H]]].
    - rewrite (bool_decide_eq_false_2 (0 <= x + cos a)) by lra. done.
    - rewrite (bool_decide_eq_false_2 (x + cos a <= IZR (d_w c))) by lra.
      by rewrite andb_false_r.
    - rewrite (bool_decide_eq_false_2 (0 <= y + sin a)) by lra.
      by rewrite andb_false_r.
    - rewrite (bool_decide_eq_false_2 (y + sin a <= IZR (d_h c))) by lra.
      by rewrite andb_false_r. }
  by rewrite Hb.
Qed.

(** ** The scenario of the specification *)

Lemma spawned_eq m r i d a x y :
  PI * IZR d / 180 = a ->
  Point.x m + IZR (r + 1) * cos a = x ->
  Point.y m + IZR (r + 1) * sin a + 1 = y ->
  spawned m r i d = photon_at i (Point.mk x y) a 0.
Proof. intros Ha Hx Hy. unfold spawned, Photon.init, photon_at. by rewrite Ha, Hx, Hy. Qed.

Lemma lab_spawn_ring :
  imap (fun k d => spawned (Point.mk 400 300) 5 (1 + k) d) [0; 90; 180; 270]%Z
  = lab_ring.
Proof.
  cbn [imap]. unfold lab_ring.
  repeat f_equal; apply spawned_eq; change (5 + 1)%Z with 6%Z;
    cbn [Point.x Point.y];
    rewrite ?cos_0, ?sin_0, ?cos_PI2, ?sin_PI2, ?cos_PI, ?sin_PI, ?cos_3PI2, ?sin_3PI2;
    lra.
Qed.

Lemma lab_emit_spawn :
  PhotonSource.emit_spawn lab 0 = Some (bench_with (Point.mk 400 300) 90 lab_ring 5 4).
Proof.
  unfold lab. rewrite (bench_emit_spawn _ _ [0; 90; 180; 270]%Z) by done.
  by rewrite lab_spawn_ring.
Qed.

Lemma source_misses m x y :
  25 < sqr (Point.x m - x) + sqr (Point.y m - y) ->
  Circle.collide (source_at m (Some 0%nat)) (Point.mk x y) = false.
Proof.
  intros H. apply collide_false; cbn [source_at radius mid Point.x Point.y]; lra.
Qed.

Lemma lab_move :
  PhotonSource.move_photons (bench_with (Point.mk 400 300) 90 lab_ring 5 4) 0
  = Some (bench_with (Point.mk 400 300) 90 lab_ring_moved 5 12).
Proof.
  rewrite bench_move_photons. change (length lab_ring) with 4%nat. unfold lab_ring.
  erewrite bench_move_alive; cycle 1.
  { reflexivity. }
  { apply (blit_free_flight _ _ _ _ _ _ _ 407 301);
      [done | rewrite cos_0; lra | rewrite sin_0; lra | cbn; lra | cbn; lra
      | apply source_misses; unfold sqr; cbn [Point.x Point.y]; lra | reflexivity]. }
  cbn [insert list_insert draws cursor].
  erewrite bench_move_alive; cycle 1.
  { reflexivity. }
  { apply (blit_free_flight _ _ _ _ _ _ _ 400 308);
      [done | rewrite cos_PI2; lra | rewrite sin_PI2; lra | cbn; lra | cbn; lra
      | apply source_misses; unfold sqr; cbn [Point.x Point.y]; lra | reflexivity]. }
  cbn [insert list_insert draws cursor].
  erewrite bench_move_alive; cycle 1.
  { reflexivity. }
  { apply (blit_free_flight _ _ _ _ _ _ _ 393 301);
      [done | rewrite cos_PI; lra | rewrite sin_PI; lra | cbn; lra | cbn; lra
      | apply source_misses; unfold sqr; cbn [Point.x Point.y]; lra | reflexivity]. }
  cbn [insert list_insert draws cursor].
  erewrite bench_move_alive; cycle 1.
  { reflexivity. }
  { apply (blit_free_flight _ _ _ _ _ _ _ 400 294);
      [done | rewrite cos_3PI2; lra | rewrite sin_3PI2; lra | cbn; lra | cbn; lra
      | apply source_misses; unfold sqr; cbn [Point.x Point.y]; lra | reflexivity]. }
  cbn [insert list_insert draws cursor].
  by rewrite bench_move_stop.
Qed.

(** C2, the code at the failing input: in the scenario one tick spawns
    exactly four photons, headed at 0, 90, 180 and 270 degrees, and all
    four are alive at the end of the tick, each advanced by one unit
    along its heading.  The spawn places them at [(406, 301)],
    [(400, 307)], [(394, 301)] and [(400, 295)]: the [x] coordinate is
    [centre.x + (radius + 1) cos a], the [y] coordinate is
    [centre.y + (radius + 1) sin a + 1].  The photon headed at 0 degrees
    is therefore not at [centre + (radius + 1) (cos a, sin a)] and not at
    distance [radius + 1 = 6] from the centre. *)
Theorem scenario_first_tick :
  PhotonSource.photons lab 0 = Some [] /\
  (exists s1,
     PhotonSource.emit_spawn lab 0 = Some s1 /\
     PhotonSource.photons s1 0 = Some lab_ring) /\
  (exists s2,
     PhotonSource.emit lab 0 = Some s2 /\
     PhotonSource.photons s2 0 = Some lab_ring_moved) /\
  length lab_ring_moved = 4%nat /\
  PhotonData.angle <$> lab_ring
    = [PI * 0 / 180; PI * 90 / 180; PI * 180 / 180; PI * 270 / 180] /\
  PhotonData.angle <$> lab_ring_moved = PhotonData.angle <$> lab_ring /\
  Forall (fun p => PhotonData.coord p =
                   Point.mk (400 + IZR (5 + 1) * cos (PhotonData.angle p))
                            (300 + IZR (5 + 1) * sin (PhotonData.angle p) + 1))
         lab_ring /\
  (exists p ring,
     lab_ring = p :: ring /\
     PhotonData.angle p = 0 /\
     PhotonData.coord p = Point.mk 406 301 /\
     PhotonData.coord p <> Point.mk (400 + IZR (5 + 1) * cos (PhotonData.angle p))
                                    (300 + IZR (5 + 1) * sin (PhotonData.angle p)) /\
     Point.distance (Point.mk 400 300) (PhotonData.coord p) <> IZR (5 + 1)).
Proof.
  split.
  { unfold PhotonSource.photons, lab. rewrite bench_lookup_source.
    cbn [mbind option_bind]. apply bench_lookup_photons. }
  split.
  { eexists. split; [exact lab_emit_spawn|]. apply bench_photons. }
  split.
  { eexists. split.
    - unfold PhotonSource.emit. rewrite lab_emit_spawn. cbn [mbind option_bind].
      exact lab_move.
    - apply bench_photons. }
  split; [done|]. split.
  { unfold lab_ring. cbn [fmap list_fmap photon_at PhotonData.angle].
    replace (PI * 0 / 180) with 0 by lra.
    replace (PI * 90 / 180) with (PI / 2) by lra.
    replace (PI * 180 / 180) with PI by lra.
    replace (PI * 270 / 180) with (3 * (PI / 2)) by lra.
    reflexivity. }
  split; [done|]. split.
  { unfold lab_ring. change (5 + 1)%Z with 6%Z.
    repeat (apply Forall_cons; split); try apply Forall_nil;
      cbn [photon_at PhotonData.coord PhotonData.angle];
      rewrite ?cos_0, ?sin_0, ?cos_PI2, ?sin_PI2, ?cos_PI, ?sin_PI, ?cos_3PI2,
        ?sin_3PI2;
      f_equal; lra. }
  eexists _, _. split; [reflexivity|].
  split; [done|]. split; [done|]. change (5 + 1)%Z with 6%Z. split.
  - cbn [photon_at PhotonData.angle PhotonData.coord]. rewrite cos_0, sin_0.
    intros [= _ H]. lra.
  - cbn [photon_at PhotonData.coord].
    unfold Point.distance, sqr. cbn [Point.x Point.y]. intros H.
    assert (H37 : 0 <= (400 - 406) * (400 - 406) + (300 - 301) * (300 - 301)) by lra.
    pose proof (sqrt_sqrt _ H37) as Hs. rewrite H in Hs. lra.
Qed.

(** ** A removal during the iteration *)

Lemma edge_spawn_ring :
  imap (fun k d => spawned (Point.mk 795 300) 5 (1 + k) d) [0; 180]%Z
  = [photon_at 1 (Point.mk 801 301) 0 0; photon_at 2 (Point.mk 789 301) PI 0].
Proof.
  cbn [imap].
  repeat f_equal; apply spawned_eq; change (5 + 1)%Z with 6%Z;
    cbn [Point.x Point.y];
    rewrite ?cos_0, ?sin_0, ?cos_PI, ?sin_PI; lra.
Qed.

Lemma edge_emit_spawn :
  PhotonSource.emit_spawn edge 0 =
    Some (bench_with (Point.mk 795 300) 180
            [photon_at 1 (Point.mk 801 301) 0 0; photon_at 2 (Point.mk 789 301) PI 0]
            3 2).
Proof.
  unfold edge. rewrite (bench_emit_spawn _ _ [0; 180]%Z) by done.
  by rewrite edge_spawn_ring.
Qed.

Lemma edge_move :
  PhotonSource.move_photons
    (bench_with (Point.mk 795 300) 180
       [photon_at 1 (Point.mk 801 301) 0 0; photon_at 2 (Point.mk 789 301) PI 0] 3 2) 0
  = Some (bench_with (Point.mk 795 300) 180 [photon_at 2 (Point.mk 789 301) PI 0] 3 4).
Proof.
  rewrite bench_move_photons. cbn [length].
  erewrite bench_move_destroyed; cycle 1.
  { reflexivity. }
  { apply (blit_leaves _ _ _ _ _ _ _ 802 301);
      [done | rewrite cos_0; lra | rewrite sin_0; lra | cbn; lra]. }
  { reflexivity. }
  cbn [draws cursor]. by rewrite bench_move_stop.
Qed.

(** C4, the code at the failing input: a source at [(795, 300)] spawns
    two photons; the first leaves the canvas when it is advanced and is
    removed, and the loop then ends: the second photon is still in the
    list at the end of the tick, where its own advance, which would have
    taken it from [(789, 301)] to [(788, 301)], was never made.  Four
    draws were consumed in the tick, two for the spawn and two for the
    single advance. *)
Theorem move_photons_skips_after_removal :
  PhotonSource.emit_spawn edge 0 =
    Some (bench_with (Point.mk 795 300) 180
            [photon_at 1 (Point.mk 801 301) 0 0; photon_at 2 (Point.mk 789 301) PI 0]
            3 2) /\
  PhotonSource.emit edge 0 =
    Some (bench_with (Point.mk 795 300) 180 [photon_at 2 (Point.mk 789 301) PI 0] 3 4) /\
  Photon.blit (quiet_config 1 180) [source_at (Point.mk 795 300) (Some 0%nat)]
              (photon_at 2 (Point.mk 789 301) PI 0) (mkRng (fun _ => 1 / 2) 4)
    = Some (Photon.Painted "white", photon_at 2 (Point.mk 788 301) PI 0,
            mkRng (fun _ => 1 / 2) 6).
Proof.
  split; [exact edge_emit_spawn|]. split.
  - unfold PhotonSource.emit. rewrite edge_emit_spawn. cbn [mbind option_bind].
    exact edge_move.
  - apply (blit_free_flight _ _ _ _ _ _ _ 788 301);
      [done | rewrite cos_PI; lra | rewrite sin_PI; lra | cbn; lra | cbn; lra
      | apply source_misses; unfold sqr; cbn [Point.x Point.y]; lra | reflexivity].
Qed.

(** ** One list object behind every source *)

(** A figure is created without an instance attribute [photons], and
    [generate_photons] binds that attribute to the list it found: the
    lookup [self.photons] names the same list object before and after. *)
Lemma photons_ref_new s c m r col i s' :
  new_figure s c m r col = (i, s') ->
  exists f, objects s' !! i = Some f /\
            PhotonSource.photons_ref f = PhotonSource_photons.
Proof.
  unfold new_figure. intros [= <- <-].
  exists (mkFig c m r false col 0 true None). split; [|done].
  destruct c; cbn; apply lookup_insert_eq.
Qed.

Lemma photons_ref_rebound f :
  PhotonSource.photons_ref (set_photons_attr f (PhotonSource.photons_ref f))
  = PhotonSource.photons_ref f.
Proof. done. Qed.

(** Two sources whose lookup [self.photons] names the same list object:
    what one spawns, the other shows. *)
Lemma generate_photons_aliases s a b fa fb old :
  a <> b ->
  objects s !! a = Some fa -> objects s !! b = Some fb ->
  PhotonSource.photons_ref fb = PhotonSource.photons_ref fa ->
  lists s !! PhotonSource.photons_ref fa = Some old ->
  (0 < rays_step (config s))%Z ->
  exists s' new,
    PhotonSource.generate_photons s a = Some s' /\
    PhotonSource.photons s' a = Some (old ++ new) /\
    PhotonSource.photons s' b = Some (old ++ new) /\
    (let n := Z.of_nat (length new) in
     ((n - 1) * rays_step (config s) < 360 <= n * rays_step (config s))%Z).
Proof.
  intros Hab Hfa Hfb Href Hl Hst.
  destruct (generate_photons_spec s a fa old Hfa Hl Hst)
    as (s' & new & Hgen & Hl' & Ho' & _ & _ & _ & _ & Hn).
  exists s', new. split; [done|]. unfold PhotonSource.photons. rewrite Ho', Hl'.
  split; [|split; [|done]].
  - rewrite lookup_insert_eq. cbn [mbind option_bind].
    rewrite photons_ref_rebound. apply lookup_insert_eq.
  - rewrite lookup_insert_ne by done. rewrite Hfb. cbn [mbind option_bind].
    rewrite Href. apply lookup_insert_eq.
Qed.

Lemma twin_state :
  twin = mkState (quiet_config 1 90)
                 (<[1%nat := source_at (Point.mk 600 300) None]>
                    (<[0%nat := source_at (Point.mk 200 300) None]> ∅))
                 [0%nat; 1%nat] [] [0%nat; 1%nat]
                 {[PhotonSource_photons := []]} 2 (constant_rng (1 / 2)) origin.
Proof. reflexivity. Qed.

(** C9, the code at the failing input: two sources are created; neither
    has spawned and both show an empty list.  After [generate_photons] on
    the first one alone, the second one shows the same four photons as
    the first. *)
Theorem photons_list_is_shared :
  PhotonSource.photons twin 0 = Some [] /\
  PhotonSource.photons twin 1 = Some [] /\
  exists s' new,
    PhotonSource.generate_photons twin 0 = Some s' /\
    length new = 4%nat /\
    PhotonSource.photons s' 0 = Some new /\
    PhotonSource.photons s' 1 = Some new.
Proof.
  assert (H0 : objects twin !! 0%nat = Some (source_at (Point.mk 200 300) None)).
  { rewrite twin_state. cbn [objects]. by rewrite lookup_insert_ne, lookup_insert_eq. }
  assert (H1 : objects twin !! 1%nat = Some (source_at (Point.mk 600 300) None)).
  { rewrite twin_state. cbn [objects]. by rewrite lookup_insert_eq. }
  assert (Hl : lists twin !! PhotonSource_photons = Some []).
  { rewrite twin_state. cbn [lists]. by rewrite lookup_singleton_eq. }
  split; [unfold PhotonSource.photons; by rewrite H0|].
  split; [unfold PhotonSource.photons; by rewrite H1|].
  destruct (generate_photons_aliases twin 0 1 _ _ [] ltac:(done) H0 H1 eq_refl Hl)
    as (s' & new & Hgen & Ha & Hb & Hn).
  { cbn. lia. }
  exists s', new. split; [done|]. split; [cbn in Hn; lia|]. by split.
Qed.

(** * Further properties of the code *)

(** ** Jitter and the step of a photon *)

Lemma axis_snd c g : snd (axis c g) = mkRng (draws g) (S (cursor g)).
Proof. reflexivity. Qed.

Lemma axis_bound c g :
  unit_draws g -> Rabs (fst (axis c g)) <= Rabs (axis_value c).
Proof.
  intros Hg. destruct (Hg (cursor g)) as [H0 H1].
  unfold axis, random_uniform, random_random. cbn [fst].
  set (u := draws g (cursor g)) in *. set (a := axis_value c).
  unfold Rabs. destruct (Rcase_abs (- a + (a - - a) * u)), (Rcase_abs a); nra.
Qed.


(** The collision loop consumes draws but never changes the stream. *)
Lemma compute_photon_draws c f p g :
  draws (snd (Circle.compute_photon c f p g)) = draws g.
Proof.
  destruct (decide (Point.distance (mid f) (PhotonData.coord p) <= IZR (radius f - 1)))
    as [Hd|Hd].
  { by rewrite compute_photon_inner. }
  destruct (decide (draws g (cursor g) < ate_probability c)) as [Hu|Hu].
  { by rewrite compute_photon_draw. }
  by rewrite compute_photon_reflect.
Qed.

Lemma collisions_draws c figs : forall p g,
  draws (snd (Photon.collisions c figs p g)) = draws g.
Proof.
  induction figs as [|fig rest IH]; intros p g; [done|].
  cbn [Photon.collisions]. destruct (Circle.collide fig (PhotonData.coord p)); [|apply IH].
  pose proof (compute_photon_draws c fig p g) as Hd.
  destruct (Circle.compute_photon c fig p g) as [[p1|] g1]; cbn [snd] in Hd; [|done].
  case_bool_decide; [done|]. by rewrite IH.
Qed.



(** ** Absorption with probability 1, and flight without collision *)

Lemma compute_photon_opaque c f p g :
  1 <= ate_probability c -> unit_draws g ->
  fst (Circle.compute_photon c f p g) = None.
Proof.
  intros Hp Hg.
  destruct (decide (Point.distance (mid f) (PhotonData.coord p) <= IZR (radius f - 1)))
    as [Hd|Hd].
  { by rewrite compute_photon_inner. }
  rewrite compute_photon_draw; [done|done|].
  destruct (Hg (cursor g)). lra.
Qed.

Lemma collisions_opaque c figs : forall p g,
  1 <= ate_probability c -> unit_draws g ->
  Exists (fun f => Circle.collide f (PhotonData.coord p) = true) figs ->
  fst (fst (Photon.collisions c figs p g)) = true.
Proof.
  induction figs as [|fig rest IH]; intros p g Hp Hg Hex.
  - by apply Exists_nil in Hex.
  - cbn [Photon.collisions].
    destruct (Circle.collide fig (PhotonData.coord p)) eqn:Hc.
    + pose proof (compute_photon_opaque c fig p g Hp Hg) as Hn.
      destruct (Circle.compute_photon c fig p g) as [[p1|] g1]; [discriminate|done].
    + apply Exists_cons in Hex as [Hex|Hex]; [congruence|]. by apply IH.
Qed.

(** X2: with an absorption probability of 1 or more, [compute_photon]
    absorbs every photon it is asked about, and an advance whose new
    position lies in some figure of the registry destroys the photon. *)
Theorem full_absorption (c : Config) (g : Rng) :
  1 <= ate_probability c ->
  unit_draws g ->
  (forall f p, fst (Circle.compute_photon c f p g) = None) /\
  (forall figs p r p' g',
     Photon.blit c figs p g = Some (r, p', g') ->
     Exists (fun f => Circle.collide f (PhotonData.coord p') = true) figs ->
     r = Photon.Destroyed).
Proof.
  intros Hp Hg. split; [intros f p; by apply compute_photon_opaque|].
  intros figs p r p' g'. rewrite blit_unfold. cbn zeta.
  set (g2 := snd (axis c (snd (axis c g)))). set (p1 := Photon.set_coord p _).
  destruct (negb (Photon.in_bounds c (PhotonData.coord p1))); [by intros [= <- _ _]|].
  assert (Hg2 : unit_draws g2) by (intros k; apply Hg).
  destruct (Photon.collisions c figs p1 g2) as [[dead p2] g3] eqn:Hcol.
  destruct (collisions_invariant _ _ _ _ _ _ _ Hcol) as (_ & Hco & _).
  destruct dead; [by intros [= <- _ _]|].
  destruct (Photon.colors !! PhotonData.n_reflections p2); [|discriminate].
  cbn. intros [= _ <- _] Hex. rewrite Hco in Hex.
  pose proof (collisions_opaque c figs p1 g2 Hp Hg2 Hex) as Hd.
  rewrite Hcol in Hd. discriminate.
Qed.

Lemma full_absorption_witness :
  fst (Circle.compute_photon opaque_config left_circle
         (photon_at 0 (Point.mk (9 / 2) 0) 0 0) (constant_rng (1 / 2))) = None.
Proof.
  assert (Hp : 1 <= ate_probability opaque_config) by (cbn; lra).
  assert (Hg : unit_draws (constant_rng (1 / 2))) by (intros k; cbn; lra).
  exact (proj1 (full_absorption opaque_config (constant_rng (1 / 2)) Hp Hg) _ _).
Defined.

Lemma collisions_none c figs : forall p g,
  Forall (fun f => Circle.collide f (PhotonData.coord p) = false) figs ->
  Photon.collisions c figs p g = (false, p, g).
Proof.
  induction figs as [|fig rest IH]; intros p g Hall; [done|].
  apply Forall_cons in Hall as [Hc Hall].
  rewrite collisions_miss by done. by apply IH.
Qed.

(** X3: an advance changes the heading or the reflection count of a
    photon only if its new position lies in a figure of the registry; and
    with no such figure a photon that stays on the canvas is painted, in
    the colour of its unchanged count. *)
Theorem heading_changes_only_on_collision (c : Config) (figs : list Fig)
    (p p' : PhotonData.t) (g g' : Rng) (r : Photon.result) :
  Photon.blit c figs p g = Some (r, p', g') ->
  Forall (fun f => Circle.collide f (PhotonData.coord p') = false) figs ->
  PhotonData.angle p' = PhotonData.angle p /\
  PhotonData.n_reflections p' = PhotonData.n_reflections p /\
  (Photon.in_bounds c (PhotonData.coord p') = true ->
   exists col, r = Photon.Painted col /\
               Photon.colors !! PhotonData.n_reflections p = Some col) /\
  (Photon.in_bounds c (PhotonData.coord p') = false -> r = Photon.Destroyed).
Proof.
  rewrite blit_unfold. cbn zeta.
  set (g2 := snd (axis c (snd (axis c g)))). set (p1 := Photon.set_coord p _).
  destruct (Photon.in_bounds c (PhotonData.coord p1)) eqn:Hb; cbn [negb].
  2:{ intros [= <- <- <-] _. rewrite Hb. split; [done|]. split; [done|].
      split; [discriminate|done]. }
  destruct (Photon.collisions c figs p1 g2) as [[dead p2] g3] eqn:Hcol.
  destruct (collisions_invariant _ _ _ _ _ _ _ Hcol) as (_ & Hco & _).
  assert (Hnone : Forall (fun f => Circle.collide f (PhotonData.coord p2) = false) figs ->
                  dead = false /\ p2 = p1).
  { intros Hall. rewrite Hco in Hall. rewrite collisions_none in Hcol by done.
    by injection Hcol as <- <- _. }
  destruct dead.
  { intros [= <- <- <-] Hall. by destruct (Hnone Hall). }
  destruct (Photon.colors !! PhotonData.n_reflections p2) as [col|] eqn:Hcl;
    [|discriminate].
  cbn. intros [= <- <- <-] Hall. destruct (Hnone Hall) as [_ ->].
  rewrite Hb. split; [done|]. split; [done|]. split; [|discriminate].
  intros _. by exists col.
Qed.

Lemma heading_changes_only_on_collision_witness :
  PhotonData.angle (photon_at 2 (Point.mk 788 301) PI 0)
    = PhotonData.angle (photon_at 2 (Point.mk 789 301) PI 0).
Proof.
  assert (Hb : Photon.blit (quiet_config 1 180)
                 [source_at (Point.mk 795 300) (Some 0%nat)]
                 (photon_at 2 (Point.mk 789 301) PI 0) (mkRng (fun _ => 1 / 2) 4)
               = Some (Photon.Painted "white", photon_at 2 (Point.mk 788 301) PI 0,
                       mkRng (fun _ => 1 / 2) 6)).
  { apply (blit_free_flight _ _ _ _ _ _ _ 788 301);
      [done | rewrite cos_PI; lra | rewrite sin_PI; lra | cbn; lra | cbn; lra
      | apply source_misses; unfold sqr; cbn [Point.x Point.y]; lra | reflexivity]. }
  assert (Hall : Forall (fun f => Circle.collide f
                                    (PhotonData.coord (photon_at 2 (Point.mk 788 301) PI 0))
                                  = false)
                        [source_at (Point.mk 795 300) (Some 0%nat)]).
  { constructor; [|constructor]. cbn [photon_at PhotonData.coord].
    apply source_misses. unfold sqr. cbn [Point.x Point.y]. lra. }
  exact (proj1 (heading_changes_only_on_collision _ _ _ _ _ _ _ Hb Hall)).
Defined.

(** ** What [listen] touches *)

Lemma list_remove_Some i l : forall l',
  list_remove i l = Some l' -> removed_from i l l'.
Proof.
  induction l as [|j l IH]; intros l' H; [discriminate|].
  cbn [list_remove] in H. destruct (decide (i = j)) as [->|Hne].
  - injection H as <-. exists [], l. split; [done|]. split; [done|].
    apply not_elem_of_nil.
  - destruct (list_remove i l) as [l1|]; [|discriminate]. injection H as <-.
    destruct (IH l1 eq_refl) as (pre & post & -> & -> & Hpre).
    exists (j :: pre), post. split; [done|]. split; [done|].
    apply not_elem_of_cons. done.
Qed.

Lemma handle_keeps m f e :
  cls (Circle.handle m f e) = cls f /\
  ticks (Circle.handle m f e) = ticks f /\
  enabled (Circle.handle m f e) = enabled f /\
  photons_attr (Circle.handle m f e) = photons_attr f /\
  color (Circle.handle m f e) = color f /\
  (5 <= radius f -> 5 <= radius (Circle.handle m f e))%Z.
Proof.
  destruct e as [pos|pos button|pos button|wy|key|]; cbn [Circle.handle];
    repeat match goal with |- context [if ?b then _ else _] => destruct b end;
    cbn; repeat split; try done; lia.
Qed.


Lemma same_core_refl f : same_core f f.
Proof. done. Qed.

Lemma same_core_trans f1 f2 f3 : same_core f1 f2 -> same_core f2 f3 -> same_core f1 f3.
Proof.
  intros (?&?&?&?&?&?) (?&?&?&?&?&?). repeat split; try congruence. auto.
Qed.

Lemma same_outside_refl self s : same_outside self s s.
Proof. done. Qed.

Lemma same_outside_trans self s1 s2 s3 :
  same_outside self s1 s2 -> same_outside self s2 s3 -> same_outside self s1 s3.
Proof.
  intros (Ha&?&?&?&?) (Hb&?&?&?&?). repeat split; try congruence.
  intros j Hj. rewrite Hb, Ha; done.
Qed.

Lemma registries_step_after self c s1 s2 s3 :
  same_registries s1 s2 -> registries_step self c s2 s3 -> registries_step self c s1 s3.
Proof.
  intros (H1 & H2 & H3) [(H4 & H5 & H6)|(H4 & H5 & H6)].
  - left. repeat split; congruence.
  - right. rewrite <- H1.
    assert (Hc : forall c', class_objects s2 c' = class_objects s1 c')
      by (by intros []).
    rewrite <- Hc. split; [done|]. split; [done|].
    intros c' Hc'. rewrite H6 by done. apply Hc.
Qed.

(** [Circle.listen] from the inside: the object keeps its core, the rest
    of the state is as before, and at most [self] leaves the registries. *)
Lemma Circle_listen_spec events : forall s self f s',
  objects s !! self = Some f ->
  Circle.listen s self events = Some s' ->
  exists f',
    objects s' !! self = Some f' /\ same_core f f' /\
    same_outside self s s' /\ lists s' = lists s /\
    registries_step self (cls f) s s'.
Proof.
  induction events as [|e rest IH]; intros s self f s' Hf H.
  - cbn in H. injection H as <-. exists f. repeat split; try done. by left.
  - cbn [Circle.listen] in H. rewrite Hf in H. cbn [mbind option_bind] in H.
    set (f1 := Circle.handle (mouse s) f e) in *.
    set (s1 := set_objects s (<[self := f1]> (objects s))) in *.
    assert (Hf1 : objects s1 !! self = Some f1) by apply lookup_insert_eq.
    assert (Hcore : same_core f f1) by apply handle_keeps.
    assert (Hout : same_outside self s s1).
    { split; [|done]. intros j Hj. cbn. by rewrite lookup_insert_ne. }
    destruct (Circle.is_delete (mouse s1) f1 e).
    + destruct (list_remove self (class_objects s1 (cls f1))) as [own|] eqn:Hown;
        [|discriminate].
      cbn [mbind option_bind] in H.
      destruct (list_remove self (Figure_objects s1)) as [all|] eqn:Hall;
        [|discriminate].
      cbn [mbind option_bind] in H. injection H as <-.
      apply list_remove_Some in Hown, Hall.
      destruct Hcore as (Hcls & Hrest). rewrite Hcls in *.
      exists f1. split; [by destruct (cls f)|]. split; [by split|].
      split; [by destruct (cls f)|]. split; [by destruct (cls f)|].
      right. destruct (cls f); cbn in *; (split; [done|]); (split; [done|]);
        by intros [].
    + destruct (IH s1 self f1 s' Hf1 H) as (f' & Hf' & Hc' & Ho' & Hl' & Hr').
      exists f'. split; [done|]. split; [by eapply same_core_trans|].
      split; [by eapply same_outside_trans|]. split; [done|].
      destruct Hcore as (Hcls & _). rewrite Hcls in Hr'.
      eapply registries_step_after; [|exact Hr']. done.
Qed.

(** The loop of [PhotonSource.listen] from the inside: only [enabled] of
    the source and the contents of its photon list can differ. *)
Lemma listen_loop_spec events : forall s self f b s1,
  objects s !! self = Some f ->
  PhotonSource.listen_loop s self events = Some (b, s1) ->
  exists f1,
    objects s1 !! self = Some f1 /\ f1 = set_enabled f (enabled f1) /\
    same_outside self s s1 /\ same_registries s s1 /\
    (forall l, l <> PhotonSource.photons_ref f -> lists s1 !! l = lists s !! l) /\
    (forall l, is_Some (lists s !! l) -> is_Some (lists s1 !! l)) /\
    (b = false -> KEYDOWN K_r ∉ events).
Proof.
  induction events as [|e rest IH]; intros s self f b s1 Hf H.
  - cbn in H. injection H as <- <-. exists f. split; [done|].
    split; [by destruct f|]. split; [done|]. split; [done|]. split; [done|].
    split; [done|]. intros _. apply not_elem_of_nil.
  - cbn [PhotonSource.listen_loop] in H. rewrite Hf in H. cbn [mbind option_bind] in H.
    assert (Hstep : forall s2 f2,
              e <> KEYDOWN K_r ->
              objects s2 !! self = Some f2 -> f2 = set_enabled f (enabled f2) ->
              same_outside self s s2 -> same_registries s s2 ->
              (forall l, l <> PhotonSource.photons_ref f ->
                         lists s2 !! l = lists s !! l) ->
              (forall l, is_Some (lists s !! l) -> is_Some (lists s2 !! l)) ->
              PhotonSource.listen_loop s2 self rest = Some (b, s1) ->
              exists f1,
                objects s1 !! self = Some f1 /\ f1 = set_enabled f (enabled f1) /\
                same_outside self s s1 /\ same_registries s s1 /\
                (forall l, l <> PhotonSource.photons_ref f ->
                           lists s1 !! l = lists s !! l) /\
                (forall l, is_Some (lists s !! l) -> is_Some (lists s1 !! l)) /\
                (b = false -> KEYDOWN K_r ∉ e :: rest)).
    { intros s2 f2 Hne Hf2 Hsh Hout Hreg Hl Hls H2.
      destruct (IH _ _ _ _ _ Hf2 H2) as (f1 & Hf1 & Hsh1 & Hout1 & Hreg1 & Hl1 & Hls1 & Hb).
      assert (Href : PhotonSource.photons_ref f2 = PhotonSource.photons_ref f)
        by (by rewrite Hsh).
      exists f1. split; [done|]. split; [by rewrite Hsh1, Hsh|].
      split; [by eapply same_outside_trans|].
      split; [by eapply same_registries_trans|].
      split; [intros l Hne'; rewrite Hl1, Hl; [done..|by rewrite Href]|].
      split; [auto|].
      intros Hbf. apply not_elem_of_cons. split; [congruence|by apply Hb]. }
    assert (Hsame : forall s0, same_outside self s0 s0 /\ same_registries s0 s0)
      by done.
    destruct e as [pos|pos button|pos button|wy|key|].
    + eapply (Hstep s f); try done; by destruct f.
    + destruct (bool_decide (button = 3%Z) && Circle.collide f pos).
      * eapply Hstep; [ | | | | | | |exact H]; try done.
        -- apply lookup_insert_eq.
        -- done.
        -- split; [|done]. intros j Hj. cbn. by rewrite lookup_insert_ne.
      * eapply (Hstep s f); try done; by destruct f.
    + eapply (Hstep s f); try done; by destruct f.
    + eapply (Hstep s f); try done; by destruct f.
    + destruct (bool_decide (key = K_c)) eqn:Hc.
      * apply bool_decide_eq_true_1 in Hc. subst key.
        destruct (lists s !! PhotonSource.photons_ref f) eqn:Hl0; [|discriminate].
        cbn in H. eapply Hstep; [ | | | | | | |exact H]; try done.
        -- by destruct f.
        -- intros k Hne. cbn. by rewrite lookup_insert_ne.
        -- intros k Hk. cbn.
           destruct (decide (k = PhotonSource.photons_ref f)) as [->|Hne].
           ++ rewrite lookup_insert_eq. done.
           ++ by rewrite lookup_insert_ne.
      * cbn in H. case_bool_decide as Hr.
        -- injection H as <- <-. exists f. split; [done|]. split; [by destruct f|].
           split; [done|]. split; [done|]. split; [done|]. split; [done|].
           discriminate.
        -- eapply (Hstep s f); try done; [congruence|by destruct f].
    + eapply (Hstep s f); try done; by destruct f.
Qed.

(** [listen] of an object of either class. *)
Lemma listen_spec s self f events s' :
  objects s !! self = Some f ->
  listen s self events = Some s' ->
  exists f',
    objects s' !! self = Some f' /\
    cls f' = cls f /\ ticks f' = ticks f /\ photons_attr f' = photons_attr f /\
    color f' = color f /\
    ((5 <= radius f)%Z -> (5 <= radius f')%Z) /\
    (cls f = Circle_cls -> enabled f' = enabled f /\ lists s' = lists s) /\
    same_outside self s s' /\
    (forall l, l <> PhotonSource.photons_ref f -> lists s' !! l = lists s !! l) /\
    (forall l, is_Some (lists s !! l) -> is_Some (lists s' !! l)) /\
    registries_step self (cls f) s s' /\
    (cls f = PhotonSource_cls -> same_registries s s').
Proof.
  intros Hf. unfold listen. rewrite Hf. cbn [mbind option_bind].
  destruct (cls f) eqn:Hcls.
  - intros H. destruct (Circle_listen_spec _ _ _ _ _ Hf H)
      as (f' & Hf' & (H1 & H2 & H3 & H4 & H5 & H6) & Hout & Hl & Hreg).
    exists f'. rewrite Hcls in *. split; [done|]. split; [done|]. split; [done|].
    split; [done|]. split; [done|]. split; [done|]. split; [done|].
    split; [done|]. split; [by rewrite Hl|]. split; [by rewrite Hl|].
    split; [done|]. discriminate.
  - unfold PhotonSource.listen.
    destruct (PhotonSource.listen_loop s self events) as [[b s1]|] eqn:Hloop;
      [|discriminate].
    cbn [mbind option_bind].
    destruct (listen_loop_spec _ _ _ _ _ _ Hf Hloop)
      as (f1 & Hf1 & Hsh & Hout & Hreg & Hl & Hls & Hb).
    assert (Hc1 : cls f1 = PhotonSource_cls) by (by rewrite Hsh).
    destruct b.
    + intros [= <-]. exists f1. split; [done|]. rewrite Hsh.
      split; [done|]. split; [done|]. split; [done|]. split; [done|].
      split; [done|]. split; [discriminate|]. split; [done|].
      split; [done|]. split; [done|]. split; [by left|]. done.
    + intros H.
      destruct (Circle_listen_spec _ _ _ _ _ Hf1 H)
        as (f' & Hf' & (H1 & H2 & H3 & H4 & H5 & H6) & Hout' & Hl' & Hreg').
      pose proof (Circle_listen_keeps_registries _ _ _ _ (Hb eq_refl) H) as Hsame.
      rewrite Hsh in H1, H2, H4, H5, H6. cbn in H1, H2, H4, H5, H6.
      exists f'. split; [done|]. split; [congruence|]. split; [done|].
      split; [done|]. split; [done|]. split; [done|]. split; [discriminate|].
      split; [by eapply same_outside_trans|].
      split; [intros l Hne; rewrite Hl'; by apply Hl|].
      split; [intros l Hsome; rewrite Hl'; by apply Hls|].
      assert (Hall : same_registries s s') by (by eapply same_registries_trans).
      split; [by left|done].
Qed.

Lemma yard_wheel :
  listen yard 1 [MOUSEWHEEL (-3)] =
    Some (set_objects yard (<[1%nat := set_radius yard_circle 5]> (objects yard))).
Proof.
  unfold listen. rewrite yard_lookup_circle. cbn [mbind option_bind cls yard_circle].
  cbn [Circle.listen]. rewrite yard_lookup_circle. cbn [mbind option_bind].
  assert (Hcol : Circle.collide yard_circle (mouse yard) = true).
  { apply collide_true; unfold yard_circle, sqr; cbn [radius mid mouse Point.x Point.y];
      rewrite ?yard_state; cbn [mouse Point.x Point.y]; lra. }
  cbn [Circle.handle Circle.is_delete]. fold yard_circle. rewrite Hcol. done.
Qed.

(** X4: a wheel tick over a circle leaves it with a radius of at least 5
    whatever the radius was, and no event list makes the radius of an
    object fall below 5 once it is at least 5; the object remains on the
    heap. *)
Theorem radius_never_below_five (s s' : State) (self : nat) (f : Fig)
    (events : list Event) :
  objects s !! self = Some f ->
  listen s self events = Some s' ->
  (forall m wheel_y,
     Circle.collide f m = true ->
     (5 <= radius (Circle.handle m f (MOUSEWHEEL wheel_y)))%Z) /\
  exists f', objects s' !! self = Some f' /\
             ((5 <= radius f)%Z -> (5 <= radius f')%Z).
Proof.
  intros Hf H. split.
  - intros m wy Hc. cbn [Circle.handle]. rewrite Hc. cbn. lia.
  - destruct (listen_spec _ _ _ _ _ Hf H) as (f' & Hf' & _ & _ & _ & _ & Hr & _).
    by exists f'.
Qed.

Lemma radius_never_below_five_witness :
  exists f',
    objects (set_objects yard (<[1%nat := set_radius yard_circle 5]> (objects yard)))
      !! 1%nat = Some f' /\
    ((5 <= radius yard_circle)%Z -> (5 <= radius f')%Z).
Proof.
  exact (proj2 (radius_never_below_five yard _ 1 yard_circle [MOUSEWHEEL (-3)]
                  yard_lookup_circle yard_wheel)).
Defined.

(** X5: [listen] of one object assigns to no other object of the heap and
    to none of the settings, the random source, the identity counter or
    the pointer; it keeps the class, the tick counter, the photon list
    binding and the colour of the object; a circle also keeps [enabled]
    and touches no photon list, a source touches at most its own photon
    list and never leaves a registry; and the registries are as before or
    have lost exactly [self]. *)
Theorem listen_touches_only_self (s s' : State) (self : nat) (f : Fig)
    (events : list Event) :
  objects s !! self = Some f ->
  listen s self events = Some s' ->
  exists f',
    objects s' !! self = Some f' /\
    cls f' = cls f /\ ticks f' = ticks f /\ photons_attr f' = photons_attr f /\
    color f' = color f /\
    (cls f = Circle_cls -> enabled f' = enabled f /\ lists s' = lists s) /\
    same_outside self s s' /\
    (forall l, l <> PhotonSource.photons_ref f -> lists s' !! l = lists s !! l) /\
    registries_step self (cls f) s s' /\
    (cls f = PhotonSource_cls -> same_registries s s').
Proof.
  intros Hf H.
  destruct (listen_spec _ _ _ _ _ Hf H)
    as (f' & H1 & H2 & H3 & H4 & H5 & _ & H7 & H8 & H9 & _ & H11 & H12).
  by exists f'.
Qed.

Lemma listen_touches_only_self_witness :
  exists f',
    objects (set_objects yard (<[1%nat := set_radius yard_circle 5]> (objects yard)))
      !! 1%nat = Some f' /\
    cls f' = cls yard_circle /\
    same_outside 1 yard
      (set_objects yard (<[1%nat := set_radius yard_circle 5]> (objects yard))).
Proof.
  destruct (listen_touches_only_self yard _ 1 yard_circle [MOUSEWHEEL (-3)]
              yard_lookup_circle yard_wheel)
    as (f' & H1 & H2 & _ & _ & _ & _ & H7 & _).
  exists f'. exact (conj H1 (conj H2 H7)).
Defined.

(** ** Dragging *)

Lemma set_objects_same s self f :
  objects s !! self = Some f -> set_objects s (<[self := f]> (objects s)) = s.
Proof. intros Hf. rewrite insert_id by done. by destruct s. Qed.

Lemma listen_loop_ignored events : forall s self f,
  objects s !! self = Some f ->
  forallb source_ignores events = true ->
  PhotonSource.listen_loop s self events = Some (false, s).
Proof.
  induction events as [|e rest IH]; intros s self f Hf Hig; [done|].
  cbn [forallb] in Hig. apply andb_prop in Hig as [He Hrest].
  cbn [PhotonSource.listen_loop]. rewrite Hf. cbn [mbind option_bind].
  destruct e as [pos|pos button|pos button|wy|key|]; try discriminate;
    try (by apply (IH s self f)).
  cbn in He. apply negb_true_iff in He. rewrite He. cbn [andb].
  by apply (IH s self f).
Qed.

Lemma drag_gesture_ignored p qs p' : forallb source_ignores (drag_gesture p qs p') = true.
Proof.
  unfold drag_gesture. cbn [forallb source_ignores].
  rewrite bool_decide_eq_false_2 by done. cbn [negb andb].
  induction qs as [|q qs IH]; [done|]. exact IH.
Qed.

Lemma last_cons_default {A} (d x : A) (l : list A) :
  default d (last (x :: l)) = default x (last l).
Proof.
  destruct l as [|y l]; [done|].
  change (last (x :: y :: l)) with (last (y :: l)).
  destruct (proj2 (last_is_Some (y :: l)) ltac:(done)) as [z ->]. done.
Qed.

(** While the drag flag is set, every pointer motion moves the centre. *)
Lemma Circle_listen_motions qs : forall s self f rest,
  objects s !! self = Some f ->
  activated_movement f = true ->
  Circle.listen s self ((MOUSEMOTION <$> qs) ++ rest) =
    Circle.listen
      (set_objects s (<[self := set_mid f (default (mid f) (last qs))]> (objects s)))
      self rest.
Proof.
  induction qs as [|q qs IH]; intros s self f rest Hf Hact.
  - cbn [fmap list_fmap app last default].
    replace (set_mid f (mid f)) with f by (by destruct f).
    by rewrite set_objects_same.
  - cbn [fmap list_fmap app Circle.listen]. rewrite Hf. cbn [mbind option_bind].
    cbn [Circle.handle Circle.is_delete]. rewrite Hact.
    rewrite (IH _ self (set_mid f q)); [|apply lookup_insert_eq|done].
    rewrite last_cons_default. cbn [set_objects objects mid set_mid].
    by rewrite insert_insert_eq.
Qed.

Lemma Circle_listen_drag s self f p qs p' :
  objects s !! self = Some f ->
  Circle.collide f p = true ->
  Circle.listen s self (drag_gesture p qs p') =
    Some (set_objects s
            (<[self := set_activated_movement
                         (set_mid f (default (mid f) (last qs))) false]>
               (objects s))).
Proof.
  intros Hf Hc. unfold drag_gesture. cbn [Circle.listen]. rewrite Hf.
  cbn [mbind option_bind Circle.handle Circle.is_delete]. rewrite Hc.
  rewrite bool_decide_eq_true_2 by done. cbn [andb].
  rewrite (Circle_listen_motions qs _ self (set_activated_movement f true));
    [|apply lookup_insert_eq|done].
  cbn [Circle.listen set_objects objects]. rewrite insert_insert_eq, lookup_insert_eq.
  cbn [mbind option_bind Circle.handle Circle.is_delete mouse].
  cbn [activated_movement set_mid set_activated_movement mid].
  rewrite bool_decide_eq_true_2 by done. cbn [andb].
  cbn [Circle.listen set_objects objects]. by rewrite insert_insert_eq.
Qed.

Lemma Circle_listen_missed s self f p qs p' :
  objects s !! self = Some f ->
  activated_movement f = false ->
  Circle.collide f p = false ->
  Circle.listen s self (drag_gesture p qs p') = Some s.
Proof.
  intros Hf Hact Hc. unfold drag_gesture. cbn [Circle.listen]. rewrite Hf.
  cbn [mbind option_bind Circle.handle Circle.is_delete]. rewrite Hc. cbn [andb].
  rewrite set_objects_same by done.
  assert (Hmot : forall rest, Circle.listen s self ((MOUSEMOTION <$> qs) ++ rest)
                              = Circle.listen s self rest).
  { intros rest. induction qs as [|q qs IH]; [done|].
    cbn [fmap list_fmap app Circle.listen]. rewrite Hf.
    cbn [mbind option_bind Circle.handle Circle.is_delete]. rewrite Hact.
    rewrite set_objects_same by done. exact IH. }
  rewrite Hmot. cbn [Circle.listen]. rewrite Hf.
  cbn [mbind option_bind Circle.handle Circle.is_delete]. rewrite Hact. cbn [andb].
  by rewrite set_objects_same.
Qed.

(** X6: a drag gesture that starts on a figure, circle or source, puts
    its centre at the last pointer position of the gesture (the centre
    jumps to the pointer; it stays where it was if the pointer did not
    move), clears the drag flag and changes nothing else; a gesture that
    starts off an idle figure changes nothing at all. *)
Theorem drag_follows_pointer (s : State) (self : nat) (f : Fig)
    (p p' : Point.t) (qs : list Point.t) :
  objects s !! self = Some f ->
  (Circle.collide f p = true ->
   listen s self (drag_gesture p qs p') =
     Some (set_objects s
             (<[self := set_activated_movement
                          (set_mid f (default (mid f) (last qs))) false]>
                (objects s)))) /\
  (Circle.collide f p = false -> activated_movement f = false ->
   listen s self (drag_gesture p qs p') = Some s).
Proof.
  intros Hf.
  assert (Hdisp : listen s self (drag_gesture p qs p')
                  = Circle.listen s self (drag_gesture p qs p')).
  { unfold listen. rewrite Hf. cbn [mbind option_bind].
    destruct (cls f); [done|]. unfold PhotonSource.listen.
    rewrite (listen_loop_ignored _ _ _ f Hf (drag_gesture_ignored p qs p')). done. }
  rewrite Hdisp. split.
  - intros Hc. by apply Circle_listen_drag.
  - intros Hc Hact. by apply (Circle_listen_missed _ _ f).
Qed.

Lemma drag_follows_pointer_witness :
  listen yard 1 (drag_gesture (Point.mk 100 100)
                              [Point.mk 120 130; Point.mk 300 200] (Point.mk 300 200))
  = Some (set_objects yard
            (<[1%nat := set_activated_movement
                          (set_mid yard_circle (Point.mk 300 200)) false]>
               (objects yard))).
Proof.
  assert (Hcol : Circle.collide yard_circle (Point.mk 100 100) = true).
  { apply collide_true; unfold yard_circle, sqr; cbn [radius mid Point.x Point.y]; lra. }
  exact (proj1 (drag_follows_pointer yard 1 yard_circle (Point.mk 100 100) _
                  [Point.mk 120 130; Point.mk 300 200] yard_lookup_circle) Hcol).
Defined.

(** ** Toggle and clear *)

Lemma Circle_listen_total events : forall s self f,
  objects s !! self = Some f ->
  KEYDOWN K_r ∉ events ->
  is_Some (Circle.listen s self events).
Proof.
  induction events as [|e rest IH]; intros s self f Hf Hno; [done|].
  apply not_elem_of_cons in Hno as [Hne Hno].
  cbn [Circle.listen]. rewrite Hf. cbn [mbind option_bind].
  assert (Hd : forall m f', Circle.is_delete m f' e = false).
  { intros m f'. destruct e; try done. cbn. case_bool_decide; [|done]. congruence. }
  rewrite Hd. eapply IH; [apply lookup_insert_eq|done].
Qed.

(** X7: on an event list without a press of R, [listen] of a photon
    source returns with [enabled] flipped once for each press of the right
    button on the source and with its photon list emptied if C was
    pressed, whether the source is enabled or not, and left as it was
    otherwise; the registries are unchanged. *)
Theorem source_toggle_and_clear (s : State) (self : nat) (f : Fig)
    (events : list Event) :
  objects s !! self = Some f ->
  cls f = PhotonSource_cls ->
  is_Some (lists s !! PhotonSource.photons_ref f) ->
  KEYDOWN K_r ∉ events ->
  exists s' f',
    listen s self events = Some s' /\
    objects s' !! self = Some f' /\
    enabled f' = Nat.iter (length (filter (fun e => is_toggle f e = true) events))
                          negb (enabled f) /\
    lists s' = (if existsb is_clear events
                then <[PhotonSource.photons_ref f := []]> (lists s) else lists s) /\
    (existsb is_clear events = true -> PhotonSource.photons s' self = Some []) /\
    same_registries s s'.
Proof.
  intros Hf Hcls Hl Hno.
  destruct (listen_loop_effect events s self f Hf Hno Hl)
    as (s1 & Hloop & Hobj & Hlists & Hreg & _).
  set (f1 := set_enabled f (Nat.iter (length (filter (fun e => is_toggle f e = true)
                                                events)) negb (enabled f))) in *.
  assert (Hf1 : objects s1 !! self = Some f1) by (rewrite Hobj; apply lookup_insert_eq).
  destruct (Circle_listen_total events s1 self f1 Hf1 Hno) as [s' Hs'].
  destruct (Circle_listen_spec _ _ _ _ _ Hf1 Hs')
    as (f' & Hf' & (_ & _ & Hen & Hattr & _) & _ & Hl' & _).
  pose proof (Circle_listen_keeps_registries _ _ _ _ Hno Hs') as Hreg'.
  exists s', f'. split.
  { unfold listen. rewrite Hf. cbn [mbind option_bind]. rewrite Hcls.
    unfold PhotonSource.listen. rewrite Hloop. done. }
  split; [done|]. split; [by rewrite Hen|].
  split; [by rewrite Hl'|]. split; [|by eapply same_registries_trans].
  intros Hc. unfold PhotonSource.photons. rewrite Hf'. cbn [mbind option_bind].
  assert (Href : PhotonSource.photons_ref f' = PhotonSource.photons_ref f).
  { unfold PhotonSource.photons_ref. by rewrite Hattr. }
  rewrite Href, Hl', Hlists, Hc. apply lookup_insert_eq.
Qed.

Lemma source_toggle_and_clear_witness :
  exists s' f',
    listen yard 0 [MOUSEBUTTONDOWN (Point.mk 401 300) 3; KEYDOWN K_c] = Some s' /\
    objects s' !! 0%nat = Some f' /\
    PhotonSource.photons s' 0 = Some [] /\
    same_registries yard s'.
Proof.
  assert (Hno : KEYDOWN K_r ∉ [MOUSEBUTTONDOWN (Point.mk 401 300) 3; KEYDOWN K_c]).
  { intros Hin. repeat (apply elem_of_cons in Hin as [Hin|Hin]; [discriminate|]).
    by apply elem_of_nil in Hin. }
  assert (Hl : is_Some (lists yard !! PhotonSource.photons_ref yard_source)).
  { exists []. exact yard_lookup_photons. }
  destruct (source_toggle_and_clear yard 0 yard_source _ yard_lookup_source eq_refl Hl Hno)
    as (s' & f' & H1 & H2 & _ & _ & H5 & H6).
  exists s', f'. exact (conj H1 (conj H2 (conj (H5 eq_refl) H6))).
Defined.

(** ** The registries *)

Lemma removed_from_NoDup i l l' : removed_from i l l' -> NoDup l -> NoDup l'.
Proof.
  intros (pre & post & -> & -> & _) Hnd.
  apply NoDup_app in Hnd as (H1 & H2 & H3). apply NoDup_cons in H3 as [H3 H4].
  apply NoDup_app. split; [done|]. split; [|done].
  intros x Hx Hx'. apply (H2 x Hx). apply elem_of_cons. by right.
Qed.

Lemma removed_from_elem i l l' j :
  removed_from i l l' -> NoDup l -> j ∈ l' <-> j ∈ l /\ j <> i.
Proof.
  intros Hr Hnd. split.
  - intros Hj. assert (Hne : j <> i).
    { intros ->. by apply (removed_from_gone _ _ _ Hr Hnd). }
    split; [|done]. by apply (removed_from_others _ _ _ _ Hr Hne).
  - intros [Hj Hne]. by apply (removed_from_others _ _ _ _ Hr Hne).
Qed.

Lemma registry_ok_member s i f :
  registry_ok s -> i ∈ Figure_objects s -> objects s !! i = Some f ->
  i ∈ class_objects s (cls f).
Proof.
  intros (_ & _ & _ & Hiff & Hc & Hp & _) Hin Hf.
  apply Hiff in Hin as [Hin|Hin].
  - destruct (Hc i Hin) as (f' & Hf' & Hcls). rewrite Hf in Hf'. injection Hf' as <-.
    by rewrite Hcls.
  - destruct (Hp i Hin) as (f' & Hf' & Hcls). rewrite Hf in Hf'. injection Hf' as <-.
    by rewrite Hcls.
Qed.

Lemma registry_ok_lookup s i :
  registry_ok s -> i ∈ Figure_objects s -> is_Some (objects s !! i).
Proof.
  intros (_ & _ & _ & Hiff & Hc & Hp & _) Hin.
  apply Hiff in Hin as [Hin|Hin].
  - destruct (Hc i Hin) as (f & -> & _). done.
  - destruct (Hp i Hin) as (f & -> & _). done.
Qed.

Lemma initial_state_ok c g m : registry_ok (initial_state c g m).
Proof.
  unfold registry_ok, initial_state.
  cbn [Figure_objects Circle_objects PhotonSource_objects objects lists next_id].
  split; [apply NoDup_nil_2|]. split; [apply NoDup_nil_2|]. split; [apply NoDup_nil_2|].
  split.
  { intros i. split; [by intros ?%elem_of_nil|by intros [?%elem_of_nil|?%elem_of_nil]]. }
  split; [by intros i ?%elem_of_nil|]. split; [by intros i ?%elem_of_nil|].
  split; [intros i f; by rewrite lookup_empty|].
  split; [intros i f; by rewrite lookup_empty|].
  rewrite lookup_singleton_eq. done.
Qed.

(** [Figure.__new__] and [Circle.__init__] on a state in order. *)
Lemma new_figure_spec (s s' : State) (c : Class) (m : Point.t) (r : Z)
    (col : string) (i : nat) :
  registry_ok s ->
  new_figure s c m r col = (i, s') ->
  i = next_id s /\ (i ∉ Figure_objects s) /\
  Figure_objects s' = Figure_objects s ++ [i] /\
  class_objects s' c = class_objects s c ++ [i] /\
  (forall c', c' <> c -> class_objects s' c' = class_objects s c') /\
  objects s' !! i = Some (mkFig c m r false col 0 true None) /\
  (forall j, j <> i -> objects s' !! j = objects s !! j) /\
  lists s' = lists s /\
  registry_ok s'.
Proof.
  intros Hok. unfold new_figure. intros [= <- <-].
  pose proof Hok as (Hn1 & Hn2 & Hn3 & Hiff & Hc & Hp & Hlt & Href & Hls).
  assert (Hfresh : forall l : list nat,
            (forall j, j ∈ l -> is_Some (objects s !! j)) -> next_id s ∉ l).
  { intros l Hl Hin. destruct (Hl _ Hin) as [f Hf]. apply Hlt in Hf. lia. }
  assert (Hf1 : next_id s ∉ Figure_objects s).
  { apply Hfresh. intros j. by apply registry_ok_lookup. }
  assert (Hf2 : next_id s ∉ Circle_objects s).
  { intros Hin. apply Hf1, Hiff. by left. }
  assert (Hf3 : next_id s ∉ PhotonSource_objects s).
  { intros Hin. apply Hf1, Hiff. by right. }
  split; [done|]. split; [done|].
  split; [by destruct c|]. split; [by destruct c|].
  split; [intros c' Hc'; by destruct c, c'|].
  split; [destruct c; cbn; apply lookup_insert_eq|].
  split; [intros j Hj; destruct c; cbn; by rewrite lookup_insert_ne|].
  split; [by destruct c|].
  assert (Hnd : forall l : list nat,
            NoDup l -> next_id s ∉ l -> NoDup (l ++ [next_id s])).
  { intros l Hl Hnot. apply NoDup_app. split; [done|]. split.
    - intros x Hx ->%list_elem_of_singleton. done.
    - apply NoDup_singleton. }
  assert (Hobj : forall j f0,
            <[next_id s := mkFig c m r false col 0 true None]> (objects s) !! j = Some f0 ->
            (j = next_id s /\ f0 = mkFig c m r false col 0 true None) \/
            (j <> next_id s /\ objects s !! j = Some f0)).
  { intros j f0. destruct (decide (j = next_id s)) as [->|Hne].
    - rewrite lookup_insert_eq. intros [= <-]. by left.
    - rewrite lookup_insert_ne by done. by right. }
  destruct c; unfold registry_ok;
    cbn [set_next_id set_registries set_objects class_objects Figure_objects
         Circle_objects PhotonSource_objects objects lists next_id].
  - split; [by apply Hnd|]. split; [by apply Hnd|]. split; [done|].
    split.
    { intros j. rewrite !elem_of_app, Hiff. tauto. }
    split.
    { intros j [Hj| ->%list_elem_of_singleton]%elem_of_app.
      - destruct (Hc j Hj) as (f0 & Hf0 & Hcls). exists f0. split; [|done].
        rewrite lookup_insert_ne; [done|]. intros <-. done.
      - eexists. split; [apply lookup_insert_eq|done]. }
    split.
    { intros j Hj. destruct (Hp j Hj) as (f0 & Hf0 & Hcls). exists f0. split; [|done].
      rewrite lookup_insert_ne; [done|]. intros <-. done. }
    split.
    { intros j f0 [[-> _]|[_ Hj]]%Hobj; [lia|]. apply Hlt in Hj. lia. }
    split; [|done].
    intros j f0 [[_ ->]|[_ Hj]]%Hobj; [done|]. by apply (Href j).
  - split; [by apply Hnd|]. split; [done|]. split; [by apply Hnd|].
    split.
    { intros j. rewrite !elem_of_app, Hiff. tauto. }
    split.
    { intros j Hj. destruct (Hc j Hj) as (f0 & Hf0 & Hcls). exists f0. split; [|done].
      rewrite lookup_insert_ne; [done|]. intros <-. done. }
    split.
    { intros j [Hj| ->%list_elem_of_singleton]%elem_of_app.
      - destruct (Hp j Hj) as (f0 & Hf0 & Hcls). exists f0. split; [|done].
        rewrite lookup_insert_ne; [done|]. intros <-. done.
      - eexists. split; [apply lookup_insert_eq|done]. }
    split.
    { intros j f0 [[-> _]|[_ Hj]]%Hobj; [lia|]. apply Hlt in Hj. lia. }
    split; [|done].
    intros j f0 [[_ ->]|[_ Hj]]%Hobj; [done|]. by apply (Href j).
Qed.

Lemma yard_ok : registry_ok yard.
Proof.
  pose (s0 := initial_state (quiet_config 20 2) (constant_rng (1 / 2)) (Point.mk 100 100)).
  pose (s1 := snd (new_figure s0 PhotonSource_cls (Point.mk 400 300) 5 "lightyellow")).
  assert (H0 : registry_ok s0) by apply initial_state_ok.
  assert (H1 : registry_ok s1).
  { by destruct (new_figure_spec s0 s1 PhotonSource_cls (Point.mk 400 300) 5
                  "lightyellow" 0 H0 eq_refl) as (_ & _ & _ & _ & _ & _ & _ & _ & ?). }
  by destruct (new_figure_spec s1 yard Circle_cls (Point.mk 100 100) 10 "dimgray" 1
                H1 eq_refl) as (_ & _ & _ & _ & _ & _ & _ & _ & ?).
Qed.

(** X8: creating a figure gives it the identity [next_id], which no
    registry holds yet, appends it at the end of [Figure.__objects__] and
    of the registry of its own class and to no other, leaves every other
    object as it was, and keeps the registries in order. *)
Theorem new_figure_registers (s s' : State) (c : Class) (m : Point.t) (r : Z)
    (col : string) (i : nat) :
  registry_ok s ->
  new_figure s c m r col = (i, s') ->
  i = next_id s /\ (i ∉ Figure_objects s) /\
  Figure_objects s' = Figure_objects s ++ [i] /\
  class_objects s' c = class_objects s c ++ [i] /\
  (forall c', c' <> c -> class_objects s' c' = class_objects s c') /\
  objects s' !! i = Some (mkFig c m r false col 0 true None) /\
  (forall j, j <> i -> objects s' !! j = objects s !! j) /\
  lists s' = lists s /\
  registry_ok s'.
Proof. apply new_figure_spec. Qed.

Lemma new_figure_registers_witness :
  Figure_objects yard
    = Figure_objects (snd (new_figure (initial_state (quiet_config 20 2)
                                         (constant_rng (1 / 2)) (Point.mk 100 100))
                                      PhotonSource_cls (Point.mk 400 300) 5
                                      "lightyellow")) ++ [1%nat] /\
  registry_ok yard.
Proof.
  pose (s0 := initial_state (quiet_config 20 2) (constant_rng (1 / 2)) (Point.mk 100 100)).
  pose (s1 := snd (new_figure s0 PhotonSource_cls (Point.mk 400 300) 5 "lightyellow")).
  assert (H1 : registry_ok s1).
  { exact (proj2 (proj2 (proj2 (proj2 (proj2 (proj2 (proj2 (proj2
             (new_figure_registers s0 s1 PhotonSource_cls (Point.mk 400 300) 5
                "lightyellow" 0 (initial_state_ok _ _ _) eq_refl))))))))). }
  destruct (new_figure_registers s1 yard Circle_cls (Point.mk 100 100) 10 "dimgray" 1
              H1 eq_refl) as (_ & _ & H3 & _ & _ & _ & _ & _ & H9).
  exact (conj H3 H9).
Defined.

Lemma Circle_listen_registered events : forall s self f,
  objects s !! self = Some f ->
  self ∈ Figure_objects s ->
  self ∈ class_objects s (cls f) ->
  is_Some (Circle.listen s self events).
Proof.
  induction events as [|e rest IH]; intros s self f Hf Hall Hown; [done|].
  cbn [Circle.listen]. rewrite Hf. cbn [mbind option_bind].
  set (f1 := Circle.handle (mouse s) f e).
  assert (Hcls : cls f1 = cls f) by apply handle_keeps.
  destruct (Circle.is_delete _ f1 e).
  - rewrite Hcls.
    change (class_objects (set_objects s _) (cls f)) with (class_objects s (cls f)).
    change (Figure_objects (set_objects s _)) with (Figure_objects s).
    destruct (list_remove_spec _ _ Hown) as (own & -> & _).
    destruct (list_remove_spec _ _ Hall) as (all & -> & _). done.
  - apply (IH _ self f1); [apply lookup_insert_eq|done|by rewrite Hcls].
Qed.

Lemma listen_loop_total events : forall s self f,
  objects s !! self = Some f ->
  is_Some (lists s !! PhotonSource.photons_ref f) ->
  is_Some (PhotonSource.listen_loop s self events).
Proof.
  induction events as [|e rest IH]; intros s self f Hf Hl; [done|].
  cbn [PhotonSource.listen_loop]. rewrite Hf. cbn [mbind option_bind].
  destruct e as [pos|pos button|pos button|wy|key|]; try by apply (IH s self f).
  - destruct (bool_decide (button = 3%Z) && Circle.collide f pos); [|by apply (IH s self f)].
    apply (IH _ self (set_enabled f (negb (enabled f)))); [apply lookup_insert_eq|done].
  - destruct (bool_decide (key = K_c)).
    + destruct Hl as [old Hold]. rewrite Hold. cbn [mbind option_bind].
      destruct (bool_decide (key = K_r)); [done|].
      apply (IH _ self f); [done|]. cbn. rewrite lookup_insert_eq. done.
    + cbn [mbind option_bind]. destruct (bool_decide (key = K_r)); [done|].
      by apply (IH s self f).
Qed.

Lemma listen_total s self events :
  registry_ok s -> self ∈ Figure_objects s -> is_Some (listen s self events).
Proof.
  intros Hok Hin. destruct (registry_ok_lookup _ _ Hok Hin) as [f Hf].
  pose proof (registry_ok_member _ _ _ Hok Hin Hf) as Hown.
  pose proof Hok as (_ & _ & _ & _ & _ & _ & _ & Href & Hls).
  unfold listen. rewrite Hf. cbn [mbind option_bind].
  destruct (cls f) eqn:Hcls.
  - apply (Circle_listen_registered _ _ _ f); [done|done|by rewrite Hcls].
  - unfold PhotonSource.listen.
    destruct (listen_loop_total events s self f Hf) as [[b s1] Hloop].
    { by rewrite (Href _ _ Hf). }
    rewrite Hloop. cbn [mbind option_bind]. destruct b; [done|].
    destruct (listen_loop_spec _ _ _ _ _ _ Hf Hloop) as (f1 & Hf1 & _ & _ & _ & _ & _ & Hb).
    apply (Circle_listen_total _ _ _ f1); [done|by apply Hb].
Qed.

Lemma listen_registry_ok s self events s' :
  registry_ok s -> self ∈ Figure_objects s ->
  listen s self events = Some s' -> registry_ok s'.
Proof.
  intros Hok Hin H. destruct (registry_ok_lookup _ _ Hok Hin) as [f Hf].
  pose proof (registry_ok_member _ _ _ Hok Hin Hf) as Hown.
  destruct (listen_spec _ _ _ _ _ Hf H)
    as (f' & Hf' & Hcls & _ & Hattr & _ & _ & _ & (Hoth & _ & _ & Hnext & _) & _
        & Hls' & Hreg & _).
  pose proof Hok as (Hn1 & Hn2 & Hn3 & Hiff & Hc & Hp & Hlt & Href & Hls).
  assert (Hobj : forall j f0, objects s' !! j = Some f0 ->
                   exists f1, objects s !! j = Some f1 /\ cls f0 = cls f1 /\
                              photons_attr f0 = photons_attr f1).
  { intros j f0 Hj. destruct (decide (j = self)) as [->|Hne].
    - rewrite Hf' in Hj. injection Hj as <-. by exists f.
    - rewrite Hoth in Hj by done. by exists f0. }
  assert (Hback : forall j f1, objects s !! j = Some f1 ->
                    exists f0, objects s' !! j = Some f0 /\ cls f0 = cls f1).
  { intros j f1 Hj. destruct (decide (j = self)) as [->|Hne].
    - rewrite Hf in Hj. injection Hj as <-. by exists f'.
    - exists f1. by rewrite Hoth. }
  assert (Htail : (forall i f0, objects s' !! i = Some f0 -> (i < next_id s')%nat) /\
                  (forall i f0, objects s' !! i = Some f0 ->
                     PhotonSource.photons_ref f0 = PhotonSource_photons) /\
                  is_Some (lists s' !! PhotonSource_photons)).
  { split; [|split].
    - intros i f0 Hi. destruct (Hobj _ _ Hi) as (f1 & Hi1 & _). rewrite Hnext.
      by apply (Hlt i f1).
    - intros i f0 Hi. destruct (Hobj _ _ Hi) as (f1 & Hi1 & _ & Ha).
      unfold PhotonSource.photons_ref. rewrite Ha. by apply (Href i).
    - by apply Hls'. }
  destruct Hreg as [(Hr1 & Hr2 & Hr3)|(Hr1 & Hr2 & Hr3)].
  - unfold registry_ok. rewrite Hr1, Hr2, Hr3.
    split; [done|]. split; [done|]. split; [done|]. split; [done|].
    split.
    { intros i Hi. destruct (Hc i Hi) as (f1 & Hi1 & Hc1).
      destruct (Hback _ _ Hi1) as (f0 & Hi0 & Hc0). exists f0. split; [done|congruence]. }
    split; [|done].
    intros i Hi. destruct (Hp i Hi) as (f1 & Hi1 & Hc1).
    destruct (Hback _ _ Hi1) as (f0 & Hi0 & Hc0). exists f0. split; [done|congruence].
  - assert (Hnotother : forall c', c' <> cls f -> self ∉ class_objects s c').
    { intros c' Hc' Hin'. destruct c'; cbn in Hin'.
      - destruct (Hc _ Hin') as (f1 & Hf1 & Hcf). congruence.
      - destruct (Hp _ Hin') as (f1 & Hf1 & Hcf). congruence. }
    assert (Hmem : forall c' i, i ∈ class_objects s' c' <->
                                i ∈ class_objects s c' /\ i <> self).
    { intros c' i. destruct (decide (c' = cls f)) as [->|Hne].
      - apply removed_from_elem; [done|]. by destruct (cls f).
      - rewrite Hr3 by done. split; [|tauto]. intros Hi. split; [done|].
        intros ->. by apply (Hnotother c'). }
    assert (Hmemall : forall i, i ∈ Figure_objects s' <->
                                i ∈ Figure_objects s /\ i <> self).
    { intros i. by apply removed_from_elem. }
    assert (Hnd : forall c', NoDup (class_objects s' c')).
    { intros c'. destruct (decide (c' = cls f)) as [->|Hne].
      - eapply removed_from_NoDup; [exact Hr2|]. by destruct (cls f).
      - rewrite Hr3 by done. by destruct c'. }
    split; [by eapply removed_from_NoDup|].
    split; [exact (Hnd Circle_cls)|]. split; [exact (Hnd PhotonSource_cls)|].
    split.
    { intros i. rewrite Hmemall, (Hmem Circle_cls i), (Hmem PhotonSource_cls i).
      cbn [class_objects]. rewrite Hiff. tauto. }
    split.
    { intros i Hi. apply (Hmem Circle_cls) in Hi as [Hi _]. cbn in Hi.
      destruct (Hc i Hi) as (f1 & Hi1 & Hc1).
      destruct (Hback _ _ Hi1) as (f0 & Hi0 & Hc0). exists f0. split; [done|congruence]. }
    split; [|done].
    intros i Hi. apply (Hmem PhotonSource_cls) in Hi as [Hi _]. cbn in Hi.
    destruct (Hp i Hi) as (f1 & Hi1 & Hc1).
    destruct (Hback _ _ Hi1) as (f0 & Hi0 & Hc0). exists f0. split; [done|congruence].
Qed.

(** X9: on a registered object of a state whose registries are in order,
    [listen] raises nothing, whatever the events (the [remove] calls
    always find the object), and it leaves the registries in order. *)
Theorem listen_is_safe (s : State) (self : nat) (events : list Event) :
  registry_ok s ->
  self ∈ Figure_objects s ->
  exists s', listen s self events = Some s' /\ registry_ok s'.
Proof.
  intros Hok Hin. destruct (listen_total s self events Hok Hin) as [s' Hs'].
  exists s'. split; [done|]. by eapply listen_registry_ok.
Qed.

Lemma listen_is_safe_witness :
  exists s', listen yard 1 [KEYDOWN K_r] = Some s' /\ registry_ok s'.
Proof.
  assert (Hin : 1%nat ∈ Figure_objects yard).
  { rewrite yard_state. cbn [Figure_objects]. apply elem_of_cons. right.
    apply elem_of_cons. by left. }
  exact (listen_is_safe yard 1 [KEYDOWN K_r] yard_ok Hin).
Defined.

(** ** The loop of [move_photons] as a sweep *)

Lemma blit_pid c figs p g r p' g' :
  Photon.blit c figs p g = Some (r, p', g') -> PhotonData.pid p' = PhotonData.pid p.
Proof.
  rewrite blit_unfold. cbn zeta.
  set (g2 := snd (axis c (snd (axis c g)))). set (p1 := Photon.set_coord p _).
  destruct (negb (Photon.in_bounds c (PhotonData.coord p1))); [by intros [= _ <- _]|].
  destruct (Photon.collisions c figs p1 g2) as [[dead p2] g3] eqn:Hcol.
  destruct (collisions_invariant _ _ _ _ _ _ _ Hcol) as (Hid & _).
  destruct dead; [by intros [= _ <- _]|].
  destruct (Photon.colors !! PhotonData.n_reflections p2); [|discriminate].
  cbn. by intros [= _ <- _].
Qed.

Lemma photons_remove_middle done p rest :
  PhotonData.pid p ∉ (PhotonData.pid <$> done) ->
  photons_remove (PhotonData.pid p) (done ++ p :: rest) = Some (done ++ rest).
Proof.
  induction done as [|d done IH]; intros Hnot.
  - cbn. by rewrite decide_True.
  - cbn [fmap list_fmap] in Hnot. apply not_elem_of_cons in Hnot as [Hne Hnot].
    cbn [app photons_remove]. rewrite decide_False by done. by rewrite IH.
Qed.

Lemma NoDup_pids_middle done p rest :
  NoDup (PhotonData.pid <$> (done ++ p :: rest)) ->
  (PhotonData.pid p ∉ (PhotonData.pid <$> done)) /\
  NoDup (PhotonData.pid <$> (done ++ rest)).
Proof.
  rewrite !fmap_app, fmap_cons. intros Hnd.
  apply NoDup_app in Hnd as (H1 & H2 & H3). apply NoDup_cons in H3 as [H3 H4].
  split.
  - intros Hin. apply (H2 _ Hin). apply elem_of_cons. by left.
  - apply NoDup_app. split; [done|]. split; [|done].
    intros x Hx Hx'. apply (H2 x Hx). apply elem_of_cons. by right.
Qed.

Lemma sweep_state_eq s g1 l ps g X :
  set_lists (set_rng (set_lists (set_rng s g1) (<[l := ps]> (lists s))) g)
            (<[l := X]> (lists (set_lists (set_rng s g1) (<[l := ps]> (lists s)))))
  = set_lists (set_rng s g) (<[l := X]> (lists s)).
Proof. unfold set_lists, set_rng. cbn -[insert]. by rewrite insert_insert_eq. Qed.

Lemma sweep_state_id s l ps :
  lists s !! l = Some ps ->
  set_lists (set_rng s (rng s)) (<[l := ps]> (lists s)) = s.
Proof. intros H. rewrite insert_id by done. by destruct s. Qed.

Lemma move_loop_sweep fuel : forall rem done s l,
  lists s !! l = Some (done ++ rem) ->
  NoDup (PhotonData.pid <$> (done ++ rem)) ->
  (length rem <= fuel)%nat ->
  PhotonSource.move_loop fuel s l (length done) =
    '(out, g) ← sweep (config s) (registry_figs s) rem (rng s);
    Some (set_lists (set_rng s g) (<[l := done ++ out]> (lists s))).
Proof.
  induction fuel as [|fuel IH]; intros rem done s l Hl Hnd Hlen.
  - destruct rem; [|cbn in Hlen; lia]. cbn. by rewrite sweep_state_id.
  - cbn [PhotonSource.move_loop]. rewrite Hl. cbn [mbind option_bind].
    destruct rem as [|p rest].
    { rewrite lookup_ge_None_2 by (rewrite length_app; cbn; lia).
      cbn. by rewrite sweep_state_id. }
    rewrite list_lookup_middle by done. cbn [sweep].
    destruct (Photon.blit (config s) (registry_figs s) p (rng s)) as [[[r p'] g1]|] eqn:Hb;
      [|done].
    cbn [mbind option_bind].
    pose proof (blit_pid _ _ _ _ _ _ _ Hb) as Hpid.
    destruct (NoDup_pids_middle _ _ _ Hnd) as [Hnot Hnd'].
    destruct r as [|col].
    + rewrite Hpid, photons_remove_middle by done. cbn [mbind option_bind].
      set (s2 := set_lists (set_rng s g1) (<[l := done ++ rest]> (lists s))).
      destruct rest as [|q rest'].
      * assert (Hl2 : lists s2 !! l = Some (done ++ [])) by apply lookup_insert_eq.
        destruct fuel; cbn [PhotonSource.move_loop]; [done|].
        rewrite Hl2. cbn [mbind option_bind].
        rewrite lookup_ge_None_2 by (rewrite length_app; cbn; lia). done.
      * replace (S (length done)) with (length (done ++ [q]))
          by (rewrite length_app; cbn; lia).
        rewrite (IH rest' (done ++ [q]) s2 l).
        -- change (config s2) with (config s). change (registry_figs s2) with (registry_figs s).
           change (rng s2) with g1.
           destruct (sweep (config s) (registry_figs s) rest' g1) as [[out g2]|]; [|done].
           cbn [mbind option_bind]. unfold s2. rewrite sweep_state_eq.
           by rewrite <- app_assoc.
        -- unfold s2. cbn [lists set_lists]. rewrite lookup_insert_eq.
           by rewrite <- app_assoc.
        -- by rewrite <- app_assoc.
        -- cbn in Hlen. lia.
    + cbn [mbind option_bind].
      replace (<[length done := p']> (done ++ p :: rest)) with ((done ++ [p']) ++ rest).
      2:{ rewrite <- app_assoc. cbn. symmetry.
          replace (length done) with (length done + 0)%nat by lia.
          by rewrite insert_app_r. }
      set (s2 := set_lists (set_rng s g1) (<[l := (done ++ [p']) ++ rest]> (lists s))).
      replace (S (length done)) with (length (done ++ [p']))
        by (rewrite length_app; cbn; lia).
      rewrite (IH rest (done ++ [p']) s2 l).
      * change (config s2) with (config s). change (registry_figs s2) with (registry_figs s).
        change (rng s2) with g1.
        destruct (sweep (config s) (registry_figs s) rest g1) as [[out g2]|]; [|done].
        cbn [mbind option_bind]. unfold s2. rewrite sweep_state_eq.
        by rewrite <- app_assoc.
      * unfold s2. cbn [lists set_lists]. by rewrite lookup_insert_eq.
      * rewrite <- app_assoc. cbn [app].
        rewrite !fmap_app, !fmap_cons, Hpid, <- fmap_cons, <- fmap_app. done.
      * cbn in Hlen. lia.
Qed.

(** [sweep] on photons in order: it raises nothing, and the list it
    returns holds, in the same order, some of the same photon objects. *)
Lemma sweep_ok c figs next n : forall ps g,
  (length ps <= n)%nat ->
  Forall (fun p => (PhotonData.pid p < next)%nat /\
                   (PhotonData.n_reflections p < length Photon.colors)%nat) ps ->
  exists out g',
    sweep c figs ps g = Some (out, g') /\
    Forall (fun p => (PhotonData.pid p < next)%nat /\
                     (PhotonData.n_reflections p < length Photon.colors)%nat) out /\
    (PhotonData.pid <$> out) `sublist_of` (PhotonData.pid <$> ps).
Proof.
  induction n as [|n IH]; intros ps g Hlen Hall.
  - destruct ps; [|cbn in Hlen; lia]. exists [], g. by repeat split.
  - destruct ps as [|p rest]; [exists [], g; by repeat split|].
    apply Forall_cons in Hall as [[Hp1 Hp2] Hall]. cbn [sweep].
    destruct (blit_outcome c figs p g Hp2) as (r & p' & g1 & -> & Hid & _ & _ & Hcol).
    cbn [mbind option_bind]. destruct r as [|col].
    + destruct rest as [|q rest'].
      * exists [], g1. split; [done|]. split; [done|]. apply sublist_nil_l.
      * apply Forall_cons in Hall as [Hq Hall].
        destruct (IH rest' g1) as (out & g2 & -> & Hout & Hsub);
          [cbn in Hlen; lia|done|].
        exists (q :: out), g2. split; [done|]. split; [by apply Forall_cons|].
        cbn [fmap list_fmap]. apply sublist_cons. by apply sublist_skip.
    + destruct (IH rest g1) as (out & g2 & -> & Hout & Hsub);
        [cbn in Hlen; lia|done|].
      exists (p' :: out), g2. split; [done|]. split.
      * apply Forall_cons. split; [|done]. rewrite Hid. split; [done|].
        destruct (Hcol col eq_refl) as [H7 _]. cbn. lia.
      * cbn [fmap list_fmap]. rewrite Hid. by apply sublist_skip.
Qed.

Lemma move_photons_sweep_eq s self f ps :
  objects s !! self = Some f ->
  lists s !! PhotonSource.photons_ref f = Some ps ->
  NoDup (PhotonData.pid <$> ps) ->
  PhotonSource.move_photons s self =
    '(out, g) ← sweep (config s) (registry_figs s) ps (rng s);
    Some (set_lists (set_rng s g) (<[PhotonSource.photons_ref f := out]> (lists s))).
Proof.
  intros Hf Hl Hnd. unfold PhotonSource.move_photons.
  rewrite Hf. cbn [mbind option_bind]. rewrite Hl. cbn [mbind option_bind].
  by apply (move_loop_sweep (length ps) ps []).
Qed.

(** X10: on a list of distinct photon objects, the loop of
    [move_photons], which removes from the list it iterates, does what
    [sweep] does: it advances the photons in order, and after each
    photon that it destroys it leaves the next photon of the list where it
    is, without advancing it in this tick. *)
Theorem move_photons_sweeps (s : State) (self : nat) (f : Fig)
    (ps : list PhotonData.t) :
  objects s !! self = Some f ->
  lists s !! PhotonSource.photons_ref f = Some ps ->
  NoDup (PhotonData.pid <$> ps) ->
  PhotonSource.move_photons s self =
    '(out, g) ← sweep (config s) (registry_figs s) ps (rng s);
    Some (set_lists (set_rng s g) (<[PhotonSource.photons_ref f := out]> (lists s))).
Proof. apply move_photons_sweep_eq. Qed.

Lemma edge_photons_distinct : NoDup (PhotonData.pid <$> edge_photons).
Proof.
  cbn. apply NoDup_cons. split; [|apply NoDup_singleton].
  intros Hin%list_elem_of_singleton. discriminate.
Qed.

Lemma edge_spawned_source :
  objects edge_spawned !! 0%nat = Some (source_at (Point.mk 795 300) (Some 0%nat)).
Proof. apply lookup_insert_eq. Qed.

Lemma edge_spawned_photons :
  lists edge_spawned
    !! PhotonSource.photons_ref (source_at (Point.mk 795 300) (Some 0%nat))
  = Some edge_photons.
Proof. apply lookup_insert_eq. Qed.

Lemma move_photons_sweeps_witness :
  PhotonSource.move_photons edge_spawned 0
  = '(out, g) ← sweep (config edge_spawned) (registry_figs edge_spawned) edge_photons
                  (rng edge_spawned);
    Some (set_lists (set_rng edge_spawned g)
            (<[PhotonSource.photons_ref (source_at (Point.mk 795 300) (Some 0%nat))
               := out]> (lists edge_spawned))).
Proof.
  exact (move_photons_sweeps edge_spawned 0 _ _ edge_spawned_source
           edge_spawned_photons edge_photons_distinct).
Defined.

(** X11: when the photons of the list of a source are distinct objects
    with reflection counts below 8, [move_photons] raises nothing; the
    list it leaves holds, in the same order, some of the same photon
    objects, still distinct and with counts below 8 (it never creates,
    duplicates or reorders a photon), and no other part of the state but
    the random source differs. *)
Theorem move_photons_is_safe (s : State) (self : nat) (f : Fig)
    (ps : list PhotonData.t) :
  objects s !! self = Some f ->
  lists s !! PhotonSource.photons_ref f = Some ps ->
  photons_ok (next_id s) ps ->
  exists s' out,
    PhotonSource.move_photons s self = Some s' /\
    lists s' = <[PhotonSource.photons_ref f := out]> (lists s) /\
    photons_ok (next_id s') out /\
    (PhotonData.pid <$> out) `sublist_of` (PhotonData.pid <$> ps) /\
    (length out <= length ps)%nat /\
    objects s' = objects s /\ config s' = config s /\ next_id s' = next_id s /\
    same_registries s s'.
Proof.
  intros Hf Hl [Hnd Hall].
  rewrite (move_photons_sweep_eq s self f ps Hf Hl Hnd).
  destruct (sweep_ok (config s) (registry_figs s) (next_id s) (length ps) ps (rng s))
    as (out & g' & -> & Hout & Hsub); [done|done|].
  cbn [mbind option_bind]. eexists _, out. split; [done|].
  split; [done|]. split.
  { split; [|done]. by eapply sublist_NoDup. }
  split; [done|]. split.
  { apply sublist_length in Hsub. by rewrite !length_fmap in Hsub. }
  done.
Qed.

Lemma move_photons_is_safe_witness :
  exists s' out,
    PhotonSource.move_photons edge_spawned 0 = Some s' /\
    lists s' = <[PhotonSource.photons_ref (source_at (Point.mk 795 300) (Some 0%nat))
                 := out]> (lists edge_spawned) /\
    photons_ok (next_id s') out /\
    (length out <= length edge_photons)%nat.
Proof.
  assert (Hok : photons_ok (next_id edge_spawned) edge_photons).
  { split; [exact edge_photons_distinct|].
    unfold edge_photons. repeat (constructor; [cbn; lia|]). constructor. }
  destruct (move_photons_is_safe edge_spawned 0 _ _ edge_spawned_source
              edge_spawned_photons Hok)
    as (s' & out & H1 & H2 & H3 & _ & H5 & _).
  exists s', out. exact (conj H1 (conj H2 (conj H3 H5))).
Defined.

(** ** Spawning with jitter *)

Lemma spawn_spec c f degrees : forall next g ps next' g',
  PhotonSource.spawn c f degrees next g = (ps, next', g') ->
  (unit_draws g -> Forall2 (spawned_for c f) degrees ps) /\
  length ps = length degrees /\
  PhotonData.pid <$> ps = seq next (length degrees) /\
  Forall (fun p => PhotonData.n_reflections p = 0%nat) ps /\
  next' = (next + length degrees)%nat /\
  draws g' = draws g /\ cursor g' = (cursor g + length degrees)%nat.
Proof.
  induction degrees as [|d rest IH]; intros next g ps next' g' H.
  - cbn in H. injection H as <- <- <-. cbn. repeat split; try lia; constructor.
  - cbn [PhotonSource.spawn] in H.
    pose proof (axis_bound c g) as Hj.
    pose proof (axis_snd c g) as Hg1.
    destruct (axis c g) as [j g1]. cbn [fst snd] in Hj, Hg1. subst g1.
    destruct (PhotonSource.spawn c f rest (S next) _) as [[ps1 n1] g2] eqn:Hsp.
    injection H as <- <- <-.
    apply IH in Hsp as (Hall & Hlen & Hpid & Hzero & Hn & Hd & Hc).
    cbn [draws cursor] in Hd, Hc, Hall. cbn [length seq fmap list_fmap].
    split.
    { intros Hg. constructor; [|by apply Hall].
      split; [done|]. split; [|done].
      cbn. replace (_ - _) with j by lra. by apply Hj. }
    split; [by rewrite Hlen|]. split; [by rewrite Hpid|].
    split; [by constructor|]. split; [lia|]. split; [done|]. lia.
Qed.

Lemma generate_photons_general s self f old :
  objects s !! self = Some f ->
  lists s !! PhotonSource.photons_ref f = Some old ->
  rays_step (config s) <> 0%Z ->
  exists s' degrees new,
    PhotonSource.generate_photons s self = Some s' /\
    py_range 0 360 (rays_step (config s)) = Some degrees /\
    (unit_draws (rng s) -> Forall2 (spawned_for (config s) f) degrees new) /\
    length new = length degrees /\
    PhotonData.pid <$> new = seq (next_id s) (length new) /\
    Forall (fun p => PhotonData.n_reflections p = 0%nat) new /\
    next_id s' = (next_id s + length new)%nat /\
    lists s' = <[PhotonSource.photons_ref f := old ++ new]> (lists s) /\
    objects s' = <[self := set_photons_attr f (PhotonSource.photons_ref f)]> (objects s) /\
    config s' = config s /\ same_registries s s' /\ mouse s' = mouse s /\
    draws (rng s') = draws (rng s) /\
    cursor (rng s') = (cursor (rng s) + length new)%nat.
Proof.
  intros Hf Hl Hst. unfold PhotonSource.generate_photons.
  rewrite Hf. cbn [mbind option_bind]. rewrite Hl. cbn [mbind option_bind].
  unfold py_range. rewrite decide_False by done. cbn [mbind option_bind].
  set (degrees := map _ _).
  destruct (PhotonSource.spawn (config s) f degrees (next_id s) (rng s))
    as [[ps next] g] eqn:Hsp.
  apply spawn_spec in Hsp as (Hall & Hlen & Hpid & Hzero & Hn & Hd & Hc).
  eexists _, degrees, ps. split; [done|]. split; [done|]. split; [done|].
  split; [done|]. rewrite Hlen. cbn. by repeat split.
Qed.



(** ** When [emit] raises *)

(** The first part of [emit] under a non-zero period, as long as the
    range of the spawn can be built. *)
Lemma emit_spawn_general s self f old :
  objects s !! self = Some f ->
  cls f = PhotonSource_cls ->
  lists s !! PhotonSource.photons_ref f = Some old ->
  frequency (config s) <> 0%Z ->
  (rays_step (config s) <> 0%Z \/ enabled f = false \/
   ((ticks f + 1) mod frequency (config s))%Z <> 0%Z) ->
  exists s1 f1 new,
    PhotonSource.emit_spawn s self = Some s1 /\
    objects s1 = <[self := f1]> (objects s) /\
    cls f1 = cls f /\ enabled f1 = enabled f /\ mid f1 = mid f /\
    radius f1 = radius f /\
    PhotonSource.photons_ref f1 = PhotonSource.photons_ref f /\
    ticks f1 = (if decide (((ticks f + 1) mod frequency (config s))%Z = 0%Z)
                then 0%Z else (ticks f + 1)%Z) /\
    lists s1 = <[PhotonSource.photons_ref f := old ++ new]> (lists s) /\
    PhotonData.pid <$> new = seq (next_id s) (length new) /\
    Forall (fun p => PhotonData.n_reflections p = 0%nat) new /\
    next_id s1 = (next_id s + length new)%nat /\
    config s1 = config s /\ same_registries s s1 /\ mouse s1 = mouse s /\
    draws (rng s1) = draws (rng s) /\
    (enabled f = true -> ((ticks f + 1) mod frequency (config s))%Z = 0%Z ->
     exists degrees, py_range 0 360 (rays_step (config s)) = Some degrees /\
                     length new = length degrees) /\
    (enabled f = false \/ ((ticks f + 1) mod frequency (config s))%Z <> 0%Z ->
     new = [] /\ rng s1 = rng s).
Proof.
  intros Hf Hcls Hl HN Hcan. unfold PhotonSource.emit_spawn.
  rewrite Hf. cbn [mbind option_bind]. rewrite option_guard_True by done.
  unfold py_mod. rewrite decide_False by done. cbn [mbind option_bind].
  cbn [set_objects config ticks set_ticks].
  set (f1 := set_ticks f (ticks f + 1)).
  set (s1 := set_objects s (<[self := f1]> (objects s))).
  assert (Hf1 : objects s1 !! self = Some f1) by apply lookup_insert_eq.
  assert (Hnil : lists s = <[PhotonSource.photons_ref f := old ++ []]> (lists s)).
  { by rewrite app_nil_r, insert_id. }
  destruct (decide (((ticks f + 1) mod frequency (config s))%Z = 0%Z)) as [Hm|Hm].
  - destruct (enabled f) eqn:Hen.
    + assert (Hst : rays_step (config s) <> 0%Z).
      { destruct Hcan as [H|[H|H]]; [done|discriminate|done]. }
      destruct (generate_photons_general s1 self f1 old Hf1 Hl Hst)
        as (s2 & degrees & new & Hgen & Hrange & _ & Hlen & Hpid & Hzero & Hnext & Hl2
            & Ho2 & Hc2 & Hr2 & Hm2 & Hd2 & _).
      change (enabled f1) with (enabled f). rewrite Hen.
      fold f1 s1. rewrite Hgen. cbn [mbind option_bind].
      rewrite Ho2, lookup_insert_eq. cbn [mbind option_bind].
      eexists _, _, new. split; [done|]. cbn [objects set_objects].
      split. { unfold s1. cbn [objects set_objects]. by rewrite !insert_insert_eq. }
      split; [done|]. split; [done|]. split; [done|]. split; [done|].
      split; [done|]. split; [done|]. split; [done|]. split; [done|].
      split; [done|]. split; [done|]. split; [done|]. split; [done|].
      split; [done|]. split; [done|].
      split. { intros _ _. by exists degrees. }
      intros [H|H]; [discriminate|done].
    + change (enabled f1) with (enabled f). rewrite Hen.
      cbn [mbind option_bind]. fold f1 s1. rewrite Hf1. cbn [mbind option_bind].
      eexists _, _, []. split; [done|]. cbn [objects set_objects].
      split. { unfold s1. cbn [objects set_objects]. by rewrite insert_insert_eq. }
      split; [done|]. split; [done|]. split; [done|]. split; [done|].
      split; [done|]. split; [done|]. split; [done|]. split; [done|].
      split; [done|]. split; [cbn; lia|]. split; [done|]. split; [done|].
      split; [done|]. split; [done|]. split; [done|]. done.
  - eexists s1, f1, []. split; [done|]. split; [done|].
    split; [done|]. split; [done|]. split; [done|]. split; [done|].
    split; [done|]. split; [done|]. split; [done|]. split; [done|].
    split; [done|]. split; [cbn; lia|]. split; [done|]. split; [done|].
    split; [done|]. split; [done|]. split; [done|]. done.
Qed.

Lemma blit_draws c figs p g r p' g' :
  Photon.blit c figs p g = Some (r, p', g') -> draws g' = draws g.
Proof.
  rewrite blit_unfold. cbn zeta.
  set (g2 := snd (axis c (snd (axis c g)))).
  set (p1 := Photon.set_coord p _).
  destruct (negb _); [by intros [= _ _ <-]|].
  pose proof (collisions_draws c figs p1 g2) as Hd.
  destruct (Photon.collisions c figs p1 g2) as [[dead p2] g3]. cbn [snd] in Hd.
  destruct dead; [by intros [= _ _ <-]|].
  destruct (Photon.colors !! _); [|done]. cbn. by intros [= _ _ <-].
Qed.

Lemma sweep_draws c figs n : forall ps g out g',
  (length ps <= n)%nat ->
  sweep c figs ps g = Some (out, g') -> draws g' = draws g.
Proof.
  induction n as [|n IH]; intros ps g out g' Hlen H.
  - destruct ps; [|cbn in Hlen; lia]. cbn in H. by injection H as <- <-.
  - destruct ps as [|p rest]; [cbn in H; by injection H as <- <-|].
    cbn [sweep] in H.
    destruct (Photon.blit c figs p g) as [[[r p'] g1]|] eqn:Hb; [|done].
    apply blit_draws in Hb. cbn [mbind option_bind] in H. destruct r as [|col].
    + destruct rest as [|q rest']; [injection H as <- <-; done|].
      destruct (sweep c figs rest' g1) as [[out1 g2]|] eqn:Hs; [|done].
      injection H as <- <-. apply IH in Hs; [congruence|cbn in Hlen; lia].
    + destruct (sweep c figs rest g1) as [[out1 g2]|] eqn:Hs; [|done].
      injection H as <- <-. apply IH in Hs; [congruence|cbn in Hlen; lia].
Qed.

Lemma move_photons_ok s self f ps :
  objects s !! self = Some f ->
  lists s !! PhotonSource.photons_ref f = Some ps ->
  photons_ok (next_id s) ps ->
  exists s' out,
    PhotonSource.move_photons s self = Some s' /\
    lists s' = <[PhotonSource.photons_ref f := out]> (lists s) /\
    photons_ok (next_id s) out /\
    objects s' = objects s /\ config s' = config s /\ next_id s' = next_id s /\
    same_registries s s' /\ draws (rng s') = draws (rng s) /\ mouse s' = mouse s.
Proof.
  intros Hf Hl [Hnd Hall].
  rewrite (move_photons_sweep_eq s self f ps Hf Hl Hnd).
  destruct (sweep_ok (config s) (registry_figs s) (next_id s) (length ps) ps (rng s))
    as (out & g' & Hsw & Hout & Hsub); [done|done|].
  rewrite Hsw. cbn [mbind option_bind]. eexists _, out. split; [done|].
  split; [done|]. split.
  { split; [|done]. by eapply sublist_NoDup. }
  split; [done|]. split; [done|]. split; [done|]. split; [done|].
  split; [|done]. by eapply (sweep_draws _ _ (length ps)).
Qed.

Lemma photons_ok_app next old new :
  photons_ok next old ->
  PhotonData.pid <$> new = seq next (length new) ->
  Forall (fun p => PhotonData.n_reflections p = 0%nat) new ->
  photons_ok (next + length new) (old ++ new).
Proof.
  intros [Hnd Hall] Hpid Hzero. split.
  - rewrite fmap_app, Hpid. apply NoDup_app. split; [done|]. split; [|apply NoDup_seq].
    intros x Hx Hx'. apply elem_of_seq in Hx'.
    apply list_elem_of_fmap_1 in Hx as (p & -> & Hp).
    rewrite Forall_forall in Hall. destruct (Hall p Hp). lia.
  - apply Forall_app. split.
    + eapply Forall_impl; [exact Hall|]. cbn. intros p [H1 H2]. split; [lia|done].
    + rewrite Forall_forall in Hzero. apply Forall_forall. intros p Hp.
      split; [|rewrite (Hzero p Hp); cbn; lia].
      apply (list_elem_of_fmap_2 PhotonData.pid) in Hp. rewrite Hpid in Hp.
      apply elem_of_seq in Hp. lia.
Qed.

Lemma photons_ok_mono next next' ps :
  (next <= next')%nat -> photons_ok next ps -> photons_ok next' ps.
Proof.
  intros Hle [Hnd Hall]. split; [done|].
  eapply Forall_impl; [exact Hall|]. cbn. intros p [H1 H2]. split; [lia|done].
Qed.

(** [emit] on a registered source of a state in order, when neither the
    [%] nor the [range] raises. *)
Lemma emit_ok s self f :
  registry_ok s -> photon_lists_ok s ->
  self ∈ PhotonSource_objects s ->
  objects s !! self = Some f ->
  frequency (config s) <> 0%Z ->
  (rays_step (config s) <> 0%Z \/ enabled f = false \/
   ((ticks f + 1) mod frequency (config s))%Z <> 0%Z) ->
  exists s',
    PhotonSource.emit s self = Some s' /\
    registry_ok s' /\ photon_lists_ok s' /\
    same_registries s s' /\ config s' = config s /\
    draws (rng s') = draws (rng s) /\ mouse s' = mouse s /\
    (forall j, j <> self -> objects s' !! j = objects s !! j) /\
    (well_sized s -> well_sized s').
Proof.
  intros Hok Hlists Hin Hf HN Hcan.
  pose proof Hok as (Hn1 & Hn2 & Hn3 & Hiff & Hc & Hp & Hlt & Href & [old Hold]).
  destruct (Hp self Hin) as (f0 & Hf0 & Hcls). rewrite Hf in Hf0. injection Hf0 as <-.
  pose proof (Href _ _ Hf) as Hr. rewrite <- Hr in Hold.
  destruct (emit_spawn_general s self f old Hf Hcls Hold HN Hcan)
    as (s1 & f1 & new & Hsp & Ho1 & Hcls1 & _ & _ & Hrad1 & Hr1 & _ & Hl1 & Hpid & Hzero
        & Hnext & Hc1 & (HF & HC & HP) & Hm1 & Hd1 & _).
  assert (Hf1 : objects s1 !! self = Some f1) by (rewrite Ho1; apply lookup_insert_eq).
  assert (Hlf1 : lists s1 !! PhotonSource.photons_ref f1 = Some (old ++ new)).
  { rewrite Hr1, Hl1. apply lookup_insert_eq. }
  assert (Hok1 : photons_ok (next_id s1) (old ++ new)).
  { rewrite Hnext. apply photons_ok_app; [by apply (Hlists _ _ Hold)|done|done]. }
  destruct (move_photons_ok s1 self f1 _ Hf1 Hlf1 Hok1)
    as (s2 & out & Hmv & Hl2 & Hout & Ho2 & Hc2 & Hn2' & (HF2 & HC2 & HP2) & Hd2 & Hm2).
  exists s2. unfold PhotonSource.emit. rewrite Hsp. cbn [mbind option_bind].
  split; [done|].
  assert (Hobj : forall j fj, objects s2 !! j = Some fj ->
            j = self /\ fj = f1 \/ j <> self /\ objects s !! j = Some fj).
  { intros j fj Hj. rewrite Ho2, Ho1 in Hj. destruct (decide (j = self)) as [->|Hne].
    - rewrite lookup_insert_eq in Hj. injection Hj as <-. by left.
    - rewrite lookup_insert_ne in Hj by done. by right. }
  split.
  { unfold registry_ok. rewrite HF2, HC2, HP2, HF, HC, HP, Hn2', Hnext.
    split; [done|]. split; [done|]. split; [done|]. split; [done|].
    split.
    { intros i Hi. destruct (Hc i Hi) as (fi & Hfi & Hci). exists fi. split; [|done].
      rewrite Ho2, Ho1, lookup_insert_ne; [done|]. intros <-. congruence. }
    split.
    { intros i Hi. destruct (decide (i = self)) as [->|Hne].
      - exists f1. split; [by rewrite Ho2|congruence].
      - destruct (Hp i Hi) as (fi & Hfi & Hci). exists fi. split; [|done].
        by rewrite Ho2, Ho1, lookup_insert_ne. }
    split.
    { intros i fi Hi. destruct (Hobj _ _ Hi) as [[-> ->]|[_ Hi']].
      - pose proof (Hlt _ _ Hf). lia.
      - pose proof (Hlt _ _ Hi'). lia. }
    split.
    { intros i fi Hi. destruct (Hobj _ _ Hi) as [[-> ->]|[_ Hi']].
      - congruence.
      - by apply (Href _ _ Hi'). }
    rewrite Hl2, Hl1, Hr1, Hr. rewrite lookup_insert_eq. done. }
  split.
  { intros l ps Hl. rewrite Hn2'. rewrite Hl2, Hr1 in Hl.
    destruct (decide (l = PhotonSource.photons_ref f)) as [->|Hne].
    - rewrite lookup_insert_eq in Hl. by injection Hl as <-.
    - rewrite lookup_insert_ne in Hl by done. rewrite Hl1, lookup_insert_ne in Hl by done.
      rewrite Hnext. eapply photons_ok_mono; [|by apply (Hlists _ _ Hl)]. lia. }
  split; [unfold same_registries; by rewrite HF2, HC2, HP2|].
  split; [congruence|]. split; [congruence|]. split; [congruence|].
  split; [intros j Hj; by rewrite Ho2, Ho1, lookup_insert_ne|].
  intros Hsz i fi Hi. destruct (Hobj _ _ Hi) as [[-> ->]|[_ Hi']].
  - rewrite Hrad1. by apply (Hsz _ _ Hf).
  - by apply (Hsz _ _ Hi').
Qed.

Lemma workshop_state period step :
  workshop period step =
    mkState (quiet_config period step) (<[0%nat := source_at (Point.mk 400 300) None]> ∅)
            [0%nat] [] [0%nat] {[PhotonSource_photons := []]} 1
            (constant_rng (1 / 2)) origin.
Proof. reflexivity. Qed.

Lemma workshop_ok period step : registry_ok (workshop period step).
Proof.
  pose (s0 := initial_state (quiet_config period step) (constant_rng (1 / 2)) origin).
  by destruct (new_figure_spec s0 (workshop period step) PhotonSource_cls
                 (Point.mk 400 300) 5 "lightyellow" 0 (initial_state_ok _ _ _) eq_refl)
    as (_ & _ & _ & _ & _ & _ & _ & _ & ?).
Qed.

Lemma workshop_lists_ok period step : photon_lists_ok (workshop period step).
Proof.
  intros l ps. rewrite workshop_state. cbn [lists next_id].
  intros [_ <-]%lookup_singleton_Some. split; [apply NoDup_nil_2|constructor].
Qed.

Lemma workshop_source period step :
  objects (workshop period step) !! 0%nat = Some (source_at (Point.mk 400 300) None).
Proof. rewrite workshop_state. cbn [objects]. apply lookup_insert_eq. Qed.

Lemma workshop_registered period step :
  0%nat ∈ PhotonSource_objects (workshop period step).
Proof. rewrite workshop_state. cbn [PhotonSource_objects]. apply list_elem_of_singleton. done. Qed.

(** X13: on a registered source of a state in order, [emit] raises when
    the spawn period is 0 (the [%] divides by zero, on every tick) and
    when the angular step is 0 on a tick on which the source is enabled
    and the counter reaches a multiple of the period (the [range] refuses
    the step).  With settings in range and figures of radius 5 at least,
    these are the only two cases: in every other case [emit] returns, and
    leaves the registries and the settings as they were and the state in
    order. *)
Theorem emit_raises_exactly (s : State) (self : nat) (f : Fig) :
  registry_ok s -> photon_lists_ok s ->
  self ∈ PhotonSource_objects s ->
  objects s !! self = Some f ->
  (frequency (config s) = 0%Z \/
   (rays_step (config s) = 0%Z /\ enabled f = true /\
    ((ticks f + 1) mod frequency (config s))%Z = 0%Z) ->
   PhotonSource.emit s self = None) /\
  (settings_in_range (config s) -> well_sized s ->
   (PhotonSource.emit s self = None ->
    frequency (config s) = 0%Z \/
    (rays_step (config s) = 0%Z /\ enabled f = true /\
     ((ticks f + 1) mod frequency (config s))%Z = 0%Z)) /\
   (forall s', PhotonSource.emit s self = Some s' ->
      registry_ok s' /\ photon_lists_ok s' /\ well_sized s' /\
      same_registries s s' /\ config s' = config s)).
Proof.
  intros Hok Hlists Hin Hf.
  pose proof Hok as (_ & _ & _ & _ & _ & Hp & _ & Href & [old Hold]).
  destruct (Hp self Hin) as (f0 & Hf0 & Hcls). rewrite Hf in Hf0. injection Hf0 as <-.
  split.
  { intros [HN|(Hst & Hen & Hdue)].
    - unfold PhotonSource.emit, PhotonSource.emit_spawn.
      rewrite Hf. cbn [mbind option_bind]. rewrite option_guard_True by done.
      unfold py_mod. cbn [set_objects config]. by rewrite decide_True.
    - destruct (decide (frequency (config s) = 0%Z)) as [HN|HN].
      { unfold PhotonSource.emit, PhotonSource.emit_spawn.
        rewrite Hf. cbn [mbind option_bind]. rewrite option_guard_True by done.
        unfold py_mod. cbn [set_objects config]. by rewrite decide_True. }
      unfold PhotonSource.emit, PhotonSource.emit_spawn.
      rewrite Hf. cbn [mbind option_bind]. rewrite option_guard_True by done.
      unfold py_mod. cbn [set_objects config ticks set_ticks enabled].
      rewrite decide_False by done. cbn [mbind option_bind].
      rewrite decide_True by done. rewrite Hen.
      assert (Hgen : forall s1, rays_step (config s1) = 0%Z ->
                       PhotonSource.generate_photons s1 self = None).
      { intros s1 H1. unfold PhotonSource.generate_photons.
        destruct (objects s1 !! self) as [f1|]; [|done]. cbn [mbind option_bind].
        destruct (lists s1 !! _); [|done]. cbn [mbind option_bind].
        unfold py_range. by rewrite decide_True. }
      by rewrite Hgen. }
  intros _ Hsz.
  destruct (decide (frequency (config s) = 0%Z)) as [HN|HN].
  { split; [by left|]. intros s'.
    unfold PhotonSource.emit, PhotonSource.emit_spawn.
    rewrite Hf. cbn [mbind option_bind]. rewrite option_guard_True by done.
    unfold py_mod. cbn [set_objects config]. by rewrite decide_True. }
  destruct (decide (rays_step (config s) = 0%Z /\ enabled f = true /\
                    ((ticks f + 1) mod frequency (config s))%Z = 0%Z))
    as [Hcase|Hnot].
  { split; [by right|]. intros s' Hs'. exfalso.
    destruct Hcase as (Hst & Hen & Hdue). revert Hs'.
    unfold PhotonSource.emit, PhotonSource.emit_spawn.
    rewrite Hf. cbn [mbind option_bind]. rewrite option_guard_True by done.
    unfold py_mod. cbn [set_objects config ticks set_ticks enabled].
    rewrite decide_False by done. cbn [mbind option_bind].
    rewrite decide_True by done. rewrite Hen.
    assert (Hgen : forall s1, rays_step (config s1) = 0%Z ->
                     PhotonSource.generate_photons s1 self = None).
    { intros s1 H1. unfold PhotonSource.generate_photons.
      destruct (objects s1 !! self) as [f1|]; [|done]. cbn [mbind option_bind].
      destruct (lists s1 !! _); [|done]. cbn [mbind option_bind].
      unfold py_range. by rewrite decide_True. }
    by rewrite Hgen. }
  assert (Hcan : rays_step (config s) <> 0%Z \/ enabled f = false \/
                 ((ticks f + 1) mod frequency (config s))%Z <> 0%Z).
  { destruct (decide (rays_step (config s) = 0%Z)) as [Hst|Hst]; [|by left].
    destruct (enabled f) eqn:Hen; [|right; by left].
    destruct (decide (((ticks f + 1) mod frequency (config s))%Z = 0%Z)) as [Hdue|Hdue];
      [|right; by right].
    by destruct Hnot. }
  destruct (emit_ok s self f Hok Hlists Hin Hf HN Hcan)
    as (s1 & Hs1 & Hok1 & Hl1 & Hreg & Hc1 & _ & _ & _ & Hsz1).
  rewrite Hs1. split; [done|].
  intros s' [= <-]. split; [done|]. split; [done|]. split; [by apply Hsz1|]. done.
Qed.

Lemma workshop_in_range period step : settings_in_range (config (workshop period step)).
Proof.
  rewrite workshop_state. unfold settings_in_range.
  cbn [config quiet_config axis_value p_size]. split.
  - rewrite Rabs_R0. apply IZR_lt. lia.
  - lia.
Qed.

Lemma workshop_sized period step : well_sized (workshop period step).
Proof.
  intros i f. rewrite workshop_state. cbn [objects].
  intros [[_ <-]|[_ H]]%lookup_insert_Some; [cbn; lia|].
  by rewrite lookup_empty in H.
Qed.

Lemma emit_raises_exactly_witness :
  PhotonSource.emit (workshop 0 2) 0 = None /\
  PhotonSource.emit (workshop 1 0) 0 = None /\
  PhotonSource.emit (workshop 2 0) 0 <> None.
Proof.
  split; [|split].
  - apply (emit_raises_exactly (workshop 0 2) 0 _ (workshop_ok _ _)
             (workshop_lists_ok _ _) (workshop_registered _ _) (workshop_source _ _)).
    by left.
  - apply (emit_raises_exactly (workshop 1 0) 0 _ (workshop_ok _ _)
             (workshop_lists_ok _ _) (workshop_registered _ _) (workshop_source _ _)).
    right. by cbn.
  - intros H.
    apply (proj2 (emit_raises_exactly (workshop 2 0) 0 _ (workshop_ok _ _)
                    (workshop_lists_ok _ _) (workshop_registered _ _)
                    (workshop_source _ _))
             (workshop_in_range _ _) (workshop_sized _ _)) in H.
    destruct H as [H|(_ & _ & H)]; [by cbn in H|by cbn in H].
Defined.

(** ** The loops of the frame *)

(** A property that the body keeps on the objects the loop reads from
    index [lo] on holds when the loop ends, and the loop raises nothing. *)
Lemma for_each_inv (I : State -> Prop) registry body lo :
  (forall s i obj, (lo <= i)%nat -> I s -> registry s !! i = Some obj ->
     exists s', body s obj = Some s' /\ I s') ->
  forall fuel s i, (lo <= i)%nat -> I s ->
    exists s', for_each fuel registry body s i = Some s' /\ I s'.
Proof.
  intros Hbody. induction fuel as [|fuel IH]; intros s i Hi Hs; [by exists s|].
  cbn [for_each]. destruct (registry s !! i) as [obj|] eqn:Hobj; [|by exists s].
  destruct (Hbody s i obj Hi Hs Hobj) as (s1 & -> & Hs1). cbn [mbind option_bind].
  apply IH; [lia|done].
Qed.

(** When the body never lengthens the registry, the length of the
    registry at entry is fuel enough: the loop ends by running off the
    end of the registry. *)
Lemma for_each_fuel (I : State -> Prop) registry body :
  (forall s i obj s', I s -> registry s !! i = Some obj -> body s obj = Some s' ->
     I s' /\ (length (registry s') <= length (registry s))%nat) ->
  forall fuel k s i, I s -> (length (registry s) <= i + fuel)%nat ->
    for_each (fuel + k) registry body s i = for_each fuel registry body s i.
Proof.
  intros Hbody. induction fuel as [|fuel IH]; intros k s i Hs Hlen.
  - cbn [for_each Nat.add]. destruct k; [done|]. cbn [for_each].
    rewrite lookup_ge_None_2 by lia. done.
  - cbn [for_each Nat.add]. destruct (registry s !! i) as [obj|] eqn:Hobj; [|done].
    destruct (body s obj) as [s1|] eqn:Hb; [|done]. cbn [mbind option_bind].
    destruct (Hbody s i obj s1 Hs Hobj Hb) as [Hs1 Hle]. apply IH; [done|lia].
Qed.

Lemma removed_from_index x l l' j :
  NoDup l -> removed_from x l l' -> l !! j = Some x ->
  (forall i, (i < j)%nat -> l' !! i = l !! i) /\
  (forall i, (j <= i)%nat -> l' !! i = l !! S i).
Proof.
  intros Hnd (pre & post & -> & -> & Hpre) Hj.
  assert (Hlen : j = length pre).
  { eapply NoDup_lookup; [exact Hnd|exact Hj|]. by apply list_lookup_middle. }
  subst j. split.
  - intros i Hi. by rewrite !lookup_app_l.
  - intros i Hi. rewrite !lookup_app_r by lia.
    replace (S i - length pre)%nat with (S (i - length pre)) by lia. done.
Qed.

Lemma removed_from_sublist x l l' : removed_from x l l' -> l' `sublist_of` l.
Proof.
  intros (pre & post & -> & -> & _). apply sublist_app; [done|]. by apply sublist_cons.
Qed.

Lemma listen_loop_lists events : forall s self b s1,
  PhotonSource.listen_loop s self events = Some (b, s1) ->
  forall l ps, lists s1 !! l = Some ps -> ps = [] \/ lists s !! l = Some ps.
Proof.
  induction events as [|e rest IH]; intros s self b s1 H l ps Hl.
  - cbn in H. injection H as <- <-. by right.
  - cbn [PhotonSource.listen_loop] in H.
    destruct (objects s !! self) as [f|]; [|done]. cbn [mbind option_bind] in H.
    destruct e as [pos|pos button|pos button|wy|key|]; try by apply (IH _ _ _ _ H).
    + destruct (bool_decide (button = 3%Z) && Circle.collide f pos);
        by apply (IH _ _ _ _ H) in Hl.
    + assert (Hclear : forall ps0, <[PhotonSource.photons_ref f := []]> (lists s) !! l
                                   = Some ps0 -> ps0 = [] \/ lists s !! l = Some ps0).
      { intros ps0 H0. destruct (decide (l = PhotonSource.photons_ref f)) as [->|Hne].
        - rewrite lookup_insert_eq in H0. left. congruence.
        - rewrite lookup_insert_ne in H0 by done. by right. }
      destruct (bool_decide (key = K_c)).
      * destruct (lists s !! PhotonSource.photons_ref f) as [old|]; [|done].
        cbn [mbind option_bind] in H. destruct (bool_decide (key = K_r)).
        -- injection H as <- <-. by apply Hclear.
        -- apply (IH _ _ _ _ H) in Hl as [->|Hl]; [by left|]. by apply Hclear.
      * cbn [mbind option_bind] in H. destruct (bool_decide (key = K_r)).
        -- injection H as <- <-. by right.
        -- by apply (IH _ _ _ _ H).
Qed.

(** [listen] leaves every photon list as it was or empties it. *)
Lemma listen_lists s self events s' :
  listen s self events = Some s' ->
  forall l ps, lists s' !! l = Some ps -> ps = [] \/ lists s !! l = Some ps.
Proof.
  unfold listen. destruct (objects s !! self) as [f|] eqn:Hf; [|done].
  cbn [mbind option_bind]. destruct (cls f).
  - intros H l ps Hl.
    destruct (Circle_listen_spec _ _ _ _ _ Hf H) as (_ & _ & _ & _ & Heq & _).
    right. by rewrite <- Heq.
  - unfold PhotonSource.listen.
    destruct (PhotonSource.listen_loop s self events) as [[b s1]|] eqn:Hloop; [|done].
    cbn [mbind option_bind]. destruct b.
    + intros [= <-]. by apply (listen_loop_lists _ _ _ _ _ Hloop).
    + intros H l ps Hl.
      destruct (listen_loop_spec _ _ _ _ _ _ Hf Hloop) as (f1 & Hf1 & _).
      destruct (Circle_listen_spec _ _ _ _ _ Hf1 H) as (_ & _ & _ & _ & Heq & _).
      rewrite Heq in Hl. by apply (listen_loop_lists _ _ _ _ _ Hloop).
Qed.

(** One [listen] of the frame on a state in order. *)
Lemma listen_frame_ok s obj events :
  frame_ok s -> obj ∈ Figure_objects s ->
  exists s',
    listen s obj events = Some s' /\ frame_ok s' /\
    PhotonSource_objects s' = PhotonSource_objects s /\
    config s' = config s /\
    Figure_objects s' `sublist_of` Figure_objects s /\
    same_outside obj s s' /\
    (same_registries s s' \/ removed_from obj (Figure_objects s) (Figure_objects s')).
Proof.
  intros (Hok & Hlists & Hg & HN & Hst & Hset & Hsz) Hin.
  destruct (listen_total s obj events Hok Hin) as [s' Hs'].
  pose proof (listen_registry_ok _ _ _ _ Hok Hin Hs') as Hok'.
  destruct (registry_ok_lookup _ _ Hok Hin) as [f Hf].
  destruct (listen_spec _ _ _ _ _ Hf Hs')
    as (f' & Hf' & _ & _ & _ & _ & Hrad & _ & Hout & _ & _ & Hstep & Hsrc).
  pose proof Hout as (Hoth & Hc & Hr & Hn & _).
  exists s'. split; [done|]. split.
  { split; [done|]. split.
    { intros l ps Hl. rewrite Hn.
      destruct (listen_lists _ _ _ _ Hs' _ _ Hl) as [->|Hl0].
      - split; [apply NoDup_nil_2|constructor].
      - by apply (Hlists _ _ Hl0). }
    rewrite Hr, Hc. split; [done|]. split; [done|]. split; [done|]. split; [done|].
    intros i fi Hi. destruct (decide (i = obj)) as [->|Hne].
    - rewrite Hf' in Hi. injection Hi as <-. apply Hrad. by apply (Hsz _ _ Hf).
    - rewrite Hoth in Hi by done. by apply (Hsz _ _ Hi). }
  split.
  { destruct (cls f) eqn:Hcls.
    - destruct Hstep as [(_ & _ & H)|(_ & _ & H)]; [done|].
      by apply (H PhotonSource_cls).
    - by destruct (Hsrc eq_refl) as (_ & _ & H). }
  split; [done|]. split.
  { destruct Hstep as [(H & _)|(H & _)]; [by rewrite H|by eapply removed_from_sublist]. }
  split; [done|].
  destruct Hstep as [H|(H & _)]; [by left|by right].
Qed.

(** One [emit] of the frame on a state in order. *)
Lemma emit_frame_ok s obj :
  frame_ok s -> obj ∈ PhotonSource_objects s ->
  exists s',
    PhotonSource.emit s obj = Some s' /\ frame_ok s' /\
    same_registries s s' /\ config s' = config s.
Proof.
  intros (Hok & Hlists & Hg & HN & Hst & Hset & Hsz) Hin.
  pose proof Hok as (_ & _ & _ & _ & _ & Hp & _).
  destruct (Hp obj Hin) as (f & Hf & _).
  destruct (emit_ok s obj f Hok Hlists Hin Hf HN (or_introl Hst))
    as (s' & Hs' & Hok' & Hlists' & Hreg & Hc & Hd & _ & _ & Hsz').
  exists s'. split; [done|]. split; [|done].
  split; [done|]. split; [done|]. split; [intros k; rewrite Hd; apply Hg|].
  rewrite Hc. split; [done|]. split; [done|]. split; [done|]. by apply Hsz'.
Qed.

Lemma listen_all_ok s events :
  frame_ok s ->
  exists s1,
    listen_all s events = Some s1 /\ frame_ok s1 /\
    PhotonSource_objects s1 = PhotonSource_objects s /\ config s1 = config s /\
    Figure_objects s1 `sublist_of` Figure_objects s /\
    forall k, for_each (length (Figure_objects s) + k) Figure_objects
                (fun s0 obj => listen s0 obj events) s 0 = listen_all s events.
Proof.
  intros Hs.
  destruct (for_each_inv
              (fun s1 => frame_ok s1 /\
                 PhotonSource_objects s1 = PhotonSource_objects s /\
                 config s1 = config s /\
                 Figure_objects s1 `sublist_of` Figure_objects s)
              Figure_objects (fun s0 obj => listen s0 obj events) 0)
    with (fuel := length (Figure_objects s)) (s := s) (i := 0%nat)
    as (s1 & Hs1 & H1 & H2 & H3 & H4); [|lia|done|].
  { intros s0 i obj _ (Hok0 & Hp0 & Hc0 & Hsub0) Hobj.
    apply list_elem_of_lookup_2 in Hobj.
    destruct (listen_frame_ok s0 obj events Hok0 Hobj)
      as (s' & Hl & Hok' & Hp' & Hc' & Hsub' & _).
    exists s'. split; [done|]. split; [done|]. split; [congruence|].
    split; [congruence|]. by etrans. }
  exists s1. split; [done|]. split; [done|]. split; [done|]. split; [done|].
  split; [done|]. intros k.
  apply (for_each_fuel frame_ok); [|done|lia].
  intros s0 i obj s' Hok0 Hobj Hb. apply list_elem_of_lookup_2 in Hobj.
  destruct (listen_frame_ok s0 obj events Hok0 Hobj)
    as (s'' & Hl & Hok' & _ & _ & Hsub' & _).
  rewrite Hb in Hl. injection Hl as <-. split; [done|]. by apply sublist_length.
Qed.

Lemma emit_all_ok s :
  frame_ok s ->
  exists s1,
    emit_all s = Some s1 /\ frame_ok s1 /\ same_registries s s1 /\
    config s1 = config s /\
    forall k, for_each (length (PhotonSource_objects s) + k) PhotonSource_objects
                PhotonSource.emit s 0 = emit_all s.
Proof.
  intros Hs.
  destruct (for_each_inv
              (fun s1 => frame_ok s1 /\ same_registries s s1 /\ config s1 = config s)
              PhotonSource_objects PhotonSource.emit 0)
    with (fuel := length (PhotonSource_objects s)) (s := s) (i := 0%nat)
    as (s1 & Hs1 & H1 & H2 & H3); [|lia|done|].
  { intros s0 i obj _ (Hok0 & Hr0 & Hc0) Hobj.
    apply list_elem_of_lookup_2 in Hobj.
    destruct (emit_frame_ok s0 obj Hok0 Hobj) as (s' & He & Hok' & Hr' & Hc').
    exists s'. split; [done|]. split; [done|].
    split; [by eapply same_registries_trans|congruence]. }
  exists s1. split; [done|]. split; [done|]. split; [done|]. split; [done|].
  intros k. apply (for_each_fuel frame_ok); [|done|lia].
  intros s0 i obj s' Hok0 Hobj Hb. apply list_elem_of_lookup_2 in Hobj.
  destruct (emit_frame_ok s0 obj Hok0 Hobj) as (s'' & He & Hok' & (_ & _ & Hr') & _).
  rewrite Hb in He. injection He as <-. split; [done|]. by rewrite Hr'.
Qed.

(** X14: on a state in order (registries and photon lists in order,
    figures of radius 5 at least, draws in [[0, 1)], period and angular
    step not 0, settings in range) one pass of the frame loop raises
    nothing, whatever the events, and leaves the state in order; it never
    removes a photon source, never adds a figure and never changes the
    settings; and both loops end by running off the end of their
    registry, so more iterations would change nothing. *)
Theorem frame_is_safe (s : State) (events : list Event) :
  frame_ok s ->
  exists s1 s',
    listen_all s events = Some s1 /\ emit_all s1 = Some s' /\
    frame s events = Some s' /\ frame_ok s' /\
    PhotonSource_objects s' = PhotonSource_objects s /\
    Figure_objects s' `sublist_of` Figure_objects s /\
    config s' = config s /\
    (forall k, for_each (length (Figure_objects s) + k) Figure_objects
                 (fun s0 obj => listen s0 obj events) s 0 = Some s1) /\
    (forall k, for_each (length (PhotonSource_objects s1) + k) PhotonSource_objects
                 PhotonSource.emit s1 0 = Some s').
Proof.
  intros Hs.
  destruct (listen_all_ok s events Hs) as (s1 & Hl & Hs1 & Hp1 & Hc1 & Hsub1 & Hfuel1).
  destruct (emit_all_ok s1 Hs1) as (s' & He & Hs' & (HF & _ & HP) & Hc' & Hfuel').
  exists s1, s'. split; [done|]. split; [done|]. split.
  { unfold frame. by rewrite Hl. }
  split; [done|]. split; [congruence|]. split; [by rewrite HF|].
  split; [congruence|]. split.
  - intros k. by rewrite Hfuel1.
  - intros k. by rewrite Hfuel'.
Qed.

Lemma yard_frame_ok : frame_ok yard.
Proof.
  split; [apply yard_ok|]. split.
  { intros l ps. rewrite yard_state. cbn [lists next_id].
    intros [_ <-]%lookup_singleton_Some. split; [apply NoDup_nil_2|constructor]. }
  split; [intros k; rewrite yard_state; cbn; lra|].
  rewrite yard_state. cbn [config quiet_config frequency rays_step].
  split; [lia|]. split; [lia|]. split.
  { unfold settings_in_range, quiet_config. cbn [axis_value p_size]. split.
    - rewrite Rabs_R0. apply IZR_lt. lia.
    - lia. }
  intros i f. cbn [objects].
  intros [[_ <-]|[_ H]]%lookup_insert_Some; [cbn; lia|].
  apply lookup_insert_Some in H as [[_ <-]|[_ H]]; [cbn; lia|].
  by rewrite lookup_empty in H.
Qed.

Lemma frame_is_safe_witness :
  exists s', frame yard [KEYDOWN K_r; KEYDOWN K_c] = Some s' /\ frame_ok s' /\
             PhotonSource_objects s' = PhotonSource_objects yard.
Proof.
  destruct (frame_is_safe yard [KEYDOWN K_r; KEYDOWN K_c] yard_frame_ok)
    as (s1 & s' & _ & _ & H1 & H2 & H3 & _).
  exists s'. exact (conj H1 (conj H2 H3)).
Defined.

(** ** A deletion in the loop of [listen] calls *)

Lemma listen_step_keeps s obj events i b s0 :
  registry_ok s ->
  Figure_objects s !! i = Some b ->
  forall j, (i < j)%nat -> Figure_objects s !! j = Some obj ->
  exists s',
    listen s obj events = Some s' /\ registry_ok s' /\
    Figure_objects s' !! i = Some b /\
    (objects s !! b = objects s0 !! b -> objects s' !! b = objects s0 !! b).
Proof.
  intros Hok Hb j Hij Hobj.
  pose proof Hok as (Hnd & _).
  assert (Hin : obj ∈ Figure_objects s) by by eapply list_elem_of_lookup_2.
  destruct (listen_total s obj events Hok Hin) as [s' Hs'].
  pose proof (listen_registry_ok _ _ _ _ Hok Hin Hs') as Hok'.
  destruct (registry_ok_lookup _ _ Hok Hin) as [f Hf].
  destruct (listen_spec _ _ _ _ _ Hf Hs')
    as (f' & _ & _ & _ & _ & _ & _ & _ & (Hoth & _) & _ & _ & Hstep & _).
  assert (Hne : b <> obj).
  { intros ->. pose proof (NoDup_lookup _ _ _ _ Hnd Hb Hobj). lia. }
  exists s'. split; [done|]. split; [done|]. split.
  - destruct Hstep as [(H & _)|(H & _)]; [by rewrite H|].
    destruct (removed_from_index _ _ _ _ Hnd H Hobj) as [Hbefore _].
    by rewrite Hbefore.
  - intros H. by rewrite Hoth.
Qed.

(** X15: the loop of [listen] calls iterates over [Figure.__objects__]
    while [listen] removes from it.  When the [listen] of the object read
    at index [i] removes that object, the object that followed it moves
    to index [i], which the loop has passed: its [listen] is not called
    in this frame, so whatever the events say, it is still registered, at
    index [i], and unchanged when the loop ends. *)
Theorem listen_loop_skips_next (s s1 : State) (events : list Event)
    (i fuel a b : nat) :
  registry_ok s ->
  Figure_objects s !! i = Some a ->
  Figure_objects s !! S i = Some b ->
  listen s a events = Some s1 ->
  a ∉ Figure_objects s1 ->
  exists s',
    for_each (S fuel) Figure_objects (fun s0 obj => listen s0 obj events) s i = Some s' /\
    Figure_objects s' !! i = Some b /\
    objects s' !! b = objects s !! b.
Proof.
  intros Hok Ha Hb Hl Hgone.
  pose proof Hok as (Hnd & _).
  assert (Hin : a ∈ Figure_objects s) by by eapply list_elem_of_lookup_2.
  pose proof (listen_registry_ok _ _ _ _ Hok Hin Hl) as Hok1.
  destruct (registry_ok_lookup _ _ Hok Hin) as [f Hf].
  destruct (listen_spec _ _ _ _ _ Hf Hl)
    as (f' & _ & _ & _ & _ & _ & _ & _ & (Hoth & _) & _ & _ & Hstep & _).
  assert (Hne : b <> a).
  { intros ->. pose proof (NoDup_lookup _ _ _ _ Hnd Ha Hb). lia. }
  assert (Hb1 : Figure_objects s1 !! i = Some b).
  { destruct Hstep as [(H & _)|(H & _)].
    - destruct Hgone. by rewrite H.
    - destruct (removed_from_index _ _ _ _ Hnd H Ha) as [_ Hafter].
      by rewrite Hafter. }
  cbn [for_each]. rewrite Ha, Hl. cbn [mbind option_bind].
  destruct (for_each_inv
              (fun s0 => registry_ok s0 /\ Figure_objects s0 !! i = Some b /\
                         objects s0 !! b = objects s !! b)
              Figure_objects (fun s0 obj => listen s0 obj events) (S i))
    with (fuel := fuel) (s := s1) (i := S i) as (s' & Hs' & _ & H2 & H3); [|lia| |].
  { intros s0 j obj Hj (Hok0 & Hb0 & Ho0) Hobj.
    destruct (listen_step_keeps s0 obj events i b s Hok0 Hb0 j Hj Hobj)
      as (s' & H1 & H2 & H3 & H4).
    exists s'. split; [done|]. split; [done|]. split; [done|]. by apply H4. }
  { split; [done|]. split; [done|]. by apply Hoth. }
  by exists s'.
Qed.

Lemma crowd_state :
  crowd = mkState (quiet_config 20 2)
            (<[2%nat := crowd_circle]>
               (<[1%nat := yard_circle]> (<[0%nat := yard_source]> ∅)))
            [0%nat; 1%nat; 2%nat] [1%nat; 2%nat] [0%nat]
            {[PhotonSource_photons := []]} 3
            (constant_rng (1 / 2)) (Point.mk 100 100).
Proof. reflexivity. Qed.

Lemma crowd_ok : registry_ok crowd.
Proof.
  by destruct (new_figure_spec yard crowd Circle_cls (Point.mk 104 100) 10 "dimgray" 2
                 yard_ok eq_refl) as (_ & _ & _ & _ & _ & _ & _ & _ & ?).
Qed.

(** A press of R with the pointer on a registered circle takes the
    circle out of [Figure.__objects__]. *)
Lemma circle_delete s self f :
  registry_ok s -> self ∈ Figure_objects s ->
  objects s !! self = Some f -> cls f = Circle_cls ->
  Circle.collide f (mouse s) = true ->
  exists s', listen s self [KEYDOWN K_r] = Some s' /\ (self ∉ Figure_objects s').
Proof.
  intros Hok Hall Hf Hcls Hcol. pose proof Hok as (Hnd & _).
  pose proof (registry_ok_member _ _ _ Hok Hall Hf) as Hown.
  rewrite Hcls in Hown. cbn [class_objects] in Hown.
  destruct (list_remove_spec _ _ Hown) as (own & Hown' & Hrown).
  destruct (list_remove_spec _ _ Hall) as (all & Hall' & Hrall).
  exists (set_registries s Circle_cls own all). split.
  { unfold listen. rewrite Hf. cbn [mbind option_bind]. rewrite Hcls.
    cbn [Circle.listen]. rewrite Hf. cbn [mbind option_bind Circle.handle].
    rewrite (insert_id (objects s) self f Hf).
    replace (set_objects s (objects s)) with s by (by destruct s).
    unfold Circle.is_delete. rewrite bool_decide_eq_true_2 by done.
    rewrite Hcol. cbn [andb]. rewrite Hcls. cbn [class_objects].
    rewrite Hown'. cbn [mbind option_bind]. by rewrite Hall'. }
  cbn [set_registries Figure_objects]. by eapply removed_from_gone.
Qed.

Lemma listen_loop_skips_next_witness :
  exists s',
    for_each 3 Figure_objects (fun s0 obj => listen s0 obj [KEYDOWN K_r]) crowd 1
      = Some s' /\
    Figure_objects s' !! 1%nat = Some 2%nat /\
    objects s' !! 2%nat = objects crowd !! 2%nat.
Proof.
  assert (Hin : 1%nat ∈ Figure_objects crowd).
  { rewrite crowd_state. cbn [Figure_objects]. apply elem_of_cons. right.
    apply elem_of_cons. by left. }
  assert (Hf : objects crowd !! 1%nat = Some yard_circle).
  { rewrite crowd_state. cbn [objects]. by rewrite lookup_insert_ne, lookup_insert_eq. }
  assert (Hcol : Circle.collide yard_circle (mouse crowd) = true).
  { apply collide_true; rewrite ?crowd_state; unfold yard_circle, sqr;
      cbn [radius mid mouse Point.x Point.y]; lra. }
  destruct (circle_delete crowd 1 yard_circle crowd_ok Hin Hf eq_refl Hcol)
    as (s1 & Hl & Hgone).
  exact (listen_loop_skips_next crowd s1 [KEYDOWN K_r] 1 2 1 2 crowd_ok
           eq_refl eq_refl Hl Hgone).
Defined.

(** * The spawn cadence and the advance of every tick *)







